(** * Conversion between the v1alpha1 and v1beta1 Tenant schemas

    A shallow embedding of [api/v1alpha1/conversion_hub.go]: the upgrade
    [ConvertTo] (v1alpha1 to v1beta1), the downgrade [ConvertFrom] (v1beta1 to
    v1alpha1) and the two owner codecs [convertV1Alpha1OwnerToV1Beta1] and
    [convertV1Beta1OwnerToV1Alpha1], followed by the properties of the
    annotation encoding of owners and of their proxy permissions. *)

From Stdlib Require Import Ascii.
From stdpp Require Import gmap strings list fin_maps.

Open Scope string_scope.
Open Scope list_scope.

(** ** Go runtime and standard library pieces used by the conversion *)

(** A Go call either returns or panics (nil map write, nil pointer
    dereference). *)
Inductive outcome (A : Type) : Type :=
  | Returned (a : A)
  | Panicked.
Arguments Returned {A} a.
Arguments Panicked {A}.

Definition outcome_bind {A B} (x : outcome A) (f : A → outcome B) : outcome B :=
  match x with
  | Returned a => f a
  | Panicked => Panicked
  end.

Notation "x ← y ;;; z" := (outcome_bind y (λ x, z))
  (at level 20, y at level 100, z at level 200, right associativity,
   format "x  ←  y  ;;;  '/' z").
Notation "' x ← y ;;; z" := (outcome_bind y (λ x, z))
  (at level 20, x pattern, y at level 100, z at level 200, right associativity,
   format "' x  ←  y  ;;;  '/' z").

Definition returns {A} (x : outcome A) : bool :=
  match x with Returned _ => true | Panicked => false end.

(** [range] over a Go map visits the entries in an order the language leaves
    unspecified and that may change from one loop to the next.  An order is
    described by a selection code: [shuffle (i :: c) l] takes the element at
    index [i] first and goes on with [c] on the remaining elements; a code that
    runs out, or an index out of range, leaves the remaining elements in place.
    Every code yields a permutation and every permutation has a code
    ([shuffle_Permutation], [shuffle_complete]). *)
Fixpoint shuffle {A} (code : list nat) (l : list A) : list A :=
  match code with
  | [] => l
  | i :: code' =>
      match l !! i with
      | Some x => x :: shuffle code' (delete i l)
      | None => l
      end
  end.

Definition go_range {K V} `{Countable K} (code : list nat) (m : gmap K V)
  : list (K * V) := shuffle code (map_to_list m).

Module Strings.

(** [strings.Split(s, sep)] for a one-character separator: the fields
    between the occurrences of [sep]; always at least one field. *)
Fixpoint Split (s : string) (sep : Ascii.ascii) : list string :=
  match s with
  | EmptyString => [EmptyString]
  | String c rest =>
      if Ascii.eqb c sep then EmptyString :: Split rest sep
      else match Split rest sep with
           | [] => [String c EmptyString]
           | w :: ws => String c w :: ws
           end
  end.

(** [strings.Join(elems, sep)]. *)
Fixpoint Join (elems : list string) (sep : string) : string :=
  match elems with
  | [] => EmptyString
  | [x] => x
  | x :: rest => x +:+ sep +:+ Join rest sep
  end.

Fixpoint Contains (s : string) (c : Ascii.ascii) : bool :=
  match s with
  | EmptyString => false
  | String c' rest => Ascii.eqb c' c || Contains rest c
  end.

End Strings.

Module Strconv.

(** The error value of [strconv.ParseBool]: [&NumError{Func, Num, Err}]. *)
Record NumError := { Func : string; Num : string; Err : string }.

Definition ParseBool (str : string) : bool + NumError :=
  if bool_decide (str ∈ ["1"; "t"; "T"; "true"; "TRUE"; "True"]) then inl true
  else if bool_decide (str ∈ ["0"; "f"; "F"; "false"; "FALSE"; "False"]) then inl false
  else inr {| Func := "ParseBool"; Num := str; Err := "invalid syntax" |}.

Definition FormatBool (b : bool) : string :=
  if b then "true" else "false".

End Strconv.

(** The value built by [errors.Wrap(cause, message)]. *)
Record wrapped_error := { message : string; cause : Strconv.NumError }.

Definition errors_Wrap (err : Strconv.NumError) (msg : string) : wrapped_error :=
  {| message := msg; cause := err |}.

(** ** Annotation keys *)

Definition resourceQuotaScopeAnnotation := "capsule.clastix.io/resource-quota-scope".

Definition podAllowedImagePullPolicyAnnotation := "capsule.clastix.io/allowed-image-pull-policy".

Definition podPriorityAllowedAnnotation := "priorityclass.capsule.clastix.io/allowed".
Definition podPriorityAllowedRegexAnnotation := "priorityclass.capsule.clastix.io/allowed-regex".

Definition enableNodePortsAnnotation := "capsule.clastix.io/enable-node-ports".
Definition enableExternalNameAnnotation := "capsule.clastix.io/enable-external-name".

Definition ownerGroupsAnnotation := "owners.capsule.clastix.io/group".
Definition ownerUsersAnnotation := "owners.capsule.clastix.io/user".
Definition ownerServiceAccountAnnotation := "owners.capsule.clastix.io/serviceaccount".

Definition enableNodeListingAnnotation := "capsule.clastix.io/enable-node-listing".
Definition enableNodeUpdateAnnotation := "capsule.clastix.io/enable-node-update".
Definition enableNodeDeletionAnnotation := "capsule.clastix.io/enable-node-deletion".
Definition enableStorageClassListingAnnotation := "capsule.clastix.io/enable-storageclass-listing".
Definition enableStorageClassUpdateAnnotation := "capsule.clastix.io/enable-storageclass-update".
Definition enableStorageClassDeletionAnnotation := "capsule.clastix.io/enable-storageclass-deletion".
Definition enableIngressClassListingAnnotation := "capsule.clastix.io/enable-ingressclass-listing".
Definition enableIngressClassUpdateAnnotation := "capsule.clastix.io/enable-ingressclass-update".
Definition enableIngressClassDeletionAnnotation := "capsule.clastix.io/enable-ingressclass-deletion".
Definition enablePriorityClassListingAnnotation := "capsule.clastix.io/enable-priorityclass-listing".
Definition enablePriorityClassUpdateAnnotation := "capsule.clastix.io/enable-priorityclass-update".
Definition enablePriorityClassDeletionAnnotation := "capsule.clastix.io/enable-priorityclass-deletion".

(** ** Kubernetes API values *)

(** Go maps are references: an [ObjectMeta] holds the address of its
    annotation map, [None] being the nil map, and the maps live in a store.
    Copying an [ObjectMeta] copies the address, so both copies share one map. *)
Abbreviation loc := positive (only parsing).
Abbreviation store := (gmap positive (gmap string string)) (only parsing).

(** Values of the Kubernetes API that the conversion only copies (network
    policies, limit ranges, resource quotas, RBAC subjects, label maps). *)
Inductive Opaque := opaque (payload : string).

Module metav1.

Record ObjectMeta := {
  Name : string;
  Labels : Opaque;
  Annotations : option loc;
}.

(** [GetAnnotations]: reading a nil map finds nothing. *)
Definition GetAnnotations (σ : store) (meta : ObjectMeta) : gmap string string :=
  match Annotations meta with
  | Some l => default ∅ (σ !! l)
  | None => ∅
  end.

Definition GetName (meta : ObjectMeta) : string := Name meta.

End metav1.

(** [delete(m, k)]: nothing happens on a nil map. *)
Definition map_delete (m : option loc) (k : string) (σ : store) : store :=
  match m with
  | Some l => alter (delete k) l σ
  | None => σ
  end.

(** [m[k] = v]: assignment to an entry of a nil map panics.  An address
    that the store does not hold reads as the empty map (see
    [metav1.GetAnnotations]) and is written as such. *)
Definition map_assign (m : option loc) (k v : string) (σ : store) : outcome store :=
  match m with
  | Some l => Returned (<[l := <[k := v]> (default ∅ (σ !! l))]> σ)
  | None => Panicked
  end.

(** [make(map[string]string)]. *)
Definition map_make (σ : store) : loc * store :=
  let l := fresh (dom σ) in (l, <[l := ∅]> σ).

(** ** The v1beta1 schema *)

Module capsulev1beta1.

(** Modelled from the spec: the declarations of the enumerated types live in
    [api/v1beta1]; the spec gives owner kinds User, Group and ServiceAccount,
    four proxy service kinds, three proxy operations and the quota scopes
    Namespace and Tenant. *)
Inductive OwnerKind := UserOwner | GroupOwner | ServiceAccountOwner.
Inductive ProxyServiceKind :=
  NodesProxy | StorageClassesProxy | IngressClassesProxy | PriorityClassesProxy.
Inductive ProxyOperation := ListOperation | UpdateOperation | DeleteOperation.
Inductive ResourceQuotaScope := ResourceQuotaScopeTenant | ResourceQuotaScopeNamespace.

(** The conversion [string(scope)]. *)
Definition ResourceQuotaScope_string (s : ResourceQuotaScope) : string :=
  match s with
  | ResourceQuotaScopeTenant => "Tenant"
  | ResourceQuotaScopeNamespace => "Namespace"
  end.

Record ProxySettings := {
  ProxySettings_Kind : ProxyServiceKind;
  Operations : list ProxyOperation;
}.

Record OwnerSpec := {
  OwnerSpec_Kind : OwnerKind;
  OwnerSpec_Name : string;
  ProxyOperations : list ProxySettings;
}.

Definition OwnerListSpec := list OwnerSpec.

Record AdditionalMetadataSpec := {
  AdditionalLabels : Opaque;
  AdditionalAnnotations : Opaque;
}.

Record AllowedListSpec := {
  Exact : list string;
  Regex : string;
}.

Record AllowedServices := {
  NodePort : option bool;
  ExternalName : option bool;
}.

Record ServiceOptions := {
  AdditionalMetadata : option AdditionalMetadataSpec;
  AllowedServices_ : option AllowedServices;
}.

Record NetworkPolicySpec := { NetworkPolicySpec_Items : list Opaque }.
Record LimitRangesSpec := { LimitRangesSpec_Items : list Opaque }.
Record ResourceQuotaSpec := {
  Scope : ResourceQuotaScope;
  ResourceQuotaSpec_Items : list Opaque;
}.

Record AdditionalRoleBindingsSpec := {
  ClusterRoleName : string;
  Subjects : list Opaque;
}.

Record ExternalServiceIPsSpec := { Allowed : list string }.

Record TenantSpec := {
  Owners : OwnerListSpec;
  NamespaceQuota : option Z;
  NodeSelector : Opaque;
  NamespacesMetadata : option AdditionalMetadataSpec;
  ServiceOptions_ : option ServiceOptions;
  StorageClasses : option AllowedListSpec;
  IngressClasses : option AllowedListSpec;
  IngressHostnames : option AllowedListSpec;
  ContainerRegistries : option AllowedListSpec;
  NetworkPolicies : option NetworkPolicySpec;
  LimitRanges : option LimitRangesSpec;
  ResourceQuota : option ResourceQuotaSpec;
  AdditionalRoleBindings : list AdditionalRoleBindingsSpec;
  ExternalServiceIPs : option ExternalServiceIPsSpec;
  ImagePullPolicies : list string;
  PriorityClasses : option AllowedListSpec;
}.

Record TenantStatus := {
  Size : Z;
  Namespaces : list string;
}.

Record Tenant := {
  ObjectMeta : metav1.ObjectMeta;
  Spec : TenantSpec;
  Status : TenantStatus;
}.

End capsulev1beta1.

(** ** The v1alpha1 schema *)

Module v1alpha1.

Record OwnerSpec := {
  OwnerSpec_Name : string;
  OwnerSpec_Kind : capsulev1beta1.OwnerKind;
}.

Record AdditionalMetadataSpec := {
  AdditionalLabels : Opaque;
  AdditionalAnnotations : Opaque;
}.

Record AllowedListSpec := {
  Exact : list string;
  Regex : string;
}.

Record AdditionalRoleBindingsSpec := {
  ClusterRoleName : string;
  Subjects : list Opaque;
}.

Record ExternalServiceIPsSpec := { Allowed : list string }.

Record TenantSpec := {
  Owner : OwnerSpec;
  NamespaceQuota : option Z;
  NodeSelector : Opaque;
  NamespacesMetadata : option AdditionalMetadataSpec;
  ServicesMetadata : option AdditionalMetadataSpec;
  StorageClasses : option AllowedListSpec;
  IngressClasses : option AllowedListSpec;
  IngressHostnames : option AllowedListSpec;
  ContainerRegistries : option AllowedListSpec;
  NetworkPolicies : list Opaque;
  LimitRanges : list Opaque;
  ResourceQuota : list Opaque;
  AdditionalRoleBindings : list AdditionalRoleBindingsSpec;
  ExternalServiceIPs : option ExternalServiceIPsSpec;
}.

Record TenantStatus := {
  Size : Z;
  Namespaces : list string;
}.

Record Tenant := {
  ObjectMeta : metav1.ObjectMeta;
  Spec : TenantSpec;
  Status : TenantStatus;
}.

End v1alpha1.

Import capsulev1beta1.

Global Instance OwnerKind_eq_dec : EqDecision OwnerKind.
Proof. solve_decision. Defined.
Global Instance ProxyOperation_eq_dec : EqDecision ProxyOperation.
Proof. solve_decision. Defined.
Global Instance ProxyServiceKind_eq_dec : EqDecision ProxyServiceKind.
Proof. solve_decision. Defined.
Global Instance ProxyServiceKind_countable : Countable ProxyServiceKind.
Proof.
  refine (inj_countable'
    (λ k, match k with
          | NodesProxy => 0 | StorageClassesProxy => 1
          | IngressClassesProxy => 2 | PriorityClassesProxy => 3
          end)
    (λ n, match n with
          | 0 => NodesProxy | 1 => StorageClassesProxy
          | 2 => IngressClassesProxy | _ => PriorityClassesProxy
          end) _).
  by intros [].
Defined.
Global Instance ProxyOperation_inhabited : Inhabited ProxyOperation :=
  populate ListOperation.

(** ** Iteration orders

    One selection code for each [range] over a map in the source; the loop
    inside [getProxySettingsForOwner] runs once per call, so it has a code per
    call, the call being numbered by the position of the owner entry that is
    being built. *)
Record schedule := {
  rangeServiceKinds : list nat;
  rangeOwnerOperations : nat → list nat;
  rangeOwnerKinds : list nat;
  rangeOwnersAnnotations : list nat;
  rangeProxyAnnotations : list nat;
}.

Definition in_order : schedule :=
  {| rangeServiceKinds := []; rangeOwnerOperations := λ _, [];
     rangeOwnerKinds := []; rangeOwnersAnnotations := [];
     rangeProxyAnnotations := [] |}.

(** ** Upgrade: owners *)

Definition serviceKindToAnnotationMap : gmap ProxyServiceKind (list string) :=
  list_to_map [
    (NodesProxy, [enableNodeListingAnnotation; enableNodeUpdateAnnotation; enableNodeDeletionAnnotation]);
    (StorageClassesProxy, [enableStorageClassListingAnnotation; enableStorageClassUpdateAnnotation; enableStorageClassDeletionAnnotation]);
    (IngressClassesProxy, [enableIngressClassListingAnnotation; enableIngressClassUpdateAnnotation; enableIngressClassDeletionAnnotation]);
    (PriorityClassesProxy, [enablePriorityClassListingAnnotation; enablePriorityClassUpdateAnnotation; enablePriorityClassDeletionAnnotation])
  ].

Definition annotationToOperationMap : gmap string ProxyOperation :=
  list_to_map [
    (enableNodeListingAnnotation, ListOperation);
    (enableNodeUpdateAnnotation, UpdateOperation);
    (enableNodeDeletionAnnotation, DeleteOperation);
    (enableStorageClassListingAnnotation, ListOperation);
    (enableStorageClassUpdateAnnotation, UpdateOperation);
    (enableStorageClassDeletionAnnotation, DeleteOperation);
    (enableIngressClassListingAnnotation, ListOperation);
    (enableIngressClassUpdateAnnotation, UpdateOperation);
    (enableIngressClassDeletionAnnotation, DeleteOperation);
    (enablePriorityClassListingAnnotation, ListOperation);
    (enablePriorityClassUpdateAnnotation, UpdateOperation);
    (enablePriorityClassDeletionAnnotation, DeleteOperation)
  ].

Definition annotationToOwnerKindMap : gmap string OwnerKind :=
  list_to_map [
    (ownerUsersAnnotation, UserOwner);
    (ownerGroupsAnnotation, GroupOwner);
    (ownerServiceAccountAnnotation, ServiceAccountOwner)
  ].

(** The body of the innermost loop: create [operations[owner]] when it does
    not exist, then append the operation of the annotation to
    [operations[owner][serviceKind]]. *)
Definition recordOperation (serviceKind : ProxyServiceKind) (operationAnnotation : string)
    (operations : gmap string (gmap ProxyServiceKind (list ProxyOperation)))
    (owner : string) : gmap string (gmap ProxyServiceKind (list ProxyOperation)) :=
  let operations :=
    match operations !! owner with
    | Some _ => operations
    | None => <[owner := ∅]> operations
    end in
  let ownerOperations : gmap ProxyServiceKind (list ProxyOperation) :=
    default ∅ (operations !! owner) in
  <[owner := <[serviceKind :=
       default [] (ownerOperations !! serviceKind)
         ++ [annotationToOperationMap !!! operationAnnotation]]> ownerOperations]>
    operations.

Definition decodeAnnotation (annotations : gmap string string)
    (serviceKind : ProxyServiceKind)
    (operations : gmap string (gmap ProxyServiceKind (list ProxyOperation)))
    (operationAnnotation : string)
  : gmap string (gmap ProxyServiceKind (list ProxyOperation)) :=
  match annotations !! operationAnnotation with
  | Some val =>
      foldl (recordOperation serviceKind operationAnnotation) operations
        (Strings.Split val ","%char)
  | None => operations
  end.

Definition decodeOperations (sched : schedule) (annotations : gmap string string)
  : gmap string (gmap ProxyServiceKind (list ProxyOperation)) :=
  foldl (λ operations '(serviceKind, operationAnnotations),
           foldl (decodeAnnotation annotations serviceKind) operations operationAnnotations)
    ∅ (go_range (rangeServiceKinds sched) serviceKindToAnnotationMap).

Definition getProxySettingsForOwner (sched : schedule)
    (operations : gmap string (gmap ProxyServiceKind (list ProxyOperation)))
    (call : nat) (ownerName : string) : list ProxySettings :=
  match operations !! ownerName with
  | Some ownerOperations =>
      (λ '(k, v), {| ProxySettings_Kind := k; Operations := v |})
        <$> go_range (rangeOwnerOperations sched call) ownerOperations
  | None => []
  end.

Definition appendOwners (sched : schedule)
    (operations : gmap string (gmap ProxyServiceKind (list ProxyOperation)))
    (ownerKind : OwnerKind) (owners : OwnerListSpec) (owner : string) : OwnerListSpec :=
  owners ++ [ {| OwnerSpec_Kind := ownerKind;
                 OwnerSpec_Name := owner;
                 ProxyOperations :=
                   getProxySettingsForOwner sched operations (length owners) owner |} ].

Definition convertV1Alpha1OwnerToV1Beta1 (sched : schedule) (σ : store)
    (t : v1alpha1.Tenant) : OwnerListSpec :=
  let annotations := metav1.GetAnnotations σ (v1alpha1.ObjectMeta t) in
  let operations := decodeOperations sched annotations in
  let owners : OwnerListSpec :=
    [ {| OwnerSpec_Kind := v1alpha1.OwnerSpec_Kind (v1alpha1.Owner (v1alpha1.Spec t));
         OwnerSpec_Name := v1alpha1.OwnerSpec_Name (v1alpha1.Owner (v1alpha1.Spec t));
         ProxyOperations :=
           getProxySettingsForOwner sched operations 0
             (v1alpha1.OwnerSpec_Name (v1alpha1.Owner (v1alpha1.Spec t))) |} ] in
  foldl (λ owners '(ownerAnnotation, ownerKind),
           match annotations !! ownerAnnotation with
           | Some val =>
               foldl (appendOwners sched operations ownerKind) owners
                 (Strings.Split val ","%char)
           | None => owners
           end)
    owners (go_range (rangeOwnerKinds sched) annotationToOwnerKindMap).

(** ** Upgrade: [ConvertTo] *)

(** The annotations removed from the destination at the end of [ConvertTo],
    in the order of the [delete] statements. *)
Definition consumedAnnotations : list string := [
  podAllowedImagePullPolicyAnnotation;
  podPriorityAllowedAnnotation;
  podPriorityAllowedRegexAnnotation;
  enableNodePortsAnnotation;
  enableExternalNameAnnotation;
  ownerGroupsAnnotation;
  ownerUsersAnnotation;
  ownerServiceAccountAnnotation;
  enableNodeListingAnnotation;
  enableNodeUpdateAnnotation;
  enableNodeDeletionAnnotation;
  enableStorageClassListingAnnotation;
  enableStorageClassUpdateAnnotation;
  enableStorageClassDeletionAnnotation;
  enableIngressClassListingAnnotation;
  enableIngressClassUpdateAnnotation;
  enableIngressClassDeletionAnnotation;
  enablePriorityClassListingAnnotation;
  enablePriorityClassUpdateAnnotation;
  enablePriorityClassDeletionAnnotation;
  resourceQuotaScopeAnnotation
].

Definition convertAllowedList (l : v1alpha1.AllowedListSpec) : AllowedListSpec :=
  {| Exact := v1alpha1.Exact l; Regex := v1alpha1.Regex l |}.

(** The scope closure of [ConvertTo]. *)
Definition resourceQuotaScopeOf (annotations : gmap string string) : ResourceQuotaScope :=
  match annotations !! resourceQuotaScopeAnnotation with
  | Some v =>
      if bool_decide (v = ResourceQuotaScope_string ResourceQuotaScopeNamespace)
      then ResourceQuotaScopeNamespace
      else if bool_decide (v = ResourceQuotaScope_string ResourceQuotaScopeTenant)
      then ResourceQuotaScopeTenant
      else ResourceQuotaScopeTenant
  | None => ResourceQuotaScopeTenant
  end.

(** Allocate [ServiceOptions] and [AllowedServices] when they are nil, then
    assign one field of the latter. *)
Definition withAllowedServices (so : option ServiceOptions)
    (assign : AllowedServices → AllowedServices) : option ServiceOptions :=
  let so := match so with
            | None => {| AdditionalMetadata := None; AllowedServices_ := None |}
            | Some so => so
            end in
  let allowed := match AllowedServices_ so with
                 | None => {| NodePort := None; ExternalName := None |}
                 | Some a => a
                 end in
  Some {| AdditionalMetadata := AdditionalMetadata so;
          AllowedServices_ := Some (assign allowed) |}.

Definition parseErrorMessage (annotation tenant : string) : string :=
  "unable to parse " +:+ annotation +:+ " annotation on tenant " +:+ tenant.

(** [reflect.ValueOf(priorityClasses).IsZero()]; [strings.Split] never
    returns an empty slice, so [Exact] is nil exactly when it is empty here. *)
Definition AllowedListSpec_IsZero (l : AllowedListSpec) : bool :=
  bool_decide (Exact l = []) && bool_decide (Regex l = EmptyString).

(** [ConvertTo] assigns into the destination it is given and returns an
    error or nil: the result is the store, the destination as the call leaves
    it, and the error. *)
Definition ConvertTo (sched : schedule) (t : v1alpha1.Tenant) (dst : Tenant)
    (σ : store) : store * Tenant * option wrapped_error :=
  let annotations := metav1.GetAnnotations σ (v1alpha1.ObjectMeta t) in
  let tSpec := v1alpha1.Spec t in
  let dstSpec := Spec dst in
  (* ObjectMeta *)
  let dst_ObjectMeta := v1alpha1.ObjectMeta t in
  (* Spec *)
  let dst_NamespaceQuota := v1alpha1.NamespaceQuota tSpec in
  let dst_NodeSelector := v1alpha1.NodeSelector tSpec in
  let dst_Owners := convertV1Alpha1OwnerToV1Beta1 sched σ t in
  let dst_NamespacesMetadata :=
    match v1alpha1.NamespacesMetadata tSpec with
    | Some md => Some {| AdditionalLabels := v1alpha1.AdditionalLabels md;
                         AdditionalAnnotations := v1alpha1.AdditionalAnnotations md |}
    | None => NamespacesMetadata dstSpec
    end in
  let dst_ServiceOptions :=
    match v1alpha1.ServicesMetadata tSpec with
    | Some md =>
        match ServiceOptions_ dstSpec with
        | None =>
            Some {| AdditionalMetadata :=
                      Some {| AdditionalLabels := v1alpha1.AdditionalLabels md;
                              AdditionalAnnotations := v1alpha1.AdditionalAnnotations md |};
                    AllowedServices_ := None |}
        | Some so => Some so
        end
    | None => ServiceOptions_ dstSpec
    end in
  let dst_StorageClasses :=
    match v1alpha1.StorageClasses tSpec with
    | Some l => Some (convertAllowedList l) | None => StorageClasses dstSpec
    end in
  let dst_IngressClasses :=
    match v1alpha1.IngressClasses tSpec with
    | Some l => Some (convertAllowedList l) | None => IngressClasses dstSpec
    end in
  let dst_IngressHostnames :=
    match v1alpha1.IngressHostnames tSpec with
    | Some l => Some (convertAllowedList l) | None => IngressHostnames dstSpec
    end in
  let dst_ContainerRegistries :=
    match v1alpha1.ContainerRegistries tSpec with
    | Some l => Some (convertAllowedList l) | None => ContainerRegistries dstSpec
    end in
  let dst_NetworkPolicies :=
    if bool_decide (0 < length (v1alpha1.NetworkPolicies tSpec))
    then Some {| NetworkPolicySpec_Items := v1alpha1.NetworkPolicies tSpec |}
    else NetworkPolicies dstSpec in
  let dst_LimitRanges :=
    if bool_decide (0 < length (v1alpha1.LimitRanges tSpec))
    then Some {| LimitRangesSpec_Items := v1alpha1.LimitRanges tSpec |}
    else LimitRanges dstSpec in
  let dst_ResourceQuota :=
    if bool_decide (0 < length (v1alpha1.ResourceQuota tSpec))
    then Some {| Scope := resourceQuotaScopeOf annotations;
                 ResourceQuotaSpec_Items := v1alpha1.ResourceQuota tSpec |}
    else ResourceQuota dstSpec in
  let dst_AdditionalRoleBindings :=
    if bool_decide (0 < length (v1alpha1.AdditionalRoleBindings tSpec))
    then foldl (λ acc rb, acc ++ [ {| ClusterRoleName := v1alpha1.ClusterRoleName rb;
                                      Subjects := v1alpha1.Subjects rb |} ])
           (AdditionalRoleBindings dstSpec) (v1alpha1.AdditionalRoleBindings tSpec)
    else AdditionalRoleBindings dstSpec in
  let dst_ExternalServiceIPs :=
    match v1alpha1.ExternalServiceIPs tSpec with
    | Some ips => Some {| Allowed := (λ IP, IP) <$> v1alpha1.Allowed ips |}
    | None => ExternalServiceIPs dstSpec
    end in
  let dst_ImagePullPolicies :=
    match annotations !! podAllowedImagePullPolicyAnnotation with
    | Some pullPolicies =>
        foldl (λ acc policy, acc ++ [policy]) (ImagePullPolicies dstSpec)
          (Strings.Split pullPolicies ","%char)
    | None => ImagePullPolicies dstSpec
    end in
  let priorityClasses :=
    {| Exact := match annotations !! podPriorityAllowedAnnotation with
                | Some priorityClassAllowed => Strings.Split priorityClassAllowed ","%char
                | None => []
                end;
       Regex := match annotations !! podPriorityAllowedRegexAnnotation with
                | Some priorityClassesRegexp => priorityClassesRegexp
                | None => EmptyString
                end |} in
  let dst_PriorityClasses :=
    if AllowedListSpec_IsZero priorityClasses then PriorityClasses dstSpec
    else Some priorityClasses in
  let dstWith (serviceOptions : option ServiceOptions) (status : TenantStatus) : Tenant :=
    {| ObjectMeta := dst_ObjectMeta;
       Spec := {| Owners := dst_Owners;
                  NamespaceQuota := dst_NamespaceQuota;
                  NodeSelector := dst_NodeSelector;
                  NamespacesMetadata := dst_NamespacesMetadata;
                  ServiceOptions_ := serviceOptions;
                  StorageClasses := dst_StorageClasses;
                  IngressClasses := dst_IngressClasses;
                  IngressHostnames := dst_IngressHostnames;
                  ContainerRegistries := dst_ContainerRegistries;
                  NetworkPolicies := dst_NetworkPolicies;
                  LimitRanges := dst_LimitRanges;
                  ResourceQuota := dst_ResourceQuota;
                  AdditionalRoleBindings := dst_AdditionalRoleBindings;
                  ExternalServiceIPs := dst_ExternalServiceIPs;
                  ImagePullPolicies := dst_ImagePullPolicies;
                  PriorityClasses := dst_PriorityClasses |};
       Status := status |} in
  let afterNodePorts : option ServiceOptions + wrapped_error :=
    match annotations !! enableNodePortsAnnotation with
    | Some enableNodePorts =>
        match Strconv.ParseBool enableNodePorts with
        | inr err =>
            inr (errors_Wrap err
                   (parseErrorMessage enableNodePortsAnnotation
                      (metav1.GetName (v1alpha1.ObjectMeta t))))
        | inl val =>
            inl (withAllowedServices dst_ServiceOptions
                   (λ a, {| NodePort := Some val; ExternalName := ExternalName a |}))
        end
    | None => inl dst_ServiceOptions
    end in
  match afterNodePorts with
  | inr err => (σ, dstWith dst_ServiceOptions (Status dst), Some err)
  | inl dst_ServiceOptions =>
      let afterExternalName : option ServiceOptions + wrapped_error :=
        match annotations !! enableExternalNameAnnotation with
        | Some enableExternalName =>
            match Strconv.ParseBool enableExternalName with
            | inr err =>
                inr (errors_Wrap err
                       (parseErrorMessage enableExternalNameAnnotation
                          (metav1.GetName (v1alpha1.ObjectMeta t))))
            | inl val =>
                inl (withAllowedServices dst_ServiceOptions
                       (λ a, {| NodePort := NodePort a; ExternalName := Some val |}))
            end
        | None => inl dst_ServiceOptions
        end in
      match afterExternalName with
      | inr err => (σ, dstWith dst_ServiceOptions (Status dst), Some err)
      | inl dst_ServiceOptions =>
          (* Status *)
          let dst_Status := {| Size := v1alpha1.Size (v1alpha1.Status t);
                               Namespaces := v1alpha1.Namespaces (v1alpha1.Status t) |} in
          (* Remove unneeded annotations *)
          let σ := foldl (λ σ k, map_delete (metav1.Annotations dst_ObjectMeta) k σ)
                     σ consumedAnnotations in
          (σ, dstWith dst_ServiceOptions dst_Status, None)
      end
  end.

(** ** Downgrade: owners *)

(** [m[k] = append(m[k], x)]; a missing entry reads as the nil slice. *)
Definition go_append (m : gmap string (list string)) (k x : string)
  : gmap string (list string) :=
  <[k := default [] (m !! k) ++ [x]]> m.

(** The two nested [switch] statements on the service kind and on the
    operation select the annotation that receives the owner name. *)
Definition proxyAnnotationOf (kind : ProxyServiceKind) (operation : ProxyOperation) : string :=
  match kind with
  | NodesProxy =>
      match operation with
      | ListOperation => enableNodeListingAnnotation
      | UpdateOperation => enableNodeUpdateAnnotation
      | DeleteOperation => enableNodeDeletionAnnotation
      end
  | PriorityClassesProxy =>
      match operation with
      | ListOperation => enablePriorityClassListingAnnotation
      | UpdateOperation => enablePriorityClassUpdateAnnotation
      | DeleteOperation => enablePriorityClassDeletionAnnotation
      end
  | StorageClassesProxy =>
      match operation with
      | ListOperation => enableStorageClassListingAnnotation
      | UpdateOperation => enableStorageClassUpdateAnnotation
      | DeleteOperation => enableStorageClassDeletionAnnotation
      end
  | IngressClassesProxy =>
      match operation with
      | ListOperation => enableIngressClassListingAnnotation
      | UpdateOperation => enableIngressClassUpdateAnnotation
      | DeleteOperation => enableIngressClassDeletionAnnotation
      end
  end.

Definition ownerAnnotationOf (kind : OwnerKind) : string :=
  match kind with
  | UserOwner => ownerUsersAnnotation
  | GroupOwner => ownerGroupsAnnotation
  | ServiceAccountOwner => ownerServiceAccountAnnotation
  end.

Definition initialOwnersAnnotations : gmap string (list string) :=
  list_to_map [
    (ownerGroupsAnnotation, []);
    (ownerUsersAnnotation, []);
    (ownerServiceAccountAnnotation, [])
  ].

Definition initialProxyAnnotations : gmap string (list string) :=
  list_to_map [
    (enableNodeListingAnnotation, []);
    (enableNodeUpdateAnnotation, []);
    (enableNodeDeletionAnnotation, []);
    (enableStorageClassListingAnnotation, []);
    (enableStorageClassUpdateAnnotation, []);
    (enableStorageClassDeletionAnnotation, []);
    (enableIngressClassListingAnnotation, []);
    (enableIngressClassUpdateAnnotation, []);
    (enableIngressClassDeletionAnnotation, [])
  ].

(** What the loop over the owners carries: [t.Spec.Owner] and the two local
    maps. *)
Record ownersLoop := {
  loop_Owner : v1alpha1.OwnerSpec;
  ownersAnnotations : gmap string (list string);
  proxyAnnotations : gmap string (list string);
}.

Definition recordSetting (ownerName : string) (proxyAnnotations : gmap string (list string))
    (setting : ProxySettings) : gmap string (list string) :=
  foldl (λ proxyAnnotations operation,
           go_append proxyAnnotations
             (proxyAnnotationOf (ProxySettings_Kind setting) operation) ownerName)
    proxyAnnotations (Operations setting).

(** One iteration of [for i, owner := range src.Spec.Owners]. *)
Definition ownersLoopBody (i : nat) (owner : OwnerSpec) (st : ownersLoop) : ownersLoop :=
  let st :=
    if bool_decide (i = 0) then
      {| loop_Owner := {| v1alpha1.OwnerSpec_Name := OwnerSpec_Name owner;
                          v1alpha1.OwnerSpec_Kind := OwnerSpec_Kind owner |};
         ownersAnnotations := ownersAnnotations st;
         proxyAnnotations := proxyAnnotations st |}
    else
      {| loop_Owner := loop_Owner st;
         ownersAnnotations :=
           go_append (ownersAnnotations st) (ownerAnnotationOf (OwnerSpec_Kind owner))
             (OwnerSpec_Name owner);
         proxyAnnotations := proxyAnnotations st |} in
  {| loop_Owner := loop_Owner st;
     ownersAnnotations := ownersAnnotations st;
     proxyAnnotations :=
       foldl (recordSetting (OwnerSpec_Name owner)) (proxyAnnotations st)
         (ProxyOperations owner) |}.

Fixpoint rangeOwners (i : nat) (owners : list OwnerSpec) (st : ownersLoop) : ownersLoop :=
  match owners with
  | [] => st
  | owner :: owners => rangeOwners (S i) owners (ownersLoopBody i owner st)
  end.

(** [for k, v := range m { if len(v) > 0 { t.Annotations[k] = Join(v, ",") } }] *)
Definition writeAnnotations (annotationsRef : option loc)
    (entries : list (string * list string)) (σ : store) : outcome store :=
  foldl (λ acc '(k, v),
           σ ← acc ;;;
           if bool_decide (0 < length v)
           then map_assign annotationsRef k (Strings.Join v ",") σ
           else Returned σ)
    (Returned σ) entries.

Definition set_Owner (owner : v1alpha1.OwnerSpec) (t : v1alpha1.Tenant) : v1alpha1.Tenant :=
  let s := v1alpha1.Spec t in
  {| v1alpha1.ObjectMeta := v1alpha1.ObjectMeta t;
     v1alpha1.Spec :=
       {| v1alpha1.Owner := owner;
          v1alpha1.NamespaceQuota := v1alpha1.NamespaceQuota s;
          v1alpha1.NodeSelector := v1alpha1.NodeSelector s;
          v1alpha1.NamespacesMetadata := v1alpha1.NamespacesMetadata s;
          v1alpha1.ServicesMetadata := v1alpha1.ServicesMetadata s;
          v1alpha1.StorageClasses := v1alpha1.StorageClasses s;
          v1alpha1.IngressClasses := v1alpha1.IngressClasses s;
          v1alpha1.IngressHostnames := v1alpha1.IngressHostnames s;
          v1alpha1.ContainerRegistries := v1alpha1.ContainerRegistries s;
          v1alpha1.NetworkPolicies := v1alpha1.NetworkPolicies s;
          v1alpha1.LimitRanges := v1alpha1.LimitRanges s;
          v1alpha1.ResourceQuota := v1alpha1.ResourceQuota s;
          v1alpha1.AdditionalRoleBindings := v1alpha1.AdditionalRoleBindings s;
          v1alpha1.ExternalServiceIPs := v1alpha1.ExternalServiceIPs s |};
     v1alpha1.Status := v1alpha1.Status t |}.

Definition convertV1Beta1OwnerToV1Alpha1 (sched : schedule) (t : v1alpha1.Tenant)
    (src : Tenant) (σ : store) : outcome (store * v1alpha1.Tenant) :=
  let st := rangeOwners 0 (Owners (Spec src))
              {| loop_Owner := v1alpha1.Owner (v1alpha1.Spec t);
                 ownersAnnotations := initialOwnersAnnotations;
                 proxyAnnotations := initialProxyAnnotations |} in
  let t := set_Owner (loop_Owner st) t in
  let annotationsRef := metav1.Annotations (v1alpha1.ObjectMeta t) in
  σ ← writeAnnotations annotationsRef
        (go_range (rangeOwnersAnnotations sched) (ownersAnnotations st)) σ ;;;
  σ ← writeAnnotations annotationsRef
        (go_range (rangeProxyAnnotations sched) (proxyAnnotations st)) σ ;;;
  Returned (σ, t).

(** ** Downgrade: [ConvertFrom] *)

(** [*p]: dereferencing a nil pointer panics. *)
Definition deref {A} (p : option A) : outcome A :=
  match p with
  | Some a => Returned a
  | None => Panicked
  end.

Definition convertAllowedListBack (l : AllowedListSpec) : v1alpha1.AllowedListSpec :=
  {| v1alpha1.Exact := Exact l; v1alpha1.Regex := Regex l |}.

(** [ConvertFrom] assigns into its receiver [t]; when it returns, the error is
    nil. *)
Definition ConvertFrom (sched : schedule) (t : v1alpha1.Tenant) (src : Tenant)
    (σ : store) : outcome (store * v1alpha1.Tenant * option wrapped_error) :=
  let srcSpec := Spec src in
  let tSpec := v1alpha1.Spec t in
  (* ObjectMeta *)
  let t_ObjectMeta := ObjectMeta src in
  (* Spec *)
  let t_NamespaceQuota := NamespaceQuota srcSpec in
  let t_NodeSelector := NodeSelector srcSpec in
  let '(t_ObjectMeta, σ) :=
    match metav1.Annotations t_ObjectMeta with
    | None =>
        let '(l, σ) := map_make σ in
        ({| metav1.Name := metav1.Name t_ObjectMeta;
            metav1.Labels := metav1.Labels t_ObjectMeta;
            metav1.Annotations := Some l |}, σ)
    | Some _ => (t_ObjectMeta, σ)
    end in
  let t_Annotations := metav1.Annotations t_ObjectMeta in
  '(σ, t') ← convertV1Beta1OwnerToV1Alpha1 sched
      {| v1alpha1.ObjectMeta := t_ObjectMeta;
         v1alpha1.Spec := tSpec;
         v1alpha1.Status := v1alpha1.Status t |} src σ ;;;
  let t_Owner := v1alpha1.Owner (v1alpha1.Spec t') in
  let t_NamespacesMetadata :=
    match NamespacesMetadata srcSpec with
    | Some md => Some {| v1alpha1.AdditionalLabels := AdditionalLabels md;
                         v1alpha1.AdditionalAnnotations := AdditionalAnnotations md |}
    | None => v1alpha1.NamespacesMetadata tSpec
    end in
  let t_ServicesMetadata :=
    match ServiceOptions_ srcSpec ≫= AdditionalMetadata with
    | Some md => Some {| v1alpha1.AdditionalLabels := AdditionalLabels md;
                         v1alpha1.AdditionalAnnotations := AdditionalAnnotations md |}
    | None => v1alpha1.ServicesMetadata tSpec
    end in
  let t_StorageClasses :=
    match StorageClasses srcSpec with
    | Some l => Some (convertAllowedListBack l) | None => v1alpha1.StorageClasses tSpec
    end in
  let t_IngressClasses :=
    match IngressClasses srcSpec with
    | Some l => Some (convertAllowedListBack l) | None => v1alpha1.IngressClasses tSpec
    end in
  let t_IngressHostnames :=
    match IngressHostnames srcSpec with
    | Some l => Some (convertAllowedListBack l) | None => v1alpha1.IngressHostnames tSpec
    end in
  let t_ContainerRegistries :=
    match ContainerRegistries srcSpec with
    | Some l => Some (convertAllowedListBack l) | None => v1alpha1.ContainerRegistries tSpec
    end in
  let t_NetworkPolicies :=
    match NetworkPolicies srcSpec with
    | Some np => NetworkPolicySpec_Items np | None => v1alpha1.NetworkPolicies tSpec
    end in
  let t_LimitRanges :=
    match LimitRanges srcSpec with
    | Some lr => LimitRangesSpec_Items lr | None => v1alpha1.LimitRanges tSpec
    end in
  '(σ, t_ResourceQuota) ←
    match ResourceQuota srcSpec with
    | Some rq =>
        σ ← map_assign t_Annotations resourceQuotaScopeAnnotation
              (ResourceQuotaScope_string (Scope rq)) σ ;;;
        Returned (σ, ResourceQuotaSpec_Items rq)
    | None => Returned (σ, v1alpha1.ResourceQuota tSpec)
    end ;;;
  let t_AdditionalRoleBindings :=
    if bool_decide (0 < length (AdditionalRoleBindings srcSpec))
    then foldl (λ acc rb, acc ++ [ {| v1alpha1.ClusterRoleName := ClusterRoleName rb;
                                      v1alpha1.Subjects := Subjects rb |} ])
           (v1alpha1.AdditionalRoleBindings tSpec) (AdditionalRoleBindings srcSpec)
    else v1alpha1.AdditionalRoleBindings tSpec in
  let t_ExternalServiceIPs :=
    match ExternalServiceIPs srcSpec with
    | Some ips => Some {| v1alpha1.Allowed := (λ IP, IP) <$> Allowed ips |}
    | None => v1alpha1.ExternalServiceIPs tSpec
    end in
  σ ← (if bool_decide (length (ImagePullPolicies srcSpec) ≠ 0)
       then
         let pullPolicies := foldl (λ acc policy, acc ++ [policy]) [] (ImagePullPolicies srcSpec) in
         map_assign t_Annotations podAllowedImagePullPolicyAnnotation
           (Strings.Join pullPolicies ",") σ
       else Returned σ) ;;;
  σ ← match PriorityClasses srcSpec with
      | Some pc =>
          σ ← (if bool_decide (length (Exact pc) ≠ 0)
               then map_assign t_Annotations podPriorityAllowedAnnotation
                      (Strings.Join (Exact pc) ",") σ
               else Returned σ) ;;;
          if bool_decide (Regex pc ≠ EmptyString)
          then map_assign t_Annotations podPriorityAllowedRegexAnnotation (Regex pc) σ
          else Returned σ
      | None => Returned σ
      end ;;;
  σ ← match ServiceOptions_ srcSpec ≫= AllowedServices_ with
      | Some allowed =>
          nodePort ← deref (NodePort allowed) ;;;
          σ ← map_assign t_Annotations enableNodePortsAnnotation
                (Strconv.FormatBool nodePort) σ ;;;
          externalName ← deref (ExternalName allowed) ;;;
          map_assign t_Annotations enableExternalNameAnnotation
            (Strconv.FormatBool externalName) σ
      | None => Returned σ
      end ;;;
  (* Status *)
  let t_Status := {| v1alpha1.Size := Size (Status src);
                     v1alpha1.Namespaces := Namespaces (Status src) |} in
  Returned
    (σ,
     {| v1alpha1.ObjectMeta := t_ObjectMeta;
        v1alpha1.Spec :=
          {| v1alpha1.Owner := t_Owner;
             v1alpha1.NamespaceQuota := t_NamespaceQuota;
             v1alpha1.NodeSelector := t_NodeSelector;
             v1alpha1.NamespacesMetadata := t_NamespacesMetadata;
             v1alpha1.ServicesMetadata := t_ServicesMetadata;
             v1alpha1.StorageClasses := t_StorageClasses;
             v1alpha1.IngressClasses := t_IngressClasses;
             v1alpha1.IngressHostnames := t_IngressHostnames;
             v1alpha1.ContainerRegistries := t_ContainerRegistries;
             v1alpha1.NetworkPolicies := t_NetworkPolicies;
             v1alpha1.LimitRanges := t_LimitRanges;
             v1alpha1.ResourceQuota := t_ResourceQuota;
             v1alpha1.AdditionalRoleBindings := t_AdditionalRoleBindings;
             v1alpha1.ExternalServiceIPs := t_ExternalServiceIPs |};
        v1alpha1.Status := t_Status |},
     None).

(** ** Sample values *)

Definition zeroObjectMeta : metav1.ObjectMeta :=
  {| metav1.Name := EmptyString; metav1.Labels := opaque EmptyString; metav1.Annotations := None |}.

(** The zero value of the v1beta1 [Tenant], with the given owners and service
    options. *)
Definition sampleTenant (owners : OwnerListSpec) (serviceOptions : option ServiceOptions)
  : Tenant :=
  {| ObjectMeta := zeroObjectMeta;
     Spec := {| Owners := owners; NamespaceQuota := None; NodeSelector := opaque EmptyString;
                NamespacesMetadata := None; ServiceOptions_ := serviceOptions;
                StorageClasses := None; IngressClasses := None;
                IngressHostnames := None; ContainerRegistries := None;
                NetworkPolicies := None; LimitRanges := None; ResourceQuota := None;
                AdditionalRoleBindings := []; ExternalServiceIPs := None;
                ImagePullPolicies := []; PriorityClasses := None |};
     Status := {| Size := 0; Namespaces := [] |} |}.

Definition zeroTenant : Tenant := sampleTenant [] None.

(** A v1alpha1 [Tenant] named [name] owned by the user [owner], whose
    annotation map is stored at [ref]. *)
Definition sampleLegacy (name owner : string) (ref : option loc) : v1alpha1.Tenant :=
  {| v1alpha1.ObjectMeta :=
       {| metav1.Name := name; metav1.Labels := opaque EmptyString; metav1.Annotations := ref |};
     v1alpha1.Spec :=
       {| v1alpha1.Owner := {| v1alpha1.OwnerSpec_Name := owner;
                               v1alpha1.OwnerSpec_Kind := UserOwner |};
          v1alpha1.NamespaceQuota := None; v1alpha1.NodeSelector := opaque EmptyString;
          v1alpha1.NamespacesMetadata := None; v1alpha1.ServicesMetadata := None;
          v1alpha1.StorageClasses := None; v1alpha1.IngressClasses := None;
          v1alpha1.IngressHostnames := None; v1alpha1.ContainerRegistries := None;
          v1alpha1.NetworkPolicies := []; v1alpha1.LimitRanges := [];
          v1alpha1.ResourceQuota := []; v1alpha1.AdditionalRoleBindings := [];
          v1alpha1.ExternalServiceIPs := None |};
     v1alpha1.Status := {| v1alpha1.Size := 0; v1alpha1.Namespaces := [] |} |}.

Definition zeroLegacy : v1alpha1.Tenant := sampleLegacy EmptyString EmptyString None.

(** A store holding one annotation map at address 1. *)
Definition sampleStore (annotations : list (string * string)) : store :=
  {[ 1%positive := list_to_map annotations ]}.

(** ** Vocabulary of the properties *)

Definition allServiceKinds : list ProxyServiceKind :=
  [NodesProxy; StorageClassesProxy; IngressClassesProxy; PriorityClassesProxy].

Definition allOperations : list ProxyOperation :=
  [ListOperation; UpdateOperation; DeleteOperation].

(** The twelve permission annotations, one per service kind and operation. *)
Definition permissionAnnotations : list string :=
  kind ← allServiceKinds; proxyAnnotationOf kind <$> allOperations.

Definition ownerKindAnnotations : list string :=
  ownerAnnotationOf <$> [GroupOwner; UserOwner; ServiceAccountOwner].

(** The annotations an upgrade reads, by group: permissions, pull policy,
    priority classes, booleans, scope, owner kinds. *)
Definition annotationsReadByUpgrade : list string :=
  permissionAnnotations
    ++ [podAllowedImagePullPolicyAnnotation]
    ++ [podPriorityAllowedAnnotation; podPriorityAllowedRegexAnnotation]
    ++ [enableNodePortsAnnotation; enableExternalNameAnnotation]
    ++ [resourceQuotaScopeAnnotation]
    ++ ownerKindAnnotations.

(** The annotation is absent or holds a boolean literal. *)
Definition parsesIfPresent (annotations : gmap string string) (key : string) : bool :=
  match annotations !! key with
  | Some v => match Strconv.ParseBool v with inl _ => true | inr _ => false end
  | None => true
  end.

(** [dst.Spec.ServiceOptions.AllowedServices.NodePort], when the two
    pointers on the way are set, and likewise for [ExternalName]. *)
Definition allowedNodePort (dst : Tenant) : option bool :=
  so ← ServiceOptions_ (Spec dst); allowed ← AllowedServices_ so; NodePort allowed.

Definition allowedExternalName (dst : Tenant) : option bool :=
  so ← ServiceOptions_ (Spec dst); allowed ← AllowedServices_ so; ExternalName allowed.

(** The owner names that a downgrade collects for a permission: one
    occurrence of the owner's name for each occurrence of the operation in a
    setting of that service kind, the owners in list order. *)
Definition holders (kind : ProxyServiceKind) (operation : ProxyOperation)
    (owners : list OwnerSpec) : list string :=
  owner ← owners; setting ← ProxyOperations owner; operation' ← Operations setting;
  if bool_decide (ProxySettings_Kind setting = kind ∧ operation' = operation)
  then [OwnerSpec_Name owner] else [].

(** The same, by annotation key. *)
Definition holdersAt (key : string) (owners : list OwnerSpec) : list string :=
  owner ← owners; setting ← ProxyOperations owner; operation ← Operations setting;
  if bool_decide (proxyAnnotationOf (ProxySettings_Kind setting) operation = key)
  then [OwnerSpec_Name owner] else [].

(** The names of the owners of a kind, in list order. *)
Definition ownersOfKind (kind : OwnerKind) (owners : list OwnerSpec) : list string :=
  OwnerSpec_Name <$> filter (λ owner, OwnerSpec_Kind owner = kind) owners.

Definition ownersAt (key : string) (owners : list OwnerSpec) : list string :=
  OwnerSpec_Name <$> filter (λ owner, ownerAnnotationOf (OwnerSpec_Kind owner) = key) owners.

(** The permission pairs an owner entry holds. *)
Definition hasPermission (owner : OwnerSpec) (kind : ProxyServiceKind)
    (operation : ProxyOperation) : Prop :=
  ∃ setting, setting ∈ ProxyOperations owner
             ∧ ProxySettings_Kind setting = kind ∧ operation ∈ Operations setting.

(** The downgrade dereferences a nil pointer: [AllowedServices] is set and
    one of its two booleans is not. *)
Definition derefsNil (src : Tenant) : bool :=
  match ServiceOptions_ (Spec src) ≫= AllowedServices_ with
  | Some allowed =>
      bool_decide (NodePort allowed = None) || bool_decide (ExternalName allowed = None)
  | None => false
  end.

(** The annotations [ConvertFrom] writes after those of the owners: scope,
    pull policies, priority classes and, when both are set, the two
    booleans. *)
Definition fieldAnnotations (src : Tenant) (a : gmap string string) : gmap string string :=
  let a := match ResourceQuota (Spec src) with
           | Some rq => <[resourceQuotaScopeAnnotation := ResourceQuotaScope_string (Scope rq)]> a
           | None => a
           end in
  let a := match ImagePullPolicies (Spec src) with
           | [] => a
           | policies => <[podAllowedImagePullPolicyAnnotation := Strings.Join policies ","]> a
           end in
  let a := match PriorityClasses (Spec src) with
           | Some pc =>
               let a := match Exact pc with
                        | [] => a
                        | exact => <[podPriorityAllowedAnnotation := Strings.Join exact ","]> a
                        end in
               if bool_decide (Regex pc = EmptyString) then a
               else <[podPriorityAllowedRegexAnnotation := Regex pc]> a
           | None => a
           end in
  match ServiceOptions_ (Spec src) ≫= AllowedServices_ with
  | Some {| NodePort := Some nodePort; ExternalName := Some externalName |} =>
      <[enableExternalNameAnnotation := Strconv.FormatBool externalName]>
        (<[enableNodePortsAnnotation := Strconv.FormatBool nodePort]> a)
  | _ => a
  end.

(** Sample owners: alice may list nodes and update storage classes, the
    groups b and a may list nodes. *)
Definition sampleOwners : OwnerListSpec := [
  {| OwnerSpec_Kind := UserOwner; OwnerSpec_Name := "alice";
     ProxyOperations :=
       [ {| ProxySettings_Kind := NodesProxy; Operations := [ListOperation] |};
         {| ProxySettings_Kind := StorageClassesProxy; Operations := [UpdateOperation] |} ] |};
  {| OwnerSpec_Kind := GroupOwner; OwnerSpec_Name := "b";
     ProxyOperations :=
       [ {| ProxySettings_Kind := NodesProxy; Operations := [ListOperation] |} ] |};
  {| OwnerSpec_Kind := GroupOwner; OwnerSpec_Name := "a";
     ProxyOperations :=
       [ {| ProxySettings_Kind := NodesProxy; Operations := [ListOperation] |} ] |}
].

(** [AllowedServices] with [NodePort] set and [ExternalName] left nil, as
    an upgrade builds it from the node-ports annotation alone. *)
Definition nodePortOnly : option ServiceOptions :=
  Some {| AdditionalMetadata := None;
          AllowedServices_ := Some {| NodePort := Some true; ExternalName := None |} |}.

(** What the decoded table [operations] grants a name for a service kind. *)
Definition granted (operations : gmap string (gmap ProxyServiceKind (list ProxyOperation)))
    (name : string) (kind : ProxyServiceKind) : list ProxyOperation :=
  default [] (operations !! name ≫= (.!! kind)).

(** What the annotations grant a name for a service kind: in the order
    List, Update, Delete, one occurrence of the operation for each occurrence
    of the name in the comma list of the operation's annotation. *)
Definition decoded (annotations : gmap string string) (name : string)
    (kind : ProxyServiceKind) : list ProxyOperation :=
  operation ← allOperations;
  match annotations !! proxyAnnotationOf kind operation with
  | Some val =>
      owner ← Strings.Split val ","%char;
      if bool_decide (owner = name) then [operation] else []
  | None => []
  end.

(** The settings of an owner entry as a table from service kind to
    operations. *)
Definition settingsTable (settings : list ProxySettings)
  : gmap ProxyServiceKind (list ProxyOperation) :=
  list_to_map ((λ s, (ProxySettings_Kind s, Operations s)) <$> settings).

(** What one annotation contributes to a name. *)
Definition grantOf (annotations : gmap string string) (name : string) (a : string)
  : list ProxyOperation :=
  match annotations !! a with
  | Some val =>
      owner ← Strings.Split val ","%char;
      if bool_decide (owner = name) then [annotationToOperationMap !!! a] else []
  | None => []
  end.

(** The kind and name of the owner entries appended for one owner-kind
    annotation. *)
Definition appendedFor (annotations : gmap string string)
    (entry : string * OwnerKind) : list (OwnerKind * string) :=
  match annotations !! entry.1 with
  | Some val => (λ owner, (entry.2, owner)) <$> Strings.Split val ","%char
  | None => []
  end.

Definition kindAndName (owner : OwnerSpec) : OwnerKind * string :=
  (OwnerSpec_Kind owner, OwnerSpec_Name owner).

(** The primary owner of the upgraded list. *)
Definition primaryOwner (sched : schedule) (σ : store) (t : v1alpha1.Tenant) : OwnerSpec :=
  {| OwnerSpec_Kind := v1alpha1.OwnerSpec_Kind (v1alpha1.Owner (v1alpha1.Spec t));
     OwnerSpec_Name := v1alpha1.OwnerSpec_Name (v1alpha1.Owner (v1alpha1.Spec t));
     ProxyOperations :=
       getProxySettingsForOwner sched
         (decodeOperations sched (metav1.GetAnnotations σ (v1alpha1.ObjectMeta t))) 0
         (v1alpha1.OwnerSpec_Name (v1alpha1.Owner (v1alpha1.Spec t))) |}.

(** The number of occurrences of [x] in [l]. *)
Definition occurrences {A} `{EqDecision A} (x : A) (l : list A) : nat :=
  length (filter (λ y, y = x) l).

(** A legacy tenant owned by the user alice, with the group owners alice
    and teamA; the permission annotations name alice (twice for node
    listing) and bob, who is no owner. *)
Definition sampleUpgradeStore : store :=
  sampleStore [
    (ownerGroupsAnnotation, "alice,teamA");
    (enableNodeListingAnnotation, "alice,bob,alice");
    (enableStorageClassUpdateAnnotation, "alice")
  ].

Definition sampleUpgradeLegacy : v1alpha1.Tenant :=
  sampleLegacy "oil" "alice" (Some 1%positive).

(** An iteration order in which the first call of
    [getProxySettingsForOwner] visits the service kinds in another order than
    the later ones. *)
Definition reordered : schedule :=
  {| rangeServiceKinds := [2; 1];
     rangeOwnerOperations := λ call, match call with 0 => [1] | _ => [] end;
     rangeOwnerKinds := [2];
     rangeOwnersAnnotations := [1];
     rangeProxyAnnotations := [3; 0; 2] |}.

Definition aliceSettings : list ProxySettings := [
  {| ProxySettings_Kind := StorageClassesProxy; Operations := [UpdateOperation] |};
  {| ProxySettings_Kind := NodesProxy; Operations := [ListOperation; ListOperation] |}
].

(** Owners for the round trip: the user a may list nodes; the group a, which
    shares its name, has no permission. *)
Definition clashingOwners : OwnerListSpec := [
  {| OwnerSpec_Kind := UserOwner; OwnerSpec_Name := "a";
     ProxyOperations :=
       [ {| ProxySettings_Kind := NodesProxy; Operations := [ListOperation] |} ] |};
  {| OwnerSpec_Kind := GroupOwner; OwnerSpec_Name := "a"; ProxyOperations := [] |}
].

(** Owners for the round trip: the name of the second has a comma. *)
Definition commaOwners : OwnerListSpec := [
  {| OwnerSpec_Kind := UserOwner; OwnerSpec_Name := "alice"; ProxyOperations := [] |};
  {| OwnerSpec_Kind := GroupOwner; OwnerSpec_Name := "dev,ops";
     ProxyOperations :=
       [ {| ProxySettings_Kind := NodesProxy; Operations := [ListOperation] |} ] |}
].

(** A legacy receiver whose annotation map, at address 1, is empty. *)
Definition emptyLegacy : v1alpha1.Tenant := sampleLegacy EmptyString EmptyString (Some 1%positive).

(** A receiver whose metadata already has a node-update annotation naming
    the group b. *)
Definition staleStore : store := sampleStore [(enableNodeUpdateAnnotation, "b")].

(** The [ServiceOptions] of the destination before the booleans are
    stored. *)
Definition serviceOptionsBeforeBooleans (t : v1alpha1.Tenant) (dst : Tenant)
  : option ServiceOptions :=
  match v1alpha1.ServicesMetadata (v1alpha1.Spec t) with
  | Some md =>
      match ServiceOptions_ (Spec dst) with
      | None =>
          Some {| AdditionalMetadata :=
                    Some {| AdditionalLabels := v1alpha1.AdditionalLabels md;
                            AdditionalAnnotations := v1alpha1.AdditionalAnnotations md |};
                  AllowedServices_ := None |}
      | Some so => Some so
      end
  | None => ServiceOptions_ (Spec dst)
  end.

(** A legacy tenant with a foreign annotation beside the consumed ones. *)
Definition labelledStore : store :=
  sampleStore [
    ("example.com/team", "core");
    (enableNodePortsAnnotation, "true");
    (ownerGroupsAnnotation, "teamA")
  ].

(** A destination that already holds a status. *)
Definition usedTenant : Tenant :=
  {| ObjectMeta := zeroObjectMeta;
     Spec := Spec zeroTenant;
     Status := {| Size := 3; Namespaces := ["oil-dev"; "oil-prod"; "oil-test"] |} |}.

(** A tenant with every optional part of its specification set, whose
    annotation map holds one foreign annotation. *)
Definition richTenant : Tenant :=
  {| ObjectMeta := {| metav1.Name := "oil"; metav1.Labels := opaque "tier=gold";
                      metav1.Annotations := Some 1%positive |};
     Spec := {| Owners := sampleOwners; NamespaceQuota := Some 3%Z;
                NodeSelector := opaque "pool=oil";
                NamespacesMetadata :=
                  Some {| AdditionalLabels := opaque "l1"; AdditionalAnnotations := opaque "a1" |};
                ServiceOptions_ :=
                  Some {| AdditionalMetadata :=
                            Some {| AdditionalLabels := opaque "l2";
                                    AdditionalAnnotations := opaque "a2" |};
                          AllowedServices_ :=
                            Some {| NodePort := Some false; ExternalName := Some true |} |};
                StorageClasses := Some {| Exact := ["fast"; "slow"]; Regex := "^gold-.*$" |};
                IngressClasses := Some {| Exact := ["nginx"]; Regex := EmptyString |};
                IngressHostnames := Some {| Exact := []; Regex := "^.*\.oil\.io$" |};
                ContainerRegistries := None;
                NetworkPolicies := Some {| NetworkPolicySpec_Items := [opaque "deny-all"] |};
                LimitRanges := Some {| LimitRangesSpec_Items := [] |};
                ResourceQuota :=
                  Some {| Scope := ResourceQuotaScopeNamespace;
                          ResourceQuotaSpec_Items := [opaque "cpu=8"] |};
                AdditionalRoleBindings :=
                  [ {| ClusterRoleName := "view"; Subjects := [opaque "joe"] |} ];
                ExternalServiceIPs := Some {| Allowed := ["10.0.0.0/8"] |};
                ImagePullPolicies := ["Always"; "IfNotPresent"];
                PriorityClasses := Some {| Exact := ["high"; "low"]; Regex := "^prio-.*$" |} |};
     Status := {| Size := 2; Namespaces := ["oil-dev"; "oil-prod"] |} |}.

Definition richStore : store := sampleStore [("example.com/team", "core")].

(** A legacy tenant with resource quotas whose annotations hold boolean
    literals other than true and false, a scope that is no scope, two groups
    and a foreign annotation. *)
Definition richLegacy : v1alpha1.Tenant :=
  {| v1alpha1.ObjectMeta := v1alpha1.ObjectMeta sampleUpgradeLegacy;
     v1alpha1.Spec :=
       {| v1alpha1.Owner := {| v1alpha1.OwnerSpec_Name := "alice";
                               v1alpha1.OwnerSpec_Kind := UserOwner |};
          v1alpha1.NamespaceQuota := Some 3%Z; v1alpha1.NodeSelector := opaque "pool=oil";
          v1alpha1.NamespacesMetadata := None; v1alpha1.ServicesMetadata := None;
          v1alpha1.StorageClasses := None; v1alpha1.IngressClasses := None;
          v1alpha1.IngressHostnames := None; v1alpha1.ContainerRegistries := None;
          v1alpha1.NetworkPolicies := []; v1alpha1.LimitRanges := [];
          v1alpha1.ResourceQuota := [opaque "cpu=8"];
          v1alpha1.AdditionalRoleBindings := [];
          v1alpha1.ExternalServiceIPs := None |};
     v1alpha1.Status := {| v1alpha1.Size := 0; v1alpha1.Namespaces := [] |} |}.

Definition richLegacyStore : store :=
  sampleStore [
    ("example.com/team", "core");
    (ownerGroupsAnnotation, "b,a");
    (enableNodeListingAnnotation, "alice,b");
    (enableNodePortsAnnotation, "1");
    (enableExternalNameAnnotation, "F");
    (resourceQuotaScopeAnnotation, "Cluster")
  ].

(** * Properties *)

(** ** Iteration orders *)

Lemma shuffle_Permutation {A} (code : list nat) (l : list A) :
  shuffle code l ≡ₚ l.
Proof.
  revert l. induction code as [|i code IH]; intros l; simpl; [done|].
  destruct (l !! i) as [x|] eqn:Hi; [|done].
  rewrite IH. symmetry. by apply delete_Permutation.
Qed.

Lemma shuffle_complete {A} (l l' : list A) :
  l ≡ₚ l' → ∃ code, shuffle code l = l'.
Proof.
  revert l. induction l' as [|x l' IH]; intros l Hp.
  - exists []. simpl. by apply Permutation_nil_r.
  - assert (x ∈ l) as Hx by (rewrite Hp; left).
    apply list_elem_of_lookup in Hx as [i Hi].
    destruct (IH (delete i l)) as [code Hcode].
    { apply (Permutation_cons_inv (a := x)).
      by rewrite <- delete_Permutation. }
    exists (i :: code). simpl. by rewrite Hi, Hcode.
Qed.

Lemma go_range_Permutation {K V} `{Countable K} (code : list nat) (m : gmap K V) :
  go_range code m ≡ₚ map_to_list m.
Proof. apply shuffle_Permutation. Qed.

Lemma go_range_NoDup_keys {K V} `{Countable K} (code : list nat) (m : gmap K V) :
  NoDup (go_range code m).*1.
Proof. rewrite go_range_Permutation. apply NoDup_fst_map_to_list. Qed.

Lemma go_range_elem_of {K V} `{Countable K} (code : list nat) (m : gmap K V) k v :
  (k, v) ∈ go_range code m ↔ m !! k = Some v.
Proof. rewrite go_range_Permutation. apply elem_of_map_to_list. Qed.

Lemma go_range_to_map {K V} `{Countable K} (code : list nat) (m : gmap K V) :
  list_to_map (go_range code m) = m.
Proof.
  symmetry. apply list_to_map_flip. symmetry. apply go_range_Permutation.
Qed.

(** ** [strings.Split] and [strings.Join] *)

Lemma Split_nonempty s c : Strings.Split s c ≠ [].
Proof.
  induction s as [|a s IH]; simpl; [done|].
  destruct (Ascii.eqb a c); [done|]. by destruct (Strings.Split s c).
Qed.

Lemma Split_empty c : Strings.Split EmptyString c = [EmptyString].
Proof. done. Qed.

Lemma Split_no_sep s c : Strings.Contains s c = false → Strings.Split s c = [s].
Proof.
  induction s as [|a s IH]; simpl; [done|].
  intros [Ha Hs]%orb_false_iff. rewrite Ha, (IH Hs). done.
Qed.

Lemma Split_app_sep x r c :
  Strings.Contains x c = false →
  Strings.Split (x +:+ String c r) c = x :: Strings.Split r c.
Proof.
  induction x as [|a x IH]; simpl.
  - intros _. by rewrite Ascii.eqb_refl.
  - intros [Ha Hx]%orb_false_iff. by rewrite Ha, (IH Hx).
Qed.

Lemma Split_Join (l : list string) :
  l ≠ [] →
  Forall (λ s, Strings.Contains s ","%char = false) l →
  Strings.Split (Strings.Join l ",") ","%char = l.
Proof.
  intros Hne Hl. induction Hl as [|x l Hx Hl IH]; [done|].
  destruct l as [|y l].
  - simpl. by apply Split_no_sep.
  - change (Strings.Join (x :: y :: l) ",")
      with (x +:+ String ","%char (Strings.Join (y :: l) ",")).
    rewrite Split_app_sep by done. by rewrite IH.
Qed.

(** ** The store *)

Lemma GetAnnotations_map_delete σ meta k :
  metav1.GetAnnotations (map_delete (metav1.Annotations meta) k σ) meta
  = delete k (metav1.GetAnnotations σ meta).
Proof.
  unfold metav1.GetAnnotations, map_delete.
  destruct (metav1.Annotations meta) as [l|]; [|by rewrite delete_empty].
  rewrite lookup_alter_eq. destruct (σ !! l); simpl; [done|by rewrite delete_empty].
Qed.

Lemma GetAnnotations_delete_all σ meta ks :
  metav1.GetAnnotations
    (foldl (λ σ k, map_delete (metav1.Annotations meta) k σ) σ ks) meta
  = foldl (λ a k, delete k a) (metav1.GetAnnotations σ meta) ks.
Proof.
  revert σ. induction ks as [|k ks IH]; intros σ; simpl; [done|].
  by rewrite IH, GetAnnotations_map_delete.
Qed.

Lemma bool_decide_ext_if_helper {A} (P Q : Prop) `{Decision P, Decision Q} (x y : A) :
  (P ↔ Q) → (if bool_decide P then x else y) = (if bool_decide Q then x else y).
Proof. intros HPQ. by rewrite (bool_decide_ext P Q HPQ). Qed.

Lemma lookup_delete_all (a : gmap string string) ks k :
  foldl (λ a k, delete k a) a ks !! k = if bool_decide (k ∈ ks) then None else a !! k.
Proof.
  revert a. induction ks as [|k' ks IH]; intros a; simpl; [done|].
  rewrite IH. destruct (decide (k = k')) as [->|Hne].
  - rewrite lookup_delete_eq. rewrite (bool_decide_eq_true_2 (k' ∈ k' :: ks)) by left.
    by case_bool_decide.
  - rewrite lookup_delete_ne by done.
    apply bool_decide_ext_if_helper. rewrite elem_of_cons.
    split; [by right|by intros [?|?]].
Qed.

(** ** Upgrade: what [ConvertTo] returns *)

(** The three ways [ConvertTo] ends: at the first [return] with the error of
    the node-ports annotation, at the second with the error of the
    external-name annotation, or at the end with nil, after the [delete]
    statements. *)
Lemma ConvertTo_cases sched t dst σ :
  let annotations := metav1.GetAnnotations σ (v1alpha1.ObjectMeta t) in
  let name := metav1.GetName (v1alpha1.ObjectMeta t) in
  let r := ConvertTo sched t dst σ in
  ObjectMeta r.1.2 = v1alpha1.ObjectMeta t ∧
  Owners (Spec r.1.2) = convertV1Alpha1OwnerToV1Beta1 sched σ t ∧
  ((∃ v err, annotations !! enableNodePortsAnnotation = Some v ∧
      Strconv.ParseBool v = inr err ∧
      r.2 = Some (errors_Wrap err (parseErrorMessage enableNodePortsAnnotation name)) ∧
      r.1.1 = σ)
   ∨ (parsesIfPresent annotations enableNodePortsAnnotation = true ∧
      ∃ v err, annotations !! enableExternalNameAnnotation = Some v ∧
      Strconv.ParseBool v = inr err ∧
      r.2 = Some (errors_Wrap err (parseErrorMessage enableExternalNameAnnotation name)) ∧
      r.1.1 = σ)
   ∨ (parsesIfPresent annotations enableNodePortsAnnotation = true ∧
      parsesIfPresent annotations enableExternalNameAnnotation = true ∧
      r.2 = None ∧
      r.1.1 = foldl (λ σ k, map_delete (metav1.Annotations (v1alpha1.ObjectMeta t)) k σ)
                σ consumedAnnotations)).
Proof.
  intros annotations name r. subst r. unfold ConvertTo, parsesIfPresent.
  fold annotations name.
  destruct (annotations !! enableNodePortsAnnotation) as [v1|] eqn:H1;
    [destruct (Strconv.ParseBool v1) as [b1|e1] eqn:P1|];
    (destruct (annotations !! enableExternalNameAnnotation) as [v2|] eqn:H2;
      [destruct (Strconv.ParseBool v2) as [b2|e2] eqn:P2|]);
    simpl; (split; [done|]); (split; [done|]); naive_solver.
Qed.

Lemma annotationsReadByUpgrade_consumed :
  Forall (λ k, k ∈ consumedAnnotations) annotationsReadByUpgrade.
Proof. by apply (bool_decide_unpack _); vm_compute. Qed.

Lemma consumedAnnotations_read :
  Forall (λ k, k ∈ annotationsReadByUpgrade) consumedAnnotations.
Proof. by apply (bool_decide_unpack _); vm_compute. Qed.

Lemma consumedAnnotations_NoDup : NoDup consumedAnnotations.
Proof. by apply (bool_decide_unpack _); vm_compute. Qed.

(** The [delete] statements cover 21 distinct annotations: 12 permission
    annotations, 1 pull policy, 2 priority classes, 2 booleans, 1 scope and 3
    owner kinds. *)
Lemma consumedAnnotations_count :
  length consumedAnnotations = 21
  ∧ length permissionAnnotations = 12
  ∧ length ownerKindAnnotations = 3
  ∧ consumedAnnotations ≡ₚ annotationsReadByUpgrade.
Proof.
  repeat split; [done..|].
  apply NoDup_Permutation.
  - apply consumedAnnotations_NoDup.
  - by apply (bool_decide_unpack _); vm_compute.
  - intros k. split; intros Hk.
    + by apply (proj1 (Forall_forall _ _) consumedAnnotations_read).
    + by apply (proj1 (Forall_forall _ _) annotationsReadByUpgrade_consumed).
Qed.

(** C2. When [ConvertTo] returns nil, none of the annotations it reads (the
    twelve permission annotations, the pull policy, the two priority-class
    annotations, the two booleans, the scope and the owner-kind annotations)
    is left in the destination's metadata; when it returns an error, the
    store is untouched and the destination's annotations are those of the
    source, no key removed. *)
Theorem ConvertTo_cleanup_only_on_success sched t dst σ :
  let '(σ', dst', err) := ConvertTo sched t dst σ in
  match err with
  | None =>
      Forall (λ k, metav1.GetAnnotations σ' (ObjectMeta dst') !! k = None)
        annotationsReadByUpgrade
  | Some _ =>
      σ' = σ
      ∧ metav1.GetAnnotations σ' (ObjectMeta dst')
        = metav1.GetAnnotations σ (v1alpha1.ObjectMeta t)
  end.
Proof.
  pose proof (ConvertTo_cases sched t dst σ) as H. cbv zeta in H.
  destruct (ConvertTo sched t dst σ) as [[σ' dst'] err]. cbn [fst snd] in H.
  destruct H as (Hmeta & _ & [H|[H|H]]).
  - destruct H as (v & e & _ & _ & -> & ->). by rewrite Hmeta.
  - destruct H as (_ & v & e & _ & _ & -> & ->). by rewrite Hmeta.
  - destruct H as (_ & _ & -> & ->). rewrite Hmeta.
    rewrite GetAnnotations_delete_all.
    eapply Forall_impl; [apply annotationsReadByUpgrade_consumed|].
    intros k Hk. simpl in Hk. rewrite lookup_delete_all.
    by rewrite bool_decide_eq_true_2.
Qed.

(** The other annotations of a successful upgrade are those of the source. *)
Lemma ConvertTo_keeps_other_annotations sched t dst σ σ' dst' k :
  ConvertTo sched t dst σ = (σ', dst', None) →
  k ∉ consumedAnnotations →
  metav1.GetAnnotations σ' (ObjectMeta dst') !! k
  = metav1.GetAnnotations σ (v1alpha1.ObjectMeta t) !! k.
Proof.
  intros E Hk. pose proof (ConvertTo_cases sched t dst σ) as H. cbv zeta in H.
  rewrite E in H. cbn [fst snd] in H. destruct H as (Hmeta & _ & [H|[H|H]]).
  - by destruct H as (v & e & _ & _ & ? & _).
  - by destruct H as (_ & v & e & _ & _ & ? & _).
  - destruct H as (_ & _ & _ & ->). rewrite Hmeta, GetAnnotations_delete_all.
    rewrite lookup_delete_all. by rewrite bool_decide_eq_false_2.
Qed.

(** A successful upgrade stores the parsed booleans. *)
Lemma ConvertTo_AllowedServices sched t dst σ σ' dst' :
  let annotations := metav1.GetAnnotations σ (v1alpha1.ObjectMeta t) in
  ConvertTo sched t dst σ = (σ', dst', None) →
  (∀ v, annotations !! enableNodePortsAnnotation = Some v →
        ∃ b, Strconv.ParseBool v = inl b
             ∧ allowedNodePort dst' = Some b)
  ∧ (∀ v, annotations !! enableExternalNameAnnotation = Some v →
        ∃ b, Strconv.ParseBool v = inl b
             ∧ allowedExternalName dst' = Some b).
Proof.
  intros annotations. unfold ConvertTo. fold annotations.
  destruct (annotations !! enableNodePortsAnnotation) as [v1|] eqn:H1;
    [destruct (Strconv.ParseBool v1) as [b1|e1] eqn:P1|];
    (destruct (annotations !! enableExternalNameAnnotation) as [v2|] eqn:H2;
      [destruct (Strconv.ParseBool v2) as [b2|e2] eqn:P2|]);
    intros [= <- <-]; split; intros v [= <-]; eauto.
Qed.

(** C4, as amended.  With the node-ports annotation set to ["maybe"] the
    upgrade returns an error whose message holds the annotation key and the
    tenant name and whose cause holds the rejected value; with ["true"] or
    ["1"], and the external-name annotation absent or a boolean literal, it
    returns nil and sets [NodePort] to true. *)
Theorem ConvertTo_boolean_strictness sched t dst σ v :
  let annotations := metav1.GetAnnotations σ (v1alpha1.ObjectMeta t) in
  annotations !! enableNodePortsAnnotation = Some v →
  (v = "maybe" →
     (ConvertTo sched t dst σ).2
     = Some {| message :=
                 "unable to parse capsule.clastix.io/enable-node-ports annotation on tenant "
                   +:+ metav1.GetName (v1alpha1.ObjectMeta t);
               cause := {| Strconv.Func := "ParseBool"; Strconv.Num := "maybe";
                           Strconv.Err := "invalid syntax" |} |})
  ∧ (v = "true" ∨ v = "1" →
     parsesIfPresent annotations enableExternalNameAnnotation = true →
     (ConvertTo sched t dst σ).2 = None
     ∧ allowedNodePort (ConvertTo sched t dst σ).1.2 = Some true).
Proof.
  intros annotations Hv.
  pose proof (ConvertTo_cases sched t dst σ) as H. cbv zeta in H. fold annotations in H.
  destruct H as (_ & _ & H). split.
  - intros ->. destruct H as [H|[H|H]].
    + destruct H as (v & e & Hv' & He & -> & _).
      rewrite Hv in Hv'. injection Hv' as <-. by injection He as <-.
    + destruct H as (Hp & _). unfold parsesIfPresent in Hp. by rewrite Hv in Hp.
    + destruct H as (Hp & _). unfold parsesIfPresent in Hp. by rewrite Hv in Hp.
  - intros Hv' Hext.
    assert (Strconv.ParseBool v = inl true) as Hparse by (by destruct Hv' as [-> | ->]).
    destruct H as [H|[H|H]].
    + destruct H as (v' & e & Hv'' & He & _). congruence.
    + destruct H as (_ & v' & e & Hv'' & He & _).
      unfold parsesIfPresent in Hext. by rewrite Hv'', He in Hext.
    + destruct H as (_ & _ & Herr & _). split; [done|].
      destruct (ConvertTo sched t dst σ) as [[σ' dst'] err] eqn:E. simpl in *. subst err.
      destruct (ConvertTo_AllowedServices _ _ _ _ _ _ E) as [Hnp _].
      destruct (Hnp _ Hv) as (b & Hb & ->). congruence.
Qed.

Lemma ConvertTo_boolean_strictness_witness :
  (ConvertTo in_order (sampleLegacy "oil" "alice" (Some 1%positive)) zeroTenant
     (sampleStore [(enableNodePortsAnnotation, "maybe")])).2
  = Some {| message :=
              "unable to parse capsule.clastix.io/enable-node-ports annotation on tenant oil";
            cause := {| Strconv.Func := "ParseBool"; Strconv.Num := "maybe";
                        Strconv.Err := "invalid syntax" |} |}
  ∧ allowedNodePort
      (ConvertTo in_order (sampleLegacy "oil" "alice" (Some 1%positive)) zeroTenant
         (sampleStore [(enableNodePortsAnnotation, "1")])).1.2 = Some true.
Proof.
  split.
  - apply (ConvertTo_boolean_strictness in_order
             (sampleLegacy "oil" "alice" (Some 1%positive)) zeroTenant
             (sampleStore [(enableNodePortsAnnotation, "maybe")]) "maybe");
      reflexivity.
  - apply (ConvertTo_boolean_strictness in_order
             (sampleLegacy "oil" "alice" (Some 1%positive)) zeroTenant
             (sampleStore [(enableNodePortsAnnotation, "1")]) "1");
      [reflexivity|right; reflexivity|reflexivity].
Defined.

(** C4, as stated, fails: the node-ports annotation is ["true"] and the
    upgrade returns an error all the same, that of the external-name
    annotation. *)
Lemma ConvertTo_true_node_ports_may_fail :
  let t := sampleLegacy "oil" "alice" (Some 1%positive) in
  let σ := sampleStore [(enableNodePortsAnnotation, "true");
                        (enableExternalNameAnnotation, "maybe")] in
  metav1.GetAnnotations σ (v1alpha1.ObjectMeta t) !! enableNodePortsAnnotation = Some "true"
  ∧ (ConvertTo in_order t zeroTenant σ).2
    = Some {| message :=
                "unable to parse capsule.clastix.io/enable-external-name annotation on tenant oil";
              cause := {| Strconv.Func := "ParseBool"; Strconv.Num := "maybe";
                          Strconv.Err := "invalid syntax" |} |}.
Proof. split; reflexivity. Qed.

(** ** Downgrade: the loop over the owners *)

Lemma proxyAnnotationOf_inj kind kind' op op' :
  proxyAnnotationOf kind op = proxyAnnotationOf kind' op' → kind = kind' ∧ op = op'.
Proof. by destruct kind, op, kind', op'. Qed.

Lemma ownerAnnotationOf_inj kind kind' :
  ownerAnnotationOf kind = ownerAnnotationOf kind' → kind = kind'.
Proof. by destruct kind, kind'. Qed.

Lemma proxyAnnotationOf_not_owner kind op kind' :
  proxyAnnotationOf kind op ≠ ownerAnnotationOf kind'.
Proof. by destruct kind, op, kind'. Qed.

Lemma holdersAt_proxyAnnotationOf kind op owners :
  holdersAt (proxyAnnotationOf kind op) owners = holders kind op owners.
Proof.
  unfold holdersAt, holders.
  induction owners as [|o owners IH]; [done|]. simpl. f_equal; [|done].
  induction (ProxyOperations o) as [|s ss IHs]; [done|]. simpl. f_equal; [|done].
  induction (Operations s) as [|op' ops IHo]; [done|]. simpl. f_equal; [|done].
  apply bool_decide_ext_if_helper. split.
  - by intros [-> ->]%proxyAnnotationOf_inj.
  - by intros [-> ->].
Qed.

Lemma ownersAt_ownerAnnotationOf kind owners :
  ownersAt (ownerAnnotationOf kind) owners = ownersOfKind kind owners.
Proof.
  unfold ownersAt, ownersOfKind. f_equal.
  apply list_filter_iff. intros o. split; [apply ownerAnnotationOf_inj|by intros ->].
Qed.

Lemma go_append_lookup m k x k' :
  default [] (go_append m k x !! k')
  = default [] (m !! k') ++ (if bool_decide (k = k') then [x] else []).
Proof.
  unfold go_append. case_bool_decide as Hk.
  - subst. by rewrite lookup_insert_eq.
  - rewrite lookup_insert_ne by done. by rewrite app_nil_r.
Qed.

Lemma recordSetting_lookup name pa setting k :
  default [] (recordSetting name pa setting !! k)
  = default [] (pa !! k)
    ++ (operation ← Operations setting;
        if bool_decide (proxyAnnotationOf (ProxySettings_Kind setting) operation = k)
        then [name] else []).
Proof.
  unfold recordSetting. revert pa.
  induction (Operations setting) as [|op ops IH]; intros pa; simpl.
  - by rewrite app_nil_r.
  - rewrite IH, go_append_lookup. by rewrite <- app_assoc.
Qed.

Lemma recordSettings_lookup name pa settings k :
  default [] (foldl (recordSetting name) pa settings !! k)
  = default [] (pa !! k)
    ++ (setting ← settings; operation ← Operations setting;
        if bool_decide (proxyAnnotationOf (ProxySettings_Kind setting) operation = k)
        then [name] else []).
Proof.
  revert pa. induction settings as [|s ss IH]; intros pa; simpl.
  - by rewrite app_nil_r.
  - rewrite IH, recordSetting_lookup. by rewrite <- app_assoc.
Qed.

Lemma rangeOwners_proxyAnnotations i owners st k :
  default [] (proxyAnnotations (rangeOwners i owners st) !! k)
  = default [] (proxyAnnotations st !! k) ++ holdersAt k owners.
Proof.
  revert i st. induction owners as [|o owners IH]; intros i st; simpl.
  - by rewrite app_nil_r.
  - rewrite IH. unfold ownersLoopBody. simpl.
    rewrite recordSettings_lookup. rewrite <- app_assoc. f_equal.
    by case_bool_decide.
Qed.

Lemma rangeOwners_ownersAnnotations_S i owners st k :
  default [] (ownersAnnotations (rangeOwners (S i) owners st) !! k)
  = default [] (ownersAnnotations st !! k) ++ ownersAt k owners.
Proof.
  revert i st. induction owners as [|o owners IH]; intros i st; simpl.
  - by rewrite app_nil_r.
  - rewrite IH. unfold ownersLoopBody. simpl.
    rewrite go_append_lookup. rewrite <- app_assoc. f_equal.
    unfold ownersAt. rewrite filter_cons. by repeat case_decide; case_bool_decide.
Qed.

Lemma rangeOwners_ownersAnnotations owners st k :
  default [] (ownersAnnotations (rangeOwners 0 owners st) !! k)
  = default [] (ownersAnnotations st !! k) ++ ownersAt k (tail owners).
Proof.
  destruct owners as [|o owners]; simpl; [by rewrite app_nil_r|].
  by rewrite rangeOwners_ownersAnnotations_S.
Qed.

Lemma rangeOwners_Owner_S i owners st :
  loop_Owner (rangeOwners (S i) owners st) = loop_Owner st.
Proof.
  revert i st. induction owners as [|o owners IH]; intros i st; simpl; [done|].
  by rewrite IH.
Qed.

Lemma rangeOwners_Owner owners st :
  loop_Owner (rangeOwners 0 owners st)
  = match owners with
    | [] => loop_Owner st
    | o :: _ => {| v1alpha1.OwnerSpec_Name := OwnerSpec_Name o;
                   v1alpha1.OwnerSpec_Kind := OwnerSpec_Kind o |}
    end.
Proof.
  destruct owners as [|o owners]; [done|]. simpl.
  by rewrite rangeOwners_Owner_S.
Qed.

(** ** Downgrade: writing the collected names *)

Lemma GetAnnotations_map_assign σ meta l k v σ' :
  metav1.Annotations meta = Some l →
  map_assign (Some l) k v σ = Returned σ' →
  metav1.GetAnnotations σ' meta = <[k := v]> (metav1.GetAnnotations σ meta).
Proof.
  unfold metav1.GetAnnotations. intros -> [= <-]. by rewrite lookup_insert_eq.
Qed.

(** The writes of one [range] loop over a map of collected names: every
    entry with a non-empty list is written, the order does not matter. *)
Lemma writeAnnotations_lookup meta l entries σ :
  metav1.Annotations meta = Some l →
  NoDup entries.*1 →
  ∃ σ', writeAnnotations (Some l) entries σ = Returned σ'
    ∧ ∀ k, metav1.GetAnnotations σ' meta !! k
           = match (list_to_map entries : gmap string (list string)) !! k with
             | Some ((_ :: _) as v) => Some (Strings.Join v ",")
             | _ => metav1.GetAnnotations σ meta !! k
             end.
Proof.
  intros Hl. unfold writeAnnotations. revert σ.
  induction entries as [|[k0 v0] entries IH]; intros σ Hnd; cbn [foldl].
  - exists σ. split; [done|]. intros k. simpl. by rewrite lookup_empty.
  - rewrite fmap_cons in Hnd. apply NoDup_cons in Hnd as [Hk0 Hnd].
    unfold outcome_bind at 2.
    assert (∃ σ1, (if bool_decide (0 < length v0)
                   then map_assign (Some l) k0 (Strings.Join v0 ",") σ
                   else Returned σ) = Returned σ1
             ∧ ∀ k, metav1.GetAnnotations σ1 meta !! k
                    = if bool_decide (k = k0)
                      then match v0 with
                           | _ :: _ => Some (Strings.Join v0 ",")
                           | [] => metav1.GetAnnotations σ meta !! k
                           end
                      else metav1.GetAnnotations σ meta !! k) as (σ1 & -> & H1).
    { destruct v0 as [|x v0]; simpl.
      - exists σ. split; [done|]. intros k. by case_bool_decide.
      - eexists. split; [done|]. intros k.
        erewrite GetAnnotations_map_assign by done.
        case_bool_decide as Hk; [subst; by rewrite lookup_insert_eq|].
        by rewrite lookup_insert_ne. }
    destruct (IH σ1 Hnd) as (σ' & -> & H').
    exists σ'. split; [done|]. intros k. rewrite H', H1.
    rewrite list_to_map_cons. case_bool_decide as Hk.
    + subst k. rewrite lookup_insert_eq.
      rewrite (not_elem_of_list_to_map_1 _ _ Hk0). done.
    + by rewrite lookup_insert_ne.
Qed.

Lemma initialProxyAnnotations_default k :
  default [] (initialProxyAnnotations !! k) = [].
Proof.
  assert (map_Forall (λ _ v, v = []) initialProxyAnnotations) as H
    by (by apply (bool_decide_unpack _); vm_compute).
  destruct (initialProxyAnnotations !! k) as [v|] eqn:Hk; [|done].
  by apply H in Hk.
Qed.

Lemma initialOwnersAnnotations_default k :
  default [] (initialOwnersAnnotations !! k) = [].
Proof.
  assert (map_Forall (λ _ v, v = []) initialOwnersAnnotations) as H
    by (by apply (bool_decide_unpack _); vm_compute).
  destruct (initialOwnersAnnotations !! k) as [v|] eqn:Hk; [|done].
  by apply H in Hk.
Qed.

Lemma elem_of_holdersAt x k owners :
  x ∈ holdersAt k owners
  ↔ ∃ o s op, o ∈ owners ∧ s ∈ ProxyOperations o ∧ op ∈ Operations s
              ∧ proxyAnnotationOf (ProxySettings_Kind s) op = k ∧ x = OwnerSpec_Name o.
Proof.
  unfold holdersAt. rewrite list_elem_of_bind. split.
  - intros (o & (s & (op & Hx & Hop)%list_elem_of_bind & Hs)%list_elem_of_bind & Ho).
    case_bool_decide; [|by apply elem_of_nil in Hx].
    apply list_elem_of_singleton in Hx. by exists o, s, op.
  - intros (o & s & op & Ho & Hs & Hop & Hk & ->).
    exists o. split; [|done]. apply list_elem_of_bind. exists s. split; [|done].
    apply list_elem_of_bind. exists op. split; [|done].
    rewrite bool_decide_eq_true_2 by done. left.
Qed.

Lemma elem_of_ownersAt x k owners :
  x ∈ ownersAt k owners
  ↔ ∃ o, o ∈ owners ∧ ownerAnnotationOf (OwnerSpec_Kind o) = k ∧ x = OwnerSpec_Name o.
Proof.
  unfold ownersAt. rewrite list_elem_of_fmap. split.
  - intros (o & -> & [Hk Ho]%list_elem_of_filter). by exists o.
  - intros (o & Ho & Hk & ->). exists o. split; [done|].
    by apply list_elem_of_filter.
Qed.

Lemma holdersAt_ownersAt_disjoint k owners owners' :
  holdersAt k owners = [] ∨ ownersAt k owners' = [].
Proof.
  destruct (ownersAt k owners') as [|x xs] eqn:Ho; [by right|left].
  assert (x ∈ ownersAt k owners') as Hx by (rewrite Ho; left).
  apply elem_of_ownersAt in Hx as (o & _ & <- & _).
  destruct (holdersAt _ owners) as [|y ys] eqn:Hh; [done|].
  assert (y ∈ holdersAt (ownerAnnotationOf (OwnerSpec_Kind o)) owners) as Hy
    by (rewrite Hh; left).
  apply elem_of_holdersAt in Hy as (o' & s & op & _ & _ & _ & Hk & _).
  by apply proxyAnnotationOf_not_owner in Hk.
Qed.

(** The annotations after [convertV1Beta1OwnerToV1Alpha1]: a permission
    annotation is written when some owner holds the permission, an owner-kind
    annotation when some owner but the first is of that kind, and every other
    annotation is left as it was. *)
Lemma convertV1Beta1OwnerToV1Alpha1_annotations sched t src σ l :
  metav1.Annotations (v1alpha1.ObjectMeta t) = Some l →
  ∃ σ' t',
    convertV1Beta1OwnerToV1Alpha1 sched t src σ = Returned (σ', t')
    ∧ v1alpha1.ObjectMeta t' = v1alpha1.ObjectMeta t
    ∧ v1alpha1.Owner (v1alpha1.Spec t')
      = match Owners (Spec src) with
        | [] => v1alpha1.Owner (v1alpha1.Spec t)
        | o :: _ => {| v1alpha1.OwnerSpec_Name := OwnerSpec_Name o;
                       v1alpha1.OwnerSpec_Kind := OwnerSpec_Kind o |}
        end
    ∧ ∀ k, metav1.GetAnnotations σ' (v1alpha1.ObjectMeta t) !! k
           = match holdersAt k (Owners (Spec src)) with
             | (_ :: _) as v => Some (Strings.Join v ",")
             | [] =>
                 match ownersAt k (tail (Owners (Spec src))) with
                 | (_ :: _) as v => Some (Strings.Join v ",")
                 | [] => metav1.GetAnnotations σ (v1alpha1.ObjectMeta t) !! k
                 end
             end.
Proof.
  intros Hl. unfold convertV1Beta1OwnerToV1Alpha1.
  set (st0 := {| loop_Owner := _; ownersAnnotations := _; proxyAnnotations := _ |}).
  set (st := rangeOwners 0 (Owners (Spec src)) st0).
  change (v1alpha1.ObjectMeta (set_Owner (loop_Owner st) t)) with (v1alpha1.ObjectMeta t).
  rewrite Hl.
  destruct (writeAnnotations_lookup (v1alpha1.ObjectMeta t) l
              (go_range (rangeOwnersAnnotations sched) (ownersAnnotations st)) σ Hl)
    as (σ1 & -> & H1); [apply go_range_NoDup_keys|].
  destruct (writeAnnotations_lookup (v1alpha1.ObjectMeta t) l
              (go_range (rangeProxyAnnotations sched) (proxyAnnotations st)) σ1 Hl)
    as (σ2 & E2 & H2); [apply go_range_NoDup_keys|].
  cbn [outcome_bind]. rewrite E2. cbn [outcome_bind].
  eexists _, _. split; [done|]. split; [done|]. split.
  { simpl. subst st. by rewrite rangeOwners_Owner. }
  intros k. rewrite H2, H1, !go_range_to_map.
  pose proof (rangeOwners_proxyAnnotations 0 (Owners (Spec src)) st0 k) as Hp.
  pose proof (rangeOwners_ownersAnnotations (Owners (Spec src)) st0 k) as Ho.
  fold st in Hp, Ho. subst st0. simpl in Hp, Ho.
  rewrite initialProxyAnnotations_default in Hp.
  rewrite initialOwnersAnnotations_default in Ho. simpl in Hp, Ho.
  rewrite <- Hp, <- Ho.
  by destruct (proxyAnnotations st !! k) as [[|??]|],
              (ownersAnnotations st !! k) as [[|??]|].
Qed.

(** ** Downgrade: what [ConvertFrom] returns *)

Lemma foldl_snoc_id {A} (l acc : list A) :
  foldl (λ acc x, acc ++ [x]) acc l = acc ++ l.
Proof.
  revert acc. induction l as [|x l IH]; intros acc; simpl; [by rewrite app_nil_r|].
  by rewrite IH, <- app_assoc.
Qed.

Lemma ConvertFrom_panics sched t src σ :
  derefsNil src = true → ConvertFrom sched t src σ = Panicked.
Proof.
  unfold derefsNil, ConvertFrom. intros Hnil.
  destruct (ServiceOptions_ (Spec src) ≫= AllowedServices_) as [[np en]|]; [|done].
  simpl in Hnil.
  match goal with |- context [let '(a, b) := ?x in _] => destruct x end.
  do 2 match goal with
       | |- outcome_bind ?x _ = Panicked => destruct x as [[]|]; [|done]; cbn [outcome_bind]
       end.
  do 2 match goal with
       | |- outcome_bind ?x _ = Panicked => destruct x as [|]; [|done]; cbn [outcome_bind]
       end.
  destruct np as [np|]; [|done]. destruct en as [en|]; [done|].
  cbn [deref outcome_bind]. by destruct (metav1.Annotations o).
Qed.

Lemma map_assign_Some meta l k v σ :
  metav1.Annotations meta = Some l →
  ∃ σ', map_assign (Some l) k v σ = Returned σ'
        ∧ metav1.GetAnnotations σ' meta = <[k := v]> (metav1.GetAnnotations σ meta).
Proof.
  intros Hl. eexists. split; [done|]. by eapply GetAnnotations_map_assign.
Qed.

Lemma ConvertFrom_returns sched t src σ :
  derefsNil src = false →
  ∃ a1 σ' t',
    ConvertFrom sched t src σ = Returned (σ', t', None)
    ∧ (∀ k, a1 !! k
            = match holdersAt k (Owners (Spec src)) with
              | (_ :: _) as v => Some (Strings.Join v ",")
              | [] =>
                  match ownersAt k (tail (Owners (Spec src))) with
                  | (_ :: _) as v => Some (Strings.Join v ",")
                  | [] => metav1.GetAnnotations σ (ObjectMeta src) !! k
                  end
              end)
    ∧ metav1.GetAnnotations σ' (v1alpha1.ObjectMeta t') = fieldAnnotations src a1
    ∧ v1alpha1.Owner (v1alpha1.Spec t')
      = match Owners (Spec src) with
        | [] => v1alpha1.Owner (v1alpha1.Spec t)
        | o :: _ => {| v1alpha1.OwnerSpec_Name := OwnerSpec_Name o;
                       v1alpha1.OwnerSpec_Kind := OwnerSpec_Kind o |}
        end.
Proof.
  intros Hnil. unfold ConvertFrom.
  assert (∃ meta l σ0,
    (match metav1.Annotations (ObjectMeta src) with
     | None =>
         let '(l, σ) := map_make σ in
         ({| metav1.Name := metav1.Name (ObjectMeta src);
             metav1.Labels := metav1.Labels (ObjectMeta src);
             metav1.Annotations := Some l |}, σ)
     | Some _ => (ObjectMeta src, σ)
     end) = (meta, σ0)
    ∧ metav1.Annotations meta = Some l
    ∧ metav1.GetAnnotations σ0 meta = metav1.GetAnnotations σ (ObjectMeta src))
    as (meta & l & σ0 & -> & Hl & Ha0).
  { destruct (metav1.Annotations (ObjectMeta src)) as [l|] eqn:Hsrc.
    - by exists (ObjectMeta src), l, σ.
    - eexists _, _, _. split; [done|]. split; [done|].
      unfold metav1.GetAnnotations. rewrite Hsrc. simpl.
      by rewrite lookup_insert_eq. }
  match goal with
  | |- context [convertV1Beta1OwnerToV1Alpha1 ?s ?t0 ?src0 ?σ0] =>
      destruct (convertV1Beta1OwnerToV1Alpha1_annotations s t0 src0 σ0 l Hl)
        as (σ1 & t1 & -> & Hmeta1 & Howner & Hlook)
  end.
  cbn [outcome_bind]. cbn [v1alpha1.ObjectMeta v1alpha1.Spec v1alpha1.Owner] in Hmeta1, Howner, Hlook.
  rewrite Ha0 in Hlook. rewrite Hl.
  unfold derefsNil in Hnil. unfold fieldAnnotations.
  exists (metav1.GetAnnotations σ1 meta).
  destruct (ServiceOptions_ (Spec src) ≫= AllowedServices_) as [[[np|] [en|]]|];
    try discriminate Hnil; clear Hnil;
    (destruct (ResourceQuota (Spec src)) as [rq|]);
    (destruct (ImagePullPolicies (Spec src)) as [|p ps] eqn:Hpp;
       [|rewrite foldl_snoc_id, app_nil_l]);
    (destruct (PriorityClasses (Spec src)) as [[[|e es] rx]|];
       [destruct (decide (rx = EmptyString)) as [->|Hrx];
          [|rewrite (bool_decide_eq_true_2 (rx ≠ EmptyString)), (bool_decide_eq_false_2 (rx = EmptyString)) by done]..
       |]);
    cbn [outcome_bind map_assign deref length bool_decide decide_rel Exact Regex];
    (eexists _, _; split; [reflexivity|]; split; [exact Hlook|]; split; [|exact Howner]);
    cbn [v1alpha1.ObjectMeta]; unfold metav1.GetAnnotations; rewrite Hl;
    rewrite ?lookup_insert_eq; reflexivity.
Qed.

(** C3.  The downgrade of an instance whose [AllowedServices] has [NodePort]
    set and [ExternalName] unset does not return: it panics on the nil
    pointer. *)
Theorem ConvertFrom_panics_on_unset_ExternalName :
  ConvertFrom in_order zeroLegacy (sampleTenant [] nodePortOnly) ∅ = Panicked.
Proof. reflexivity. Qed.

(** Such an instance is what the upgrade builds from a legacy tenant that
    has the node-ports annotation and no external-name annotation: the
    downgrade of an upgraded tenant panics. *)
Lemma downgrade_of_upgrade_panics :
  let t := sampleLegacy "oil" "alice" (Some 1%positive) in
  let σ := sampleStore [(enableNodePortsAnnotation, "true")] in
  (ConvertTo in_order t zeroTenant σ).2 = None
  ∧ ServiceOptions_ (Spec (ConvertTo in_order t zeroTenant σ).1.2) = nodePortOnly
  ∧ ConvertFrom in_order zeroLegacy (ConvertTo in_order t zeroTenant σ).1.2
      (ConvertTo in_order t zeroTenant σ).1.1 = Panicked.
Proof. repeat split; reflexivity. Qed.

(** The downgrade returns exactly when it meets no nil boolean. *)
Lemma ConvertFrom_returns_iff sched t src σ :
  returns (ConvertFrom sched t src σ) = negb (derefsNil src).
Proof.
  destruct (derefsNil src) eqn:Hnil.
  - by rewrite ConvertFrom_panics.
  - destruct (ConvertFrom_returns sched t src σ Hnil) as (? & ? & ? & -> & _). done.
Qed.

(** ** Downgrade: the annotations of the fields *)

Lemma holdersAt_other k owners :
  (∀ kind op, proxyAnnotationOf kind op ≠ k) → holdersAt k owners = [].
Proof.
  intros Hk. destruct (holdersAt k owners) as [|x xs] eqn:Hh; [done|].
  assert (x ∈ holdersAt k owners) as Hx by (rewrite Hh; left).
  apply elem_of_holdersAt in Hx as (o & s & op & _ & _ & _ & Hk' & _).
  by apply Hk in Hk'.
Qed.

Lemma ownersAt_other k owners :
  (∀ kind, ownerAnnotationOf kind ≠ k) → ownersAt k owners = [].
Proof.
  intros Hk. destruct (ownersAt k owners) as [|x xs] eqn:Hh; [done|].
  assert (x ∈ ownersAt k owners) as Hx by (rewrite Hh; left).
  apply elem_of_ownersAt in Hx as (o & _ & Hk' & _).
  by apply Hk in Hk'.
Qed.

Lemma fieldAnnotations_scope src a :
  fieldAnnotations src a !! resourceQuotaScopeAnnotation
  = match ResourceQuota (Spec src) with
    | Some rq => Some (ResourceQuotaScope_string (Scope rq))
    | None => a !! resourceQuotaScopeAnnotation
    end.
Proof.
  unfold fieldAnnotations.
  destruct (ServiceOptions_ (Spec src) ≫= AllowedServices_) as [[[np|] [en|]]|];
    destruct (ResourceQuota (Spec src)) as [rq|];
    destruct (ImagePullPolicies (Spec src)) as [|p ps];
    destruct (PriorityClasses (Spec src)) as [[[|e es] rx]|];
    cbn [Exact Regex]; repeat case_bool_decide;
    repeat first [ rewrite lookup_insert_eq | rewrite lookup_insert_ne by done ];
    reflexivity.
Qed.

Lemma fieldAnnotations_other src a k :
  k ∉ [resourceQuotaScopeAnnotation; podAllowedImagePullPolicyAnnotation;
       podPriorityAllowedAnnotation; podPriorityAllowedRegexAnnotation;
       enableNodePortsAnnotation; enableExternalNameAnnotation] →
  fieldAnnotations src a !! k = a !! k.
Proof.
  intros Hk. rewrite !not_elem_of_cons in Hk.
  destruct Hk as (? & ? & ? & ? & ? & ? & _).
  unfold fieldAnnotations.
  destruct (ServiceOptions_ (Spec src) ≫= AllowedServices_) as [[[np|] [en|]]|];
    destruct (ResourceQuota (Spec src)) as [rq|];
    destruct (ImagePullPolicies (Spec src)) as [|p ps];
    destruct (PriorityClasses (Spec src)) as [[[|e es] rx]|];
    cbn [Exact Regex]; repeat case_bool_decide;
    repeat (rewrite lookup_insert_ne by done);
    reflexivity.
Qed.




(** C5, as amended.  Whenever the downgrade returns, each of the twelve
    permission annotations holds the comma-join of the names of the owners
    that hold the permission, the first owner included, in the order of the
    owner list and once per occurrence of the operation; when no owner holds
    the permission the annotation is not written and stays as the copied
    metadata has it. *)
Theorem ConvertFrom_permission_annotations sched t src σ :
  derefsNil src = false →
  ∃ σ' t',
    ConvertFrom sched t src σ = Returned (σ', t', None)
    ∧ ∀ kind op,
        metav1.GetAnnotations σ' (v1alpha1.ObjectMeta t') !! proxyAnnotationOf kind op
        = match holders kind op (Owners (Spec src)) with
          | [] => metav1.GetAnnotations σ (ObjectMeta src) !! proxyAnnotationOf kind op
          | names => Some (Strings.Join names ",")
          end.
Proof.
  intros Hnil.
  destruct (ConvertFrom_returns sched t src σ Hnil) as (a1 & σ' & t' & E & Ha1 & Ha & _).
  exists σ', t'. split; [done|]. intros kind op.
  rewrite Ha, fieldAnnotations_other
    by (destruct kind, op; by apply (bool_decide_unpack _); vm_compute).
  rewrite Ha1, holdersAt_proxyAnnotationOf.
  destruct (holders kind op (Owners (Spec src))); [|done].
  rewrite ownersAt_other; [done|].
  intros kind' Hk. symmetry in Hk. by apply proxyAnnotationOf_not_owner in Hk.
Qed.

Lemma ConvertFrom_permission_annotations_witness :
  ∃ σ' t',
    ConvertFrom in_order zeroLegacy (sampleTenant sampleOwners None) ∅
    = Returned (σ', t', None)
    ∧ ∀ kind op,
        metav1.GetAnnotations σ' (v1alpha1.ObjectMeta t') !! proxyAnnotationOf kind op
        = match holders kind op sampleOwners with
          | [] => None
          | names => Some (Strings.Join names ",")
          end.
Proof.
  apply (ConvertFrom_permission_annotations in_order zeroLegacy
           (sampleTenant sampleOwners None) ∅).
  reflexivity.
Defined.

(** C5, as stated, fails: the storage-class-update annotation is written
    although only the first owner holds that permission, and the
    node-listing annotation lists the first owner and has the other names in
    list order, b before a. *)
Lemma ConvertFrom_encodes_first_owner_in_list_order :
  holders StorageClassesProxy UpdateOperation (tail sampleOwners) = []
  ∧ holders NodesProxy ListOperation (tail sampleOwners) = ["b"; "a"]
  ∧ ∃ σ' t',
      ConvertFrom in_order zeroLegacy (sampleTenant sampleOwners None) ∅
      = Returned (σ', t', None)
      ∧ metav1.GetAnnotations σ' (v1alpha1.ObjectMeta t')
          !! enableStorageClassUpdateAnnotation = Some "alice"
      ∧ metav1.GetAnnotations σ' (v1alpha1.ObjectMeta t')
          !! enableNodeListingAnnotation = Some "alice,b,a".
Proof. split; [done|]. split; [done|]. by eexists _, _. Qed.

(** ** Upgrade: decoding the permission annotations *)

Lemma bind_single {A B} (es : list A) (g : A → list B) e0 :
  NoDup es → e0 ∈ es → (∀ e, e ∈ es → e ≠ e0 → g e = []) → es ≫= g = g e0.
Proof.
  intros Hnd. revert e0. induction Hnd as [|e es He Hnd IH]; intros e0 He0 Hg.
  - by apply elem_of_nil in He0.
  - rewrite bind_cons. apply elem_of_cons in He0 as [->|He0].
    + assert (es ≫= g = []) as ->; [|by rewrite app_nil_r].
      clear IH Hnd. induction es as [|e' es IH]; [done|].
      rewrite bind_cons, IH.
      * rewrite Hg; [done|by right; left|]. intros ->. apply He. left.
      * intros Hin. apply He. by right.
      * intros e'' Hin Hne. apply Hg; [|done]. apply elem_of_cons in Hin as [->|Hin].
        -- left.
        -- right. by right.
    + rewrite Hg; [|left|by intros ->]. simpl. apply IH; [done|].
      intros e' Hin Hne. apply Hg; [by right|done].
Qed.

Lemma recordOperation_granted kind a operations owner name kind' :
  granted (recordOperation kind a operations owner) name kind'
  = granted operations name kind'
    ++ (if bool_decide (owner = name ∧ kind = kind')
        then [annotationToOperationMap !!! a] else []).
Proof.
  unfold granted, recordOperation.
  destruct (decide (owner = name)) as [->|Hn].
  - rewrite lookup_insert_eq. simpl.
    destruct (decide (kind = kind')) as [->|Hk].
    + rewrite lookup_insert_eq, bool_decide_eq_true_2 by done. simpl.
      destruct (operations !! name) as [m|] eqn:Hm; simpl.
      * by rewrite Hm.
      * by rewrite lookup_insert_eq.
    + rewrite lookup_insert_ne, bool_decide_eq_false_2, app_nil_r by intuition.
      destruct (operations !! name) as [m|] eqn:Hm; simpl.
      * by rewrite Hm.
      * by rewrite lookup_insert_eq.
  - rewrite lookup_insert_ne, bool_decide_eq_false_2, app_nil_r by intuition.
    destruct (operations !! owner) as [m|] eqn:Hm; [done|].
    by rewrite lookup_insert_ne.
Qed.

Lemma recordOperations_granted kind a operations owners name kind' :
  granted (foldl (recordOperation kind a) operations owners) name kind'
  = granted operations name kind'
    ++ (owner ← owners;
        if bool_decide (owner = name ∧ kind = kind')
        then [annotationToOperationMap !!! a] else []).
Proof.
  revert operations. induction owners as [|o owners IH]; intros operations.
  - simpl. by rewrite app_nil_r.
  - cbn [foldl]. rewrite IH, recordOperation_granted, bind_cons. by rewrite <- app_assoc.
Qed.

Lemma decodeAnnotation_granted annotations kind operations a name kind' :
  granted (decodeAnnotation annotations kind operations a) name kind'
  = granted operations name kind'
    ++ (if bool_decide (kind = kind') then grantOf annotations name a else []).
Proof.
  unfold decodeAnnotation, grantOf.
  destruct (annotations !! a) as [val|]; [|by case_bool_decide; rewrite app_nil_r].
  rewrite recordOperations_granted. f_equal.
  induction (Strings.Split val ","%char) as [|o os IH].
  - by case_bool_decide.
  - rewrite !bind_cons, IH.
    destruct (decide (kind = kind')) as [->|Hk].
    + rewrite !(bool_decide_eq_true_2 (kind' = kind')) by done.
      f_equal. apply bool_decide_ext_if_helper. split; [by intros [??]|done].
    + rewrite !(bool_decide_eq_false_2 (kind = kind')) by done.
      by rewrite bool_decide_eq_false_2 by intuition.
Qed.

Lemma decodeAnnotations_granted annotations kind operations keys name kind' :
  granted (foldl (decodeAnnotation annotations kind) operations keys) name kind'
  = granted operations name kind'
    ++ (if bool_decide (kind = kind') then keys ≫= grantOf annotations name else []).
Proof.
  revert operations. induction keys as [|a keys IH]; intros operations.
  - simpl. by case_bool_decide; rewrite app_nil_r.
  - cbn [foldl]. rewrite IH, decodeAnnotation_granted, bind_cons, <- app_assoc.
    by case_bool_decide.
Qed.

Lemma decodeEntries_granted annotations operations
    (entries : list (ProxyServiceKind * list string)) name kind' :
  granted
    (foldl (λ operations '(serviceKind, operationAnnotations),
              foldl (decodeAnnotation annotations serviceKind) operations
                operationAnnotations)
       operations entries) name kind'
  = granted operations name kind'
    ++ (entries ≫= λ e, if bool_decide (e.1 = kind')
                        then e.2 ≫= grantOf annotations name else []).
Proof.
  revert operations. induction entries as [|[kind keys] entries IH]; intros operations.
  - simpl. by rewrite app_nil_r.
  - cbn [foldl]. rewrite IH, decodeAnnotations_granted, bind_cons, <- app_assoc. done.
Qed.

Lemma annotationToOperationMap_proxyAnnotationOf kind op :
  annotationToOperationMap !!! proxyAnnotationOf kind op = op.
Proof. by destruct kind, op. Qed.

(** The decoded table does not depend on the order in which the service
    kinds are visited. *)
Lemma decodeOperations_granted sched annotations name kind :
  granted (decodeOperations sched annotations) name kind = decoded annotations name kind.
Proof.
  unfold decodeOperations. rewrite decodeEntries_granted.
  assert (∃ keys, serviceKindToAnnotationMap !! kind = Some keys
                  ∧ keys ≫= grantOf annotations name = decoded annotations name kind)
    as (keys & Hkeys & <-).
  { exists (proxyAnnotationOf kind <$> allOperations). split; [by destruct kind|].
    unfold decoded, allOperations. rewrite !fmap_cons, !bind_cons. repeat f_equal.
    all: unfold grantOf; rewrite annotationToOperationMap_proxyAnnotationOf; done. }
  unfold granted at 1. rewrite lookup_empty. simpl.
  rewrite (bind_single _ _ (kind, keys)).
  - simpl. by rewrite bool_decide_eq_true_2.
  - eapply NoDup_fmap_1, go_range_NoDup_keys.
  - by apply go_range_elem_of.
  - intros [kind' keys'] Hin Hne. simpl. rewrite bool_decide_eq_false_2; [done|].
    intros ->. apply go_range_elem_of in Hin. congruence.
Qed.

(** ** Upgrade: the settings of an owner *)

Lemma getProxySettingsForOwner_table sched operations call name :
  settingsTable (getProxySettingsForOwner sched operations call name)
  = default ∅ (operations !! name).
Proof.
  unfold settingsTable, getProxySettingsForOwner.
  destruct (operations !! name) as [m|]; [|done]. simpl.
  rewrite <- list_fmap_compose.
  rewrite (list_fmap_ext _ id (go_range (rangeOwnerOperations sched call) m)).
  - rewrite list_fmap_id. apply go_range_to_map.
  - by intros i [k v] _.
Qed.


Lemma getProxySettingsForOwner_NoDup sched operations call name :
  NoDup (ProxySettings_Kind <$> getProxySettingsForOwner sched operations call name).
Proof.
  unfold getProxySettingsForOwner. destruct (operations !! name) as [m|]; [|constructor].
  rewrite <- list_fmap_compose.
  rewrite (list_fmap_ext _ fst (go_range (rangeOwnerOperations sched call) m)).
  - apply go_range_NoDup_keys.
  - by intros i [k v] _.
Qed.

Lemma getProxySettingsForOwner_elem_of sched operations call name setting :
  setting ∈ getProxySettingsForOwner sched operations call name
  ↔ ∃ m, operations !! name = Some m
         ∧ m !! ProxySettings_Kind setting = Some (Operations setting).
Proof.
  unfold getProxySettingsForOwner. destruct (operations !! name) as [m|].
  - rewrite list_elem_of_fmap. split.
    + intros ([k v] & -> & Hin). apply go_range_elem_of in Hin. eauto.
    + intros (m' & [= <-] & Hm). exists (ProxySettings_Kind setting, Operations setting).
      split; [by destruct setting|]. by apply go_range_elem_of.
  - split; [by intros ?%elem_of_nil|]. by intros (m & ? & _).
Qed.

(** The permission pairs of the settings are those the table grants. *)
Lemma getProxySettingsForOwner_granted sched operations call name kind op :
  (∃ setting, setting ∈ getProxySettingsForOwner sched operations call name
              ∧ ProxySettings_Kind setting = kind ∧ op ∈ Operations setting)
  ↔ op ∈ granted operations name kind.
Proof.
  unfold granted. split.
  - intros (s & (m & Hm & Hs)%getProxySettingsForOwner_elem_of & <- & Hop).
    rewrite Hm. simpl. by rewrite Hs.
  - intros Hop. destruct (operations !! name) as [m|] eqn:Hm; simpl in Hop;
      [|by apply elem_of_nil in Hop].
    destruct (m !! kind) as [v|] eqn:Hv; simpl in Hop; [|by apply elem_of_nil in Hop].
    exists {| ProxySettings_Kind := kind; Operations := v |}. split; [|done].
    apply getProxySettingsForOwner_elem_of. eauto.
Qed.

Lemma settingsTable_granted sched operations call name kind :
  default [] (settingsTable (getProxySettingsForOwner sched operations call name) !! kind)
  = granted operations name kind.
Proof.
  rewrite getProxySettingsForOwner_table. unfold granted.
  by destruct (operations !! name).
Qed.

(** ** Upgrade: the owner list *)

Lemma appendOwners_shape sched operations kind owners names :
  ∃ rest,
    foldl (appendOwners sched operations kind) owners names = owners ++ rest
    ∧ Forall (λ e, ∃ call, ProxyOperations e
                           = getProxySettingsForOwner sched operations call
                               (OwnerSpec_Name e)) rest
    ∧ kindAndName <$> rest = (λ owner, (kind, owner)) <$> names.
Proof.
  revert owners. induction names as [|n names IH]; intros owners.
  - exists []. by rewrite app_nil_r.
  - cbn [foldl]. destruct (IH (appendOwners sched operations kind owners n))
      as (rest & -> & Hrest & Hskel).
    unfold appendOwners. eexists (_ :: rest). split; [by rewrite <- app_assoc|].
    split; [|by rewrite !fmap_cons, Hskel].
    constructor; [|done]. by eexists.
Qed.

Lemma convertV1Alpha1OwnerToV1Beta1_shape sched σ t :
  let annotations := metav1.GetAnnotations σ (v1alpha1.ObjectMeta t) in
  let operations := decodeOperations sched annotations in
  ∃ rest,
    convertV1Alpha1OwnerToV1Beta1 sched σ t = primaryOwner sched σ t :: rest
    ∧ Forall (λ e, ∃ call, ProxyOperations e
                           = getProxySettingsForOwner sched operations call
                               (OwnerSpec_Name e)) rest
    ∧ kindAndName <$> rest
      = go_range (rangeOwnerKinds sched) annotationToOwnerKindMap
          ≫= appendedFor annotations.
Proof.
  intros annotations operations. unfold convertV1Alpha1OwnerToV1Beta1.
  fold annotations operations. fold (primaryOwner sched σ t).
  generalize (go_range (rangeOwnerKinds sched) annotationToOwnerKindMap).
  intros entries.
  enough (∀ owners, ∃ rest,
    foldl (λ owners '(ownerAnnotation, ownerKind),
             match annotations !! ownerAnnotation with
             | Some val =>
                 foldl (appendOwners sched operations ownerKind) owners
                   (Strings.Split val ","%char)
             | None => owners
             end) owners entries = owners ++ rest
    ∧ Forall (λ e, ∃ call, ProxyOperations e
                           = getProxySettingsForOwner sched operations call
                               (OwnerSpec_Name e)) rest
    ∧ kindAndName <$> rest = entries ≫= appendedFor annotations) as H
    by apply (H [primaryOwner sched σ t]).
  induction entries as [|[a kind] entries IH]; intros owners.
  - exists []. by rewrite app_nil_r.
  - cbn [foldl]. rewrite bind_cons. unfold appendedFor at 1. simpl.
    destruct (annotations !! a) as [val|].
    + destruct (appendOwners_shape sched operations kind owners
                  (Strings.Split val ","%char)) as (rest1 & -> & H1 & S1).
      destruct (IH (owners ++ rest1)) as (rest & -> & H2 & S2).
      exists (rest1 ++ rest). split; [by rewrite app_assoc|].
      split; [by apply Forall_app|]. by rewrite fmap_app, S1, S2.
    + destruct (IH owners) as (rest & -> & H2 & S2). by exists rest.
Qed.

Lemma upgraded_owner_settings sched σ t e :
  let operations :=
    decodeOperations sched (metav1.GetAnnotations σ (v1alpha1.ObjectMeta t)) in
  e ∈ convertV1Alpha1OwnerToV1Beta1 sched σ t →
  ∃ call, ProxyOperations e
          = getProxySettingsForOwner sched operations call (OwnerSpec_Name e).
Proof.
  intros operations He.
  destruct (convertV1Alpha1OwnerToV1Beta1_shape sched σ t) as (rest & E & Hrest & _).
  rewrite E in He. apply elem_of_cons in He as [->|He].
  - by exists 0.
  - by apply (proj1 (Forall_forall _ _) Hrest).
Qed.


(** With one iteration order for the two calls the settings are the same
    list. *)
Lemma same_order_same_settings sched operations c1 c2 name :
  rangeOwnerOperations sched c1 = rangeOwnerOperations sched c2 →
  getProxySettingsForOwner sched operations c1 name
  = getProxySettingsForOwner sched operations c2 name.
Proof. unfold getProxySettingsForOwner. by intros ->. Qed.


(** ** Upgrade: the owners named by the owner-kind annotations *)

Lemma annotationToOwnerKindMap_lookup a kind :
  annotationToOwnerKindMap !! a = Some kind ↔ a = ownerAnnotationOf kind.
Proof.
  split.
  - unfold annotationToOwnerKindMap. intros H%elem_of_list_to_map_2.
    rewrite !elem_of_cons in H.
    destruct H as [[= -> ->]|[[= -> ->]|[[= -> ->]|H]]]; try done.
    by apply elem_of_nil in H.
  - intros ->. by destruct kind.
Qed.



Lemma bind_bind {A B C} (f : A → list B) (g : B → list C) (l : list A) :
  (l ≫= f) ≫= g = l ≫= λ x, f x ≫= g.
Proof.
  induction l as [|x l IH]; [done|]. by rewrite !bind_cons, bind_app, IH.
Qed.

Lemma names_of_kind kind (owners : list OwnerSpec) :
  OwnerSpec_Name <$> filter (λ e, OwnerSpec_Kind e = kind) owners
  = (kindAndName <$> owners) ≫= λ p, if bool_decide (p.1 = kind) then [p.2] else [].
Proof.
  induction owners as [|e owners IH]; [done|].
  rewrite filter_cons, fmap_cons, bind_cons. simpl.
  case_decide; case_bool_decide; try done. by rewrite fmap_cons, IH.
Qed.

(** The names of the entries of a kind, after the first entry, are the
    comma-separated fields of the annotation of that kind, in order. *)
Lemma upgraded_names_of_kind sched σ t kind :
  let annotations := metav1.GetAnnotations σ (v1alpha1.ObjectMeta t) in
  OwnerSpec_Name
    <$> filter (λ e, OwnerSpec_Kind e = kind)
          (tail (convertV1Alpha1OwnerToV1Beta1 sched σ t))
  = match annotations !! ownerAnnotationOf kind with
    | Some val => Strings.Split val ","%char
    | None => []
    end.
Proof.
  intros annotations.
  destruct (convertV1Alpha1OwnerToV1Beta1_shape sched σ t) as (rest & E & _ & Hskel).
  rewrite E. cbn [tail]. rewrite names_of_kind, Hskel, bind_bind.
  rewrite (bind_single _ _ (ownerAnnotationOf kind, kind)).
  - unfold appendedFor. simpl. fold annotations.
    destruct (annotations !! ownerAnnotationOf kind) as [val|]; [|done].
    induction (Strings.Split val ","%char) as [|n ns IH]; [done|].
    rewrite fmap_cons, bind_cons, IH. simpl. by rewrite bool_decide_eq_true_2.
  - eapply NoDup_fmap_1, go_range_NoDup_keys.
  - by apply go_range_elem_of, annotationToOwnerKindMap_lookup.
  - intros [a kind'] Hin Hne.
    apply go_range_elem_of, annotationToOwnerKindMap_lookup in Hin as ->.
    assert (kind' ≠ kind) as Hk by (by intros ->).
    unfold appendedFor. simpl. fold annotations.
    destruct (annotations !! ownerAnnotationOf kind') as [val|]; [|done].
    induction (Strings.Split val ","%char) as [|n ns IH]; [done|].
    rewrite fmap_cons, bind_cons, IH. simpl. by rewrite bool_decide_eq_false_2.
Qed.

(** C7, as amended.  An owner-kind annotation that holds the empty string
    makes the upgrade append one owner entry of that kind, whose name is the
    empty string. *)
Theorem upgrade_empty_owner_annotation sched σ t kind :
  metav1.GetAnnotations σ (v1alpha1.ObjectMeta t) !! ownerAnnotationOf kind = Some EmptyString →
  OwnerSpec_Name
    <$> filter (λ e, OwnerSpec_Kind e = kind)
          (tail (convertV1Alpha1OwnerToV1Beta1 sched σ t))
  = [EmptyString].
Proof. intros H. by rewrite upgraded_names_of_kind, H. Qed.

Lemma upgrade_empty_owner_annotation_witness :
  OwnerSpec_Name
    <$> filter (λ e, OwnerSpec_Kind e = GroupOwner)
          (tail (convertV1Alpha1OwnerToV1Beta1 reordered
                   (sampleStore [(ownerGroupsAnnotation, EmptyString)]) sampleUpgradeLegacy))
  = [EmptyString].
Proof.
  apply (upgrade_empty_owner_annotation reordered
           (sampleStore [(ownerGroupsAnnotation, EmptyString)]) sampleUpgradeLegacy GroupOwner).
  reflexivity.
Defined.

(** C7, as stated, fails: with the group annotation present and empty the
    upgraded list has a second entry, a group whose name is the empty string;
    without the annotation it has the primary owner only. *)
Lemma upgrade_empty_annotation_is_not_absent :
  convertV1Alpha1OwnerToV1Beta1 in_order
    (sampleStore [(ownerGroupsAnnotation, EmptyString)]) sampleUpgradeLegacy
  = [ {| OwnerSpec_Kind := UserOwner; OwnerSpec_Name := "alice"; ProxyOperations := [] |};
      {| OwnerSpec_Kind := GroupOwner; OwnerSpec_Name := EmptyString; ProxyOperations := [] |} ]
  ∧ convertV1Alpha1OwnerToV1Beta1 in_order (sampleStore []) sampleUpgradeLegacy
    = [ {| OwnerSpec_Kind := UserOwner; OwnerSpec_Name := "alice"; ProxyOperations := [] |} ].
Proof. split; reflexivity. Qed.



(** In the sample bob is named by the node-listing annotation. *)
Lemma sample_bob_is_named :
  metav1.GetAnnotations sampleUpgradeStore (v1alpha1.ObjectMeta sampleUpgradeLegacy)
    !! enableNodeListingAnnotation = Some "alice,bob,alice"
  ∧ "bob" ∈ Strings.Split "alice,bob,alice" ","%char.
Proof. split; [reflexivity|]. by apply (bool_decide_unpack _); vm_compute. Qed.

(** ** Upgrade: repeated names *)

Lemma occurrences_app {A} `{EqDecision A} (x : A) (l1 l2 : list A) :
  occurrences x (l1 ++ l2) = occurrences x l1 + occurrences x l2.
Proof. unfold occurrences. by rewrite filter_app, length_app. Qed.

Lemma occurrences_cons {A} `{EqDecision A} (x y : A) (l : list A) :
  occurrences x (y :: l) = (if bool_decide (y = x) then 1 else 0) + occurrences x l.
Proof.
  unfold occurrences. rewrite filter_cons. by case_decide; case_bool_decide.
Qed.

Lemma occurrences_grant (op op' : ProxyOperation) (name : string) (fields : list string) :
  occurrences op (owner ← fields; if bool_decide (owner = name) then [op'] else [])
  = if bool_decide (op' = op) then occurrences name fields else 0.
Proof.
  induction fields as [|o fields IH].
  - by case_bool_decide.
  - rewrite bind_cons, occurrences_app, IH, occurrences_cons.
    destruct (bool_decide (o = name)).
    + rewrite occurrences_cons. by repeat case_bool_decide.
    + by case_bool_decide.
Qed.

Lemma occurrences_decoded annotations name kind op :
  occurrences op (decoded annotations name kind)
  = match annotations !! proxyAnnotationOf kind op with
    | Some val => occurrences name (Strings.Split val ","%char)
    | None => 0
    end.
Proof.
  unfold decoded, allOperations. rewrite !bind_cons, !occurrences_app.
  assert (∀ op', occurrences op
            match annotations !! proxyAnnotationOf kind op' with
            | Some val =>
                owner ← Strings.Split val ","%char;
                if bool_decide (owner = name) then [op'] else []
            | None => []
            end
          = if bool_decide (op' = op)
            then match annotations !! proxyAnnotationOf kind op with
                 | Some val => occurrences name (Strings.Split val ","%char)
                 | None => 0
                 end
            else 0) as H.
  { intros op'. case_bool_decide as Hop.
    - subst op'. destruct (annotations !! proxyAnnotationOf kind op); [|done].
      by rewrite occurrences_grant, bool_decide_eq_true_2.
    - destruct (annotations !! proxyAnnotationOf kind op'); [|done].
      by rewrite occurrences_grant, bool_decide_eq_false_2. }
  rewrite !H. change (occurrences op ([] ≫= _)) with 0.
  destruct op; repeat case_bool_decide; try done; lia.
Qed.

(** C6, as amended.  The operations of an upgraded owner entry are appended,
    not collected in a set: for each service kind the entry holds an
    operation as many times as the owner's name occurs in the comma list of
    that operation's annotation. *)
Theorem upgrade_appends_operations sched σ t i e kind op val :
  let annotations := metav1.GetAnnotations σ (v1alpha1.ObjectMeta t) in
  convertV1Alpha1OwnerToV1Beta1 sched σ t !! i = Some e →
  annotations !! proxyAnnotationOf kind op = Some val →
  occurrences op (default [] (settingsTable (ProxyOperations e) !! kind))
  = occurrences (OwnerSpec_Name e) (Strings.Split val ","%char).
Proof.
  intros annotations He%list_elem_of_lookup_2 Hval.
  apply upgraded_owner_settings in He as [call ->].
  rewrite settingsTable_granted, decodeOperations_granted, occurrences_decoded.
  fold annotations. by rewrite Hval.
Qed.

Lemma upgrade_appends_operations_witness :
  occurrences ListOperation (default [] (settingsTable aliceSettings !! NodesProxy))
  = occurrences "alice" (Strings.Split "alice,bob,alice" ","%char).
Proof.
  apply (upgrade_appends_operations reordered sampleUpgradeStore sampleUpgradeLegacy 1
           {| OwnerSpec_Kind := GroupOwner; OwnerSpec_Name := "alice";
              ProxyOperations := aliceSettings |} NodesProxy ListOperation
           "alice,bob,alice");
    reflexivity.
Defined.

(** C6, as stated, fails: alice occurs twice in the node-listing annotation
    and the upgraded entry holds the list operation twice. *)
Lemma upgrade_repeats_operation :
  metav1.GetAnnotations sampleUpgradeStore (v1alpha1.ObjectMeta sampleUpgradeLegacy)
    !! enableNodeListingAnnotation = Some "alice,bob,alice"
  ∧ convertV1Alpha1OwnerToV1Beta1 in_order sampleUpgradeStore sampleUpgradeLegacy !! 0
    = Some {| OwnerSpec_Kind := UserOwner; OwnerSpec_Name := "alice";
              ProxyOperations :=
                [ {| ProxySettings_Kind := StorageClassesProxy;
                     Operations := [UpdateOperation] |};
                  {| ProxySettings_Kind := NodesProxy;
                     Operations := [ListOperation; ListOperation] |} ] |}
  ∧ ¬ NoDup [ListOperation; ListOperation].
Proof.
  split; [reflexivity|]. split; [reflexivity|].
  intros H. apply NoDup_cons in H as [H _]. apply H. left.
Qed.

(** ** Round trip of the permissions *)

Lemma elem_of_decoded annotations name kind op :
  op ∈ decoded annotations name kind
  ↔ ∃ val, annotations !! proxyAnnotationOf kind op = Some val
           ∧ name ∈ Strings.Split val ","%char.
Proof.
  unfold decoded. rewrite list_elem_of_bind. split.
  - intros (op' & Hop & _).
    destruct (annotations !! proxyAnnotationOf kind op') as [val|] eqn:Hval;
      [|by apply elem_of_nil in Hop].
    apply list_elem_of_bind in Hop as (o & Hop & Ho).
    case_bool_decide; [|by apply elem_of_nil in Hop].
    apply list_elem_of_singleton in Hop. subst. eauto.
  - intros (val & Hval & Hn). exists op. split; [|by destruct op; set_solver].
    rewrite Hval. apply list_elem_of_bind. exists name. split; [|done].
    rewrite bool_decide_eq_true_2 by done. left.
Qed.

Lemma elem_of_holders name kind op owners :
  name ∈ holders kind op owners
  ↔ ∃ o, o ∈ owners ∧ OwnerSpec_Name o = name ∧ hasPermission o kind op.
Proof.
  rewrite <- holdersAt_proxyAnnotationOf, elem_of_holdersAt. unfold hasPermission. split.
  - intros (o & s & op' & Ho & Hs & Hop & [<- ->]%proxyAnnotationOf_inj & ->).
    exists o. split; [done|]. split; [done|]. by exists s.
  - intros (o & Ho & <- & s & Hs & <- & Hop). by exists o, s, op.
Qed.

Lemma elem_of_ownersOfKind name kind owners :
  name ∈ ownersOfKind kind owners
  ↔ ∃ o, o ∈ owners ∧ OwnerSpec_Kind o = kind ∧ OwnerSpec_Name o = name.
Proof.
  unfold ownersOfKind. rewrite list_elem_of_fmap. split.
  - intros (o & -> & [Hk Ho]%list_elem_of_filter). by exists o.
  - intros (o & Ho & Hk & <-). exists o. split; [done|]. by apply list_elem_of_filter.
Qed.

Lemma NoDup_fmap_eq {A B} (f : A → B) (l : list A) x y :
  NoDup (f <$> l) → x ∈ l → y ∈ l → f x = f y → x = y.
Proof.
  induction l as [|z l IH]; [by intros _ ?%elem_of_nil|].
  rewrite fmap_cons. intros [Hz Hnd]%NoDup_cons.
  intros [->|Hx]%elem_of_cons [->|Hy]%elem_of_cons Hf; [done| | |by apply IH].
  - exfalso. apply Hz. rewrite Hf. by apply list_elem_of_fmap_2.
  - exfalso. apply Hz. rewrite <- Hf. by apply list_elem_of_fmap_2.
Qed.

Lemma proxyAnnotationOf_permission kind op :
  proxyAnnotationOf kind op ∈ permissionAnnotations ++ ownerKindAnnotations.
Proof. destruct kind, op; by apply (bool_decide_unpack _); vm_compute. Qed.

Lemma ownerAnnotationOf_ownerKind kind :
  ownerAnnotationOf kind ∈ permissionAnnotations ++ ownerKindAnnotations.
Proof. destruct kind; by apply (bool_decide_unpack _); vm_compute. Qed.

Section round_trip.
Variables (owners : OwnerListSpec) (a0 a1 : gmap string string).

Hypothesis encoded : ∀ k,
  a1 !! k = match holdersAt k owners with
            | (_ :: _) as v => Some (Strings.Join v ",")
            | [] =>
                match ownersAt k (tail owners) with
                | (_ :: _) as v => Some (Strings.Join v ",")
                | [] => a0 !! k
                end
            end.
Hypothesis fresh_keys :
  Forall (λ k, a0 !! k = None) (permissionAnnotations ++ ownerKindAnnotations).
Hypothesis distinct_names : NoDup (OwnerSpec_Name <$> owners).
Hypothesis no_comma :
  Forall (λ o, Strings.Contains (OwnerSpec_Name o) ","%char = false) owners.

Lemma holders_no_comma kind op :
  Forall (λ s, Strings.Contains s ","%char = false) (holders kind op owners).
Proof.
  apply Forall_forall. intros n (o & Ho & <- & _)%elem_of_holders.
  by apply (proj1 (Forall_forall _ _) no_comma).
Qed.

Lemma ownersOfKind_no_comma kind :
  Forall (λ s, Strings.Contains s ","%char = false) (ownersOfKind kind (tail owners)).
Proof.
  apply Forall_forall. intros n (o & Ho & _ & <-)%elem_of_ownersOfKind.
  apply (proj1 (Forall_forall _ _) no_comma).
  destruct owners; [done|]. by right.
Qed.

(** The owner-kind annotations decode to the owners after the first. *)
Lemma encoded_owner_names kind :
  match a1 !! ownerAnnotationOf kind with
  | Some val => Strings.Split val ","%char
  | None => []
  end = ownersOfKind kind (tail owners).
Proof.
  rewrite encoded, holdersAt_other
    by (intros k op H; by apply proxyAnnotationOf_not_owner in H).
  rewrite ownersAt_ownerAnnotationOf.
  pose proof (ownersOfKind_no_comma kind) as Hc.
  destruct (ownersOfKind kind (tail owners)) as [|n ns] eqn:E.
  - by rewrite (proj1 (Forall_forall _ _) fresh_keys _ (ownerAnnotationOf_ownerKind kind)).
  - by apply Split_Join.
Qed.

(** The permission annotations decode, for the name of an owner, to the
    permissions of that owner. *)
Lemma encoded_permissions o kind op :
  o ∈ owners →
  op ∈ decoded a1 (OwnerSpec_Name o) kind ↔ hasPermission o kind op.
Proof.
  intros Ho. rewrite elem_of_decoded, encoded, holdersAt_proxyAnnotationOf.
  pose proof (holders_no_comma kind op) as Hc.
  pose proof (elem_of_holders (OwnerSpec_Name o) kind op owners) as Hh.
  destruct (holders kind op owners) as [|n ns] eqn:E.
  - rewrite ownersAt_other
      by (intros k H; symmetry in H; by apply proxyAnnotationOf_not_owner in H).
    rewrite (proj1 (Forall_forall _ _) fresh_keys _ (proxyAnnotationOf_permission kind op)).
    split; [by intros (? & ? & _)|].
    intros Hp. exfalso. eapply elem_of_nil, Hh. by exists o.
  - split.
    + intros (val & Hval & Hn).
      assert (val = Strings.Join (n :: ns) ",") as -> by congruence.
      rewrite Split_Join in Hn by done.
      apply Hh in Hn as (o' & Ho' & Hname & Hp).
      by rewrite <- (NoDup_fmap_eq OwnerSpec_Name owners o' o).
    + intros Hp. eexists. split; [done|]. rewrite Split_Join by done.
      apply Hh. by exists o.
Qed.
End round_trip.

(** C1, as amended.  When the names of all the owners, the first included,
    are pairwise distinct and hold no comma, and the receiver's metadata has
    none of the owner and permission annotations beforehand, every owner
    after the first comes back from decoding the encoded annotations: with
    its kind, its name and exactly its set of permission pairs, whatever the
    iteration orders of the encoding and of the decoding; and the decoded
    owners of each kind are exactly those that were encoded. *)
Theorem permission_round_trip enc dec t src σ l :
  let owners := Owners (Spec src) in
  metav1.Annotations (v1alpha1.ObjectMeta t) = Some l →
  Forall (λ k, metav1.GetAnnotations σ (v1alpha1.ObjectMeta t) !! k = None)
    (permissionAnnotations ++ ownerKindAnnotations) →
  NoDup (OwnerSpec_Name <$> owners) →
  Forall (λ o, Strings.Contains (OwnerSpec_Name o) ","%char = false) owners →
  ∃ σ' t',
    convertV1Beta1OwnerToV1Alpha1 enc t src σ = Returned (σ', t')
    ∧ (∀ o, o ∈ tail owners →
         ∃ o', o' ∈ tail (convertV1Alpha1OwnerToV1Beta1 dec σ' t')
               ∧ kindAndName o' = kindAndName o
               ∧ ∀ kind op, hasPermission o' kind op ↔ hasPermission o kind op)
    ∧ (∀ kind,
         OwnerSpec_Name
           <$> filter (λ e, OwnerSpec_Kind e = kind)
                 (tail (convertV1Alpha1OwnerToV1Beta1 dec σ' t'))
         = ownersOfKind kind (tail owners)).
Proof.
  intros owners Hl Hfresh Hnd Hcomma.
  destruct (convertV1Beta1OwnerToV1Alpha1_annotations enc t src σ l Hl)
    as (σ' & t' & E & Hmeta & _ & Hlook).
  exists σ', t'. split; [done|].
  set (a1 := metav1.GetAnnotations σ' (v1alpha1.ObjectMeta t')).
  assert (∀ kind,
    OwnerSpec_Name
      <$> filter (λ e, OwnerSpec_Kind e = kind)
            (tail (convertV1Alpha1OwnerToV1Beta1 dec σ' t'))
    = ownersOfKind kind (tail owners)) as Hkinds.
  { intros kind. rewrite upgraded_names_of_kind. rewrite Hmeta.
    by eapply encoded_owner_names. }
  split; [|done].
  intros o Ho.
  assert (o ∈ owners) as Ho' by (destruct owners; [done|by right]).
  assert (OwnerSpec_Name o ∈ ownersOfKind (OwnerSpec_Kind o) (tail owners)) as Hn
    by (apply elem_of_ownersOfKind; by exists o).
  rewrite <- Hkinds in Hn.
  apply list_elem_of_fmap in Hn as (o' & Hname & [Hkind Hin]%list_elem_of_filter).
  exists o'. split; [done|]. split; [unfold kindAndName; congruence|].
  intros kind op.
  assert (o' ∈ convertV1Alpha1OwnerToV1Beta1 dec σ' t') as Hin'.
  { destruct (convertV1Alpha1OwnerToV1Beta1 dec σ' t'); [done|by right]. }
  apply upgraded_owner_settings in Hin' as (call & Hsettings).
  unfold hasPermission at 1. rewrite Hsettings.
  rewrite getProxySettingsForOwner_granted, decodeOperations_granted.
  rewrite Hmeta, <- Hname. by eapply encoded_permissions.
Qed.

Lemma permission_round_trip_witness :
  ∃ σ' t',
    convertV1Beta1OwnerToV1Alpha1 reordered emptyLegacy (sampleTenant sampleOwners None)
      (sampleStore []) = Returned (σ', t')
    ∧ (∀ o, o ∈ tail sampleOwners →
         ∃ o', o' ∈ tail (convertV1Alpha1OwnerToV1Beta1 in_order σ' t')
               ∧ kindAndName o' = kindAndName o
               ∧ ∀ kind op, hasPermission o' kind op ↔ hasPermission o kind op)
    ∧ (∀ kind,
         OwnerSpec_Name
           <$> filter (λ e, OwnerSpec_Kind e = kind)
                 (tail (convertV1Alpha1OwnerToV1Beta1 in_order σ' t'))
         = ownersOfKind kind (tail sampleOwners)).
Proof.
  apply (permission_round_trip reordered in_order emptyLegacy
           (sampleTenant sampleOwners None) (sampleStore []) 1%positive).
  - reflexivity.
  - apply (bool_decide_unpack _). vm_compute. exact I.
  - apply (bool_decide_unpack _). vm_compute. exact I.
  - apply (bool_decide_unpack _). vm_compute. exact I.
Defined.

(** C1, as stated, fails.  The names of the owners after the first are
    pairwise distinct, but the first owner shares its name with the second:
    the second owner, a group that has no permission, comes back with the
    node-listing permission of the first. *)
Lemma round_trip_fails_on_primary_name :
  NoDup (OwnerSpec_Name <$> tail clashingOwners)
  ∧ ProxyOperations <$> tail clashingOwners = [[]]
  ∧ ∃ σ' t',
      convertV1Beta1OwnerToV1Alpha1 in_order emptyLegacy (sampleTenant clashingOwners None)
        (sampleStore []) = Returned (σ', t')
      ∧ tail (convertV1Alpha1OwnerToV1Beta1 in_order σ' t')
        = [ {| OwnerSpec_Kind := GroupOwner; OwnerSpec_Name := "a";
               ProxyOperations :=
                 [ {| ProxySettings_Kind := NodesProxy;
                      Operations := [ListOperation] |} ] |} ].
Proof.
  split; [by apply (bool_decide_unpack _); vm_compute|].
  split; [reflexivity|]. by eexists _, _.
Qed.

(** It fails as well on a name that holds a comma: the group dev,ops comes
    back as the two groups dev and ops. *)
Lemma round_trip_fails_on_comma :
  ∃ σ' t',
    convertV1Beta1OwnerToV1Alpha1 in_order emptyLegacy (sampleTenant commaOwners None)
      (sampleStore []) = Returned (σ', t')
    ∧ kindAndName <$> tail (convertV1Alpha1OwnerToV1Beta1 in_order σ' t')
      = [(GroupOwner, "dev"); (GroupOwner, "ops")].
Proof. by eexists _, _. Qed.


(** Nor does it hold when the receiver's metadata already has one of the
    annotations: no owner may update nodes, the node-update annotation is
    not rewritten, and b comes back with the permission it names. *)
Lemma round_trip_fails_on_stale_annotation :
  holders NodesProxy UpdateOperation sampleOwners = []
  ∧ ∃ σ' t',
      convertV1Beta1OwnerToV1Alpha1 in_order emptyLegacy (sampleTenant sampleOwners None)
        staleStore = Returned (σ', t')
      ∧ convertV1Alpha1OwnerToV1Beta1 in_order σ' t' !! 1
        = Some {| OwnerSpec_Kind := GroupOwner; OwnerSpec_Name := "b";
                  ProxyOperations :=
                    [ {| ProxySettings_Kind := NodesProxy;
                         Operations := [ListOperation; UpdateOperation] |} ] |}.
Proof. split; [reflexivity|]. by eexists _, _. Qed.

(** ** The examples of the specification *)

(** The owners alice, a user that may list and update nodes, and teamA, a
    group that may list nodes, downgrade to the primary owner alice and the
    three annotations of the example. *)
Example downgrade_example :
  let owners := [
    {| OwnerSpec_Kind := UserOwner; OwnerSpec_Name := "alice";
       ProxyOperations :=
         [ {| ProxySettings_Kind := NodesProxy;
              Operations := [ListOperation; UpdateOperation] |} ] |};
    {| OwnerSpec_Kind := GroupOwner; OwnerSpec_Name := "teamA";
       ProxyOperations :=
         [ {| ProxySettings_Kind := NodesProxy; Operations := [ListOperation] |} ] |} ] in
  ∃ σ' t',
    ConvertFrom in_order zeroLegacy (sampleTenant owners None) ∅ = Returned (σ', t', None)
    ∧ v1alpha1.Owner (v1alpha1.Spec t')
      = {| v1alpha1.OwnerSpec_Name := "alice"; v1alpha1.OwnerSpec_Kind := UserOwner |}
    ∧ map_to_list (metav1.GetAnnotations σ' (v1alpha1.ObjectMeta t'))
      ≡ₚ [ (ownerGroupsAnnotation, "teamA");
           (enableNodeListingAnnotation, "alice,teamA");
           (enableNodeUpdateAnnotation, "alice") ].
Proof.
  eexists _, _. split; [reflexivity|]. split; [reflexivity|].
  vm_compute. apply Permutation_skip, Permutation_swap.
Qed.

(** A group annotation naming teamA and teamB upgrades to the two group
    owners, and the annotation is gone from the destination. *)
Example upgrade_example :
  let σ := sampleStore [(ownerGroupsAnnotation, "teamA,teamB")] in
  let r := ConvertTo in_order sampleUpgradeLegacy zeroTenant σ in
  r.2 = None
  ∧ kindAndName <$> Owners (Spec r.1.2)
    = [(UserOwner, "alice"); (GroupOwner, "teamA"); (GroupOwner, "teamB")]
  ∧ metav1.GetAnnotations r.1.1 (ObjectMeta r.1.2) !! ownerGroupsAnnotation = None.
Proof. repeat split; reflexivity. Qed.

(** The scope of an upgraded resource quota: Tenant unless the annotation
    says Namespace. *)
Example scope_default :
  resourceQuotaScopeOf ∅ = ResourceQuotaScopeTenant
  ∧ resourceQuotaScopeOf {[ resourceQuotaScopeAnnotation := "bogus" ]}
    = ResourceQuotaScopeTenant
  ∧ resourceQuotaScopeOf {[ resourceQuotaScopeAnnotation := "Namespace" ]}
    = ResourceQuotaScopeNamespace.
Proof. repeat split; reflexivity. Qed.

(** * Further properties *)

(** ** Upgrade: the fields of the destination *)

Lemma foldl_snoc_map {A B} (f : A → B) (l : list A) (acc : list B) :
  foldl (λ acc x, acc ++ [f x]) acc l = acc ++ (f <$> l).
Proof.
  revert acc. induction l as [|x l IH]; intros acc; simpl; [by rewrite app_nil_r|].
  by rewrite IH, <- app_assoc.
Qed.

(** What [ConvertTo] has assigned when it returns, with an error or with
    nil: the metadata, the owners and the direct fields are assigned before
    the booleans are parsed. *)
Lemma ConvertTo_fields sched t dst σ :
  let annotations := metav1.GetAnnotations σ (v1alpha1.ObjectMeta t) in
  let tSpec := v1alpha1.Spec t in
  let r := (ConvertTo sched t dst σ).1.2 in
  NamespaceQuota (Spec r) = v1alpha1.NamespaceQuota tSpec
  ∧ NodeSelector (Spec r) = v1alpha1.NodeSelector tSpec
  ∧ NamespacesMetadata (Spec r)
    = match v1alpha1.NamespacesMetadata tSpec with
      | Some md => Some {| AdditionalLabels := v1alpha1.AdditionalLabels md;
                           AdditionalAnnotations := v1alpha1.AdditionalAnnotations md |}
      | None => NamespacesMetadata (Spec dst)
      end
  ∧ StorageClasses (Spec r)
    = match v1alpha1.StorageClasses tSpec with
      | Some l => Some (convertAllowedList l) | None => StorageClasses (Spec dst)
      end
  ∧ IngressClasses (Spec r)
    = match v1alpha1.IngressClasses tSpec with
      | Some l => Some (convertAllowedList l) | None => IngressClasses (Spec dst)
      end
  ∧ IngressHostnames (Spec r)
    = match v1alpha1.IngressHostnames tSpec with
      | Some l => Some (convertAllowedList l) | None => IngressHostnames (Spec dst)
      end
  ∧ ContainerRegistries (Spec r)
    = match v1alpha1.ContainerRegistries tSpec with
      | Some l => Some (convertAllowedList l) | None => ContainerRegistries (Spec dst)
      end
  ∧ NetworkPolicies (Spec r)
    = match v1alpha1.NetworkPolicies tSpec with
      | [] => NetworkPolicies (Spec dst)
      | items => Some {| NetworkPolicySpec_Items := items |}
      end
  ∧ LimitRanges (Spec r)
    = match v1alpha1.LimitRanges tSpec with
      | [] => LimitRanges (Spec dst)
      | items => Some {| LimitRangesSpec_Items := items |}
      end
  ∧ ResourceQuota (Spec r)
    = match v1alpha1.ResourceQuota tSpec with
      | [] => ResourceQuota (Spec dst)
      | items => Some {| Scope := resourceQuotaScopeOf annotations;
                         ResourceQuotaSpec_Items := items |}
      end
  ∧ AdditionalRoleBindings (Spec r)
    = AdditionalRoleBindings (Spec dst)
      ++ ((λ rb, {| ClusterRoleName := v1alpha1.ClusterRoleName rb;
                    Subjects := v1alpha1.Subjects rb |})
            <$> v1alpha1.AdditionalRoleBindings tSpec)
  ∧ ExternalServiceIPs (Spec r)
    = match v1alpha1.ExternalServiceIPs tSpec with
      | Some ips => Some {| Allowed := v1alpha1.Allowed ips |}
      | None => ExternalServiceIPs (Spec dst)
      end
  ∧ ImagePullPolicies (Spec r)
    = ImagePullPolicies (Spec dst)
      ++ match annotations !! podAllowedImagePullPolicyAnnotation with
         | Some pullPolicies => Strings.Split pullPolicies ","%char
         | None => []
         end
  ∧ PriorityClasses (Spec r)
    = match annotations !! podPriorityAllowedAnnotation,
            annotations !! podPriorityAllowedRegexAnnotation with
      | Some allowed, Some regex =>
          Some {| Exact := Strings.Split allowed ","%char; Regex := regex |}
      | Some allowed, None =>
          Some {| Exact := Strings.Split allowed ","%char; Regex := EmptyString |}
      | None, Some regex =>
          if bool_decide (regex = EmptyString) then PriorityClasses (Spec dst)
          else Some {| Exact := []; Regex := regex |}
      | None, None => PriorityClasses (Spec dst)
      end.
Proof.
  intros annotations tSpec r. subst r. unfold ConvertTo. fold annotations tSpec.
  destruct (annotations !! enableNodePortsAnnotation) as [v1|];
    [destruct (Strconv.ParseBool v1) as [b1|e1]|];
    (destruct (annotations !! enableExternalNameAnnotation) as [v2|];
      [destruct (Strconv.ParseBool v2) as [b2|e2]|]);
    cbn [fst snd Spec NamespaceQuota NodeSelector NamespacesMetadata StorageClasses
         IngressClasses IngressHostnames ContainerRegistries NetworkPolicies
         LimitRanges ResourceQuota AdditionalRoleBindings ExternalServiceIPs
         ImagePullPolicies PriorityClasses];
    (repeat split; try reflexivity;
     [ by destruct (v1alpha1.NetworkPolicies tSpec)
     | by destruct (v1alpha1.LimitRanges tSpec)
     | by destruct (v1alpha1.ResourceQuota tSpec)
     | by destruct (v1alpha1.AdditionalRoleBindings tSpec);
         [rewrite app_nil_r|rewrite foldl_snoc_map]
     | by destruct (v1alpha1.ExternalServiceIPs tSpec); [rewrite list_fmap_id|]
     | by destruct (annotations !! podAllowedImagePullPolicyAnnotation);
         [rewrite foldl_snoc_id|rewrite app_nil_r]
     | unfold AllowedListSpec_IsZero; cbn [Exact Regex];
       destruct (annotations !! podPriorityAllowedAnnotation) as [a|];
         [pose proof (Split_nonempty a ","%char);
          destruct (Strings.Split a ","%char); [done|]|];
         destruct (annotations !! podPriorityAllowedRegexAnnotation) as [rx|];
         try reflexivity; by case_bool_decide ]).
Qed.

Lemma ConvertTo_Status sched t dst σ :
  Status (ConvertTo sched t dst σ).1.2
  = match (ConvertTo sched t dst σ).2 with
    | None => {| Size := v1alpha1.Size (v1alpha1.Status t);
                 Namespaces := v1alpha1.Namespaces (v1alpha1.Status t) |}
    | Some _ => Status dst
    end.
Proof.
  unfold ConvertTo.
  set (annotations := metav1.GetAnnotations σ (v1alpha1.ObjectMeta t)).
  destruct (annotations !! enableNodePortsAnnotation) as [v1|];
    [destruct (Strconv.ParseBool v1) as [b1|e1]|];
    (destruct (annotations !! enableExternalNameAnnotation) as [v2|];
      [destruct (Strconv.ParseBool v2) as [b2|e2]|]);
    reflexivity.
Qed.

Lemma ConvertTo_ServiceOptions sched t dst σ :
  let annotations := metav1.GetAnnotations σ (v1alpha1.ObjectMeta t) in
  let r := ConvertTo sched t dst σ in
  ServiceOptions_ (Spec r.1.2) ≫= AdditionalMetadata
  = serviceOptionsBeforeBooleans t dst ≫= AdditionalMetadata
  ∧ (r.2 = None →
     annotations !! enableNodePortsAnnotation = None →
     annotations !! enableExternalNameAnnotation = None →
     ServiceOptions_ (Spec r.1.2) = serviceOptionsBeforeBooleans t dst)
  ∧ (r.2 = None →
     annotations !! enableNodePortsAnnotation = None →
     allowedNodePort r.1.2
     = (so ← serviceOptionsBeforeBooleans t dst; a ← AllowedServices_ so; NodePort a))
  ∧ (r.2 = None →
     annotations !! enableExternalNameAnnotation = None →
     allowedExternalName r.1.2
     = (so ← serviceOptionsBeforeBooleans t dst; a ← AllowedServices_ so; ExternalName a)).
Proof.
  intros annotations r. subst r. unfold ConvertTo. fold annotations.
  fold (serviceOptionsBeforeBooleans t dst).
  unfold allowedNodePort, allowedExternalName.
  destruct (annotations !! enableNodePortsAnnotation) as [v1|];
    [destruct (Strconv.ParseBool v1) as [b1|e1]|];
    (destruct (annotations !! enableExternalNameAnnotation) as [v2|];
      [destruct (Strconv.ParseBool v2) as [b2|e2]|]);
    cbn [fst snd Spec ServiceOptions_];
    (split; [|split; [|split]]); try done;
    destruct (serviceOptionsBeforeBooleans t dst) as [[md [[np en]|]]|]; done.
Qed.

(** ** Downgrade: the fields of the receiver *)

Lemma outcome_bind_Returned {A B} (x : outcome A) (f : A → outcome B) y :
  outcome_bind x f = Returned y → ∃ a, x = Returned a ∧ f a = Returned y.
Proof. destruct x as [a|]; [|done]. intros H. by exists a. Qed.

Lemma convertV1Beta1OwnerToV1Alpha1_tenant sched t src σ σ' t' :
  convertV1Beta1OwnerToV1Alpha1 sched t src σ = Returned (σ', t') →
  v1alpha1.ObjectMeta t' = v1alpha1.ObjectMeta t
  ∧ v1alpha1.Status t' = v1alpha1.Status t
  ∧ v1alpha1.Owner (v1alpha1.Spec t')
    = match Owners (Spec src) with
      | [] => v1alpha1.Owner (v1alpha1.Spec t)
      | o :: _ => {| v1alpha1.OwnerSpec_Name := OwnerSpec_Name o;
                     v1alpha1.OwnerSpec_Kind := OwnerSpec_Kind o |}
      end.
Proof.
  unfold convertV1Beta1OwnerToV1Alpha1.
  intros (σ1 & _ & (σ2 & _ & [= _ <-])%outcome_bind_Returned)%outcome_bind_Returned.
  split; [done|]. split; [done|]. simpl. by rewrite rangeOwners_Owner.
Qed.

(** What [ConvertFrom] has assigned when it returns. *)
Lemma ConvertFrom_fields sched t src σ σ' t' err :
  let srcSpec := Spec src in
  let tSpec := v1alpha1.Spec t in
  ConvertFrom sched t src σ = Returned (σ', t', err) →
  err = None
  ∧ metav1.Name (v1alpha1.ObjectMeta t') = metav1.Name (ObjectMeta src)
  ∧ metav1.Labels (v1alpha1.ObjectMeta t') = metav1.Labels (ObjectMeta src)
  ∧ metav1.Annotations (v1alpha1.ObjectMeta t')
    = match metav1.Annotations (ObjectMeta src) with
      | Some l => Some l
      | None => Some (fresh (dom σ))
      end
  ∧ v1alpha1.Owner (v1alpha1.Spec t')
    = match Owners srcSpec with
      | [] => v1alpha1.Owner tSpec
      | o :: _ => {| v1alpha1.OwnerSpec_Name := OwnerSpec_Name o;
                     v1alpha1.OwnerSpec_Kind := OwnerSpec_Kind o |}
      end
  ∧ v1alpha1.NamespaceQuota (v1alpha1.Spec t') = NamespaceQuota srcSpec
  ∧ v1alpha1.NodeSelector (v1alpha1.Spec t') = NodeSelector srcSpec
  ∧ v1alpha1.NamespacesMetadata (v1alpha1.Spec t')
    = match NamespacesMetadata srcSpec with
      | Some md => Some {| v1alpha1.AdditionalLabels := AdditionalLabels md;
                           v1alpha1.AdditionalAnnotations := AdditionalAnnotations md |}
      | None => v1alpha1.NamespacesMetadata tSpec
      end
  ∧ v1alpha1.ServicesMetadata (v1alpha1.Spec t')
    = match ServiceOptions_ srcSpec ≫= AdditionalMetadata with
      | Some md => Some {| v1alpha1.AdditionalLabels := AdditionalLabels md;
                           v1alpha1.AdditionalAnnotations := AdditionalAnnotations md |}
      | None => v1alpha1.ServicesMetadata tSpec
      end
  ∧ v1alpha1.StorageClasses (v1alpha1.Spec t')
    = match StorageClasses srcSpec with
      | Some l => Some (convertAllowedListBack l) | None => v1alpha1.StorageClasses tSpec
      end
  ∧ v1alpha1.IngressClasses (v1alpha1.Spec t')
    = match IngressClasses srcSpec with
      | Some l => Some (convertAllowedListBack l) | None => v1alpha1.IngressClasses tSpec
      end
  ∧ v1alpha1.IngressHostnames (v1alpha1.Spec t')
    = match IngressHostnames srcSpec with
      | Some l => Some (convertAllowedListBack l) | None => v1alpha1.IngressHostnames tSpec
      end
  ∧ v1alpha1.ContainerRegistries (v1alpha1.Spec t')
    = match ContainerRegistries srcSpec with
      | Some l => Some (convertAllowedListBack l)
      | None => v1alpha1.ContainerRegistries tSpec
      end
  ∧ v1alpha1.NetworkPolicies (v1alpha1.Spec t')
    = match NetworkPolicies srcSpec with
      | Some np => NetworkPolicySpec_Items np | None => v1alpha1.NetworkPolicies tSpec
      end
  ∧ v1alpha1.LimitRanges (v1alpha1.Spec t')
    = match LimitRanges srcSpec with
      | Some lr => LimitRangesSpec_Items lr | None => v1alpha1.LimitRanges tSpec
      end
  ∧ v1alpha1.ResourceQuota (v1alpha1.Spec t')
    = match ResourceQuota srcSpec with
      | Some rq => ResourceQuotaSpec_Items rq | None => v1alpha1.ResourceQuota tSpec
      end
  ∧ v1alpha1.AdditionalRoleBindings (v1alpha1.Spec t')
    = v1alpha1.AdditionalRoleBindings tSpec
      ++ ((λ rb, {| v1alpha1.ClusterRoleName := ClusterRoleName rb;
                    v1alpha1.Subjects := Subjects rb |})
            <$> AdditionalRoleBindings srcSpec)
  ∧ v1alpha1.ExternalServiceIPs (v1alpha1.Spec t')
    = match ExternalServiceIPs srcSpec with
      | Some ips => Some {| v1alpha1.Allowed := Allowed ips |}
      | None => v1alpha1.ExternalServiceIPs tSpec
      end
  ∧ v1alpha1.Status t'
    = {| v1alpha1.Size := Size (Status src);
         v1alpha1.Namespaces := Namespaces (Status src) |}.
Proof.
  intros srcSpec tSpec. unfold ConvertFrom. fold srcSpec tSpec.
  match goal with |- context [let '(a, b) := ?x in _] => destruct x as [meta σ0] eqn:Emeta end.
  intros ([σ1 t1] & E1 & H)%outcome_bind_Returned.
  apply convertV1Beta1OwnerToV1Alpha1_tenant in E1 as (_ & _ & Howner).
  apply outcome_bind_Returned in H as ([σ2 rq] & E2 & H).
  apply outcome_bind_Returned in H as (σ3 & _ & H).
  apply outcome_bind_Returned in H as (σ4 & _ & H).
  apply outcome_bind_Returned in H as (σ5 & _ & H).
  injection H as _ <- <-.
  cbn [v1alpha1.ObjectMeta v1alpha1.Spec v1alpha1.Status v1alpha1.Owner
       v1alpha1.NamespaceQuota v1alpha1.NodeSelector v1alpha1.NamespacesMetadata
       v1alpha1.ServicesMetadata v1alpha1.StorageClasses v1alpha1.IngressClasses
       v1alpha1.IngressHostnames v1alpha1.ContainerRegistries v1alpha1.NetworkPolicies
       v1alpha1.LimitRanges v1alpha1.ResourceQuota v1alpha1.AdditionalRoleBindings
       v1alpha1.ExternalServiceIPs] in *.
  assert (metav1.Name meta = metav1.Name (ObjectMeta src)
          ∧ metav1.Labels meta = metav1.Labels (ObjectMeta src)
          ∧ metav1.Annotations meta
            = match metav1.Annotations (ObjectMeta src) with
              | Some l => Some l
              | None => Some (fresh (dom σ))
              end) as (? & ? & ?).
  { destruct (metav1.Annotations (ObjectMeta src)) eqn:Ea.
    - injection Emeta as <- _. by rewrite Ea.
    - unfold map_make in Emeta. by injection Emeta as <- _. }
  assert (rq = match ResourceQuota srcSpec with
               | Some rq => ResourceQuotaSpec_Items rq
               | None => v1alpha1.ResourceQuota tSpec
               end) as ->.
  { destruct (ResourceQuota srcSpec).
    - apply outcome_bind_Returned in E2 as (? & _ & [= _ <-]). done.
    - by injection E2 as _ <-. }
  repeat split; try done.
  - by destruct (AdditionalRoleBindings srcSpec); [rewrite app_nil_r|rewrite foldl_snoc_map].
  - by destruct (ExternalServiceIPs srcSpec); [rewrite list_fmap_id|].
Qed.

(** ** Downgrade: the annotations of the fields, key by key *)

Local Ltac fieldAnnotations_cases src :=
  unfold fieldAnnotations;
  destruct (ServiceOptions_ (Spec src) ≫= AllowedServices_) as [[[?|] [?|]]|];
  destruct (ResourceQuota (Spec src)) as [?|];
  destruct (ImagePullPolicies (Spec src)) as [|??];
  destruct (PriorityClasses (Spec src)) as [[[|??] ?]|];
  cbn [Exact Regex fmap option_fmap option_map]; repeat case_bool_decide;
  repeat first [ rewrite lookup_insert_eq | rewrite lookup_insert_ne by done ];
  try reflexivity; try congruence.

Lemma fieldAnnotations_pullPolicy src a :
  fieldAnnotations src a !! podAllowedImagePullPolicyAnnotation
  = match ImagePullPolicies (Spec src) with
    | [] => a !! podAllowedImagePullPolicyAnnotation
    | policies => Some (Strings.Join policies ",")
    end.
Proof. fieldAnnotations_cases src. Qed.

Lemma fieldAnnotations_priorityAllowed src a :
  fieldAnnotations src a !! podPriorityAllowedAnnotation
  = match Exact <$> PriorityClasses (Spec src) with
    | Some ((_ :: _) as exact) => Some (Strings.Join exact ",")
    | _ => a !! podPriorityAllowedAnnotation
    end.
Proof. fieldAnnotations_cases src. Qed.

Lemma fieldAnnotations_priorityRegex src a :
  fieldAnnotations src a !! podPriorityAllowedRegexAnnotation
  = match Regex <$> PriorityClasses (Spec src) with
    | Some regex =>
        if bool_decide (regex = EmptyString)
        then a !! podPriorityAllowedRegexAnnotation else Some regex
    | None => a !! podPriorityAllowedRegexAnnotation
    end.
Proof. fieldAnnotations_cases src. Qed.

Lemma fieldAnnotations_nodePorts src a :
  fieldAnnotations src a !! enableNodePortsAnnotation
  = match ServiceOptions_ (Spec src) ≫= AllowedServices_ with
    | Some {| NodePort := Some nodePort; ExternalName := Some _ |} =>
        Some (Strconv.FormatBool nodePort)
    | _ => a !! enableNodePortsAnnotation
    end.
Proof. fieldAnnotations_cases src. Qed.

Lemma fieldAnnotations_externalName src a :
  fieldAnnotations src a !! enableExternalNameAnnotation
  = match ServiceOptions_ (Spec src) ≫= AllowedServices_ with
    | Some {| NodePort := Some _; ExternalName := Some externalName |} =>
        Some (Strconv.FormatBool externalName)
    | _ => a !! enableExternalNameAnnotation
    end.
Proof. fieldAnnotations_cases src. Qed.

(** ** Upgrade: metadata and status *)

(** X1.  The destination takes the source's annotation map, not a copy: a
    successful upgrade removes the consumed annotations from the source
    tenant as well, and a failed one leaves the source's annotations as they
    were. *)
Theorem upgrade_purges_source_annotations sched t dst σ :
  let '(σ', dst', err) := ConvertTo sched t dst σ in
  metav1.Annotations (ObjectMeta dst') = metav1.Annotations (v1alpha1.ObjectMeta t)
  ∧ match err with
    | None =>
        Forall (λ k, metav1.GetAnnotations σ' (v1alpha1.ObjectMeta t) !! k = None)
          consumedAnnotations
    | Some _ =>
        metav1.GetAnnotations σ' (v1alpha1.ObjectMeta t)
        = metav1.GetAnnotations σ (v1alpha1.ObjectMeta t)
    end.
Proof.
  pose proof (ConvertTo_cases sched t dst σ) as H. cbv zeta in H.
  destruct (ConvertTo sched t dst σ) as [[σ' dst'] err]. cbn [fst snd] in H.
  destruct H as (Hmeta & _ & [H|[H|H]]).
  - destruct H as (v & e & _ & _ & -> & ->). by rewrite Hmeta.
  - destruct H as (_ & v & e & _ & _ & -> & ->). by rewrite Hmeta.
  - destruct H as (_ & _ & -> & ->). rewrite Hmeta. split; [done|].
    rewrite GetAnnotations_delete_all. apply Forall_forall. intros k Hk.
    rewrite lookup_delete_all. by rewrite bool_decide_eq_true_2.
Qed.

(** X2.  A successful upgrade leaves every annotation that is not one of the
    21 consumed keys as the source had it. *)
Theorem upgrade_keeps_foreign_annotations sched t dst σ k :
  (ConvertTo sched t dst σ).2 = None →
  k ∉ consumedAnnotations →
  metav1.GetAnnotations (ConvertTo sched t dst σ).1.1
    (ObjectMeta (ConvertTo sched t dst σ).1.2) !! k
  = metav1.GetAnnotations σ (v1alpha1.ObjectMeta t) !! k.
Proof.
  intros E Hk. pose proof (ConvertTo_cases sched t dst σ) as H. cbv zeta in H.
  destruct H as (Hmeta & _ & [H|[H|H]]).
  - destruct H as (v & e & _ & _ & E' & _). congruence.
  - destruct H as (_ & v & e & _ & _ & E' & _). congruence.
  - destruct H as (_ & _ & _ & ->). rewrite Hmeta, GetAnnotations_delete_all.
    rewrite lookup_delete_all. by rewrite bool_decide_eq_false_2.
Qed.

Lemma upgrade_keeps_foreign_annotations_witness :
  metav1.GetAnnotations (ConvertTo reordered sampleUpgradeLegacy zeroTenant labelledStore).1.1
    (ObjectMeta (ConvertTo reordered sampleUpgradeLegacy zeroTenant labelledStore).1.2)
    !! "example.com/team"
  = Some "core".
Proof.
  apply (upgrade_keeps_foreign_annotations reordered sampleUpgradeLegacy zeroTenant
           labelledStore "example.com/team").
  - reflexivity.
  - apply (bool_decide_unpack _). vm_compute. exact I.
Defined.

(** X3.  A failed upgrade is a partial one: when [ConvertTo] returns an
    error the destination already has the source's metadata, the decoded
    owners and the directly copied fields, while its status is still the one
    it had. *)
Theorem failed_upgrade_is_partial sched t dst σ e :
  (ConvertTo sched t dst σ).2 = Some e →
  ObjectMeta (ConvertTo sched t dst σ).1.2 = v1alpha1.ObjectMeta t
  ∧ Owners (Spec (ConvertTo sched t dst σ).1.2) = convertV1Alpha1OwnerToV1Beta1 sched σ t
  ∧ NamespaceQuota (Spec (ConvertTo sched t dst σ).1.2)
    = v1alpha1.NamespaceQuota (v1alpha1.Spec t)
  ∧ NodeSelector (Spec (ConvertTo sched t dst σ).1.2)
    = v1alpha1.NodeSelector (v1alpha1.Spec t)
  ∧ Status (ConvertTo sched t dst σ).1.2 = Status dst.
Proof.
  intros E.
  pose proof (ConvertTo_cases sched t dst σ) as (Hmeta & Howners & _).
  pose proof (ConvertTo_fields sched t dst σ) as (Hq & Hn & _).
  pose proof (ConvertTo_Status sched t dst σ) as Hs. rewrite E in Hs.
  done.
Qed.

Lemma failed_upgrade_is_partial_witness :
  let r := ConvertTo in_order sampleUpgradeLegacy usedTenant
             (sampleStore [(enableNodePortsAnnotation, "yes");
                           (ownerGroupsAnnotation, "teamA")]) in
  ObjectMeta r.1.2 = v1alpha1.ObjectMeta sampleUpgradeLegacy
  ∧ Owners (Spec r.1.2)
    = convertV1Alpha1OwnerToV1Beta1 in_order
        (sampleStore [(enableNodePortsAnnotation, "yes");
                      (ownerGroupsAnnotation, "teamA")]) sampleUpgradeLegacy
  ∧ NamespaceQuota (Spec r.1.2) = None
  ∧ NodeSelector (Spec r.1.2) = opaque EmptyString
  ∧ Status r.1.2 = Status usedTenant.
Proof.
  apply (failed_upgrade_is_partial in_order sampleUpgradeLegacy usedTenant
           (sampleStore [(enableNodePortsAnnotation, "yes");
                         (ownerGroupsAnnotation, "teamA")])
           (errors_Wrap
              {| Strconv.Func := "ParseBool"; Strconv.Num := "yes";
                 Strconv.Err := "invalid syntax" |}
              (parseErrorMessage enableNodePortsAnnotation "oil"))).
  reflexivity.
Defined.

(** ** Upgrade: the fields of the specification *)

Lemma length_by_kind (owners : list OwnerSpec) :
  length owners
  = length (filter (λ e, OwnerSpec_Kind e = GroupOwner) owners)
    + length (filter (λ e, OwnerSpec_Kind e = UserOwner) owners)
    + length (filter (λ e, OwnerSpec_Kind e = ServiceAccountOwner) owners).
Proof.
  induction owners as [|o owners IH]; [done|].
  rewrite !filter_cons. destruct o as [[] ? ?]; cbn [OwnerSpec_Kind];
    repeat case_decide; try done; cbn [length]; lia.
Qed.

(** X4.  The resource quotas are wrapped only when the legacy list is not
    empty (otherwise the destination keeps what it had), and the scope of the
    wrapper is [Namespace] exactly when the scope annotation is the string
    Namespace: any other value, or no annotation, gives [Tenant]. *)
Theorem upgrade_resourceQuota_scope sched t dst σ :
  let annotations := metav1.GetAnnotations σ (v1alpha1.ObjectMeta t) in
  ResourceQuota (Spec (ConvertTo sched t dst σ).1.2)
  = match v1alpha1.ResourceQuota (v1alpha1.Spec t) with
    | [] => ResourceQuota (Spec dst)
    | items =>
        Some {| Scope :=
                  if bool_decide (annotations !! resourceQuotaScopeAnnotation
                                  = Some "Namespace")
                  then ResourceQuotaScopeNamespace else ResourceQuotaScopeTenant;
                ResourceQuotaSpec_Items := items |}
    end.
Proof.
  intros annotations.
  pose proof (ConvertTo_fields sched t dst σ) as H. cbv zeta in H.
  destruct H as (_ & _ & _ & _ & _ & _ & _ & _ & _ & -> & _).
  destruct (v1alpha1.ResourceQuota (v1alpha1.Spec t)); [done|].
  do 2 f_equal. unfold resourceQuotaScopeOf. fold annotations.
  destruct (annotations !! resourceQuotaScopeAnnotation) as [v|]; [|done].
  cbn [ResourceQuotaScope_string]. repeat case_bool_decide; congruence.
Qed.

(** X5.  The priority classes of the destination are set from the two
    priority annotations unless the value built from them is the zero value:
    an allowed-list annotation, even an empty one, always sets the field
    (its exact list is the split value); a regex annotation alone sets it
    only when it is not the empty string; otherwise the destination keeps
    what it had. *)
Theorem upgrade_priorityClasses sched t dst σ :
  let annotations := metav1.GetAnnotations σ (v1alpha1.ObjectMeta t) in
  PriorityClasses (Spec (ConvertTo sched t dst σ).1.2)
  = match annotations !! podPriorityAllowedAnnotation with
    | Some allowed =>
        Some {| Exact := Strings.Split allowed ","%char;
                Regex := default EmptyString
                           (annotations !! podPriorityAllowedRegexAnnotation) |}
    | None =>
        match annotations !! podPriorityAllowedRegexAnnotation with
        | Some regex =>
            if bool_decide (regex = EmptyString) then PriorityClasses (Spec dst)
            else Some {| Exact := []; Regex := regex |}
        | None => PriorityClasses (Spec dst)
        end
    end.
Proof.
  intros annotations.
  pose proof (ConvertTo_fields sched t dst σ) as H. cbv zeta in H.
  destruct H as (_ & _ & _ & _ & _ & _ & _ & _ & _ & _ & _ & _ & _ & ->).
  fold annotations.
  by destruct (annotations !! podPriorityAllowedAnnotation),
       (annotations !! podPriorityAllowedRegexAnnotation).
Qed.

(** X6.  The upgrade appends to the slices of the destination: the image
    pull policies and the additional role bindings of the result are those
    the destination held, followed by the converted ones, while the owners
    are replaced. *)
Theorem upgrade_appends_to_destination sched t dst σ :
  let annotations := metav1.GetAnnotations σ (v1alpha1.ObjectMeta t) in
  let r := (ConvertTo sched t dst σ).1.2 in
  ImagePullPolicies (Spec r)
  = ImagePullPolicies (Spec dst)
    ++ match annotations !! podAllowedImagePullPolicyAnnotation with
       | Some pullPolicies => Strings.Split pullPolicies ","%char
       | None => []
       end
  ∧ AdditionalRoleBindings (Spec r)
    = AdditionalRoleBindings (Spec dst)
      ++ ((λ rb, {| ClusterRoleName := v1alpha1.ClusterRoleName rb;
                    Subjects := v1alpha1.Subjects rb |})
            <$> v1alpha1.AdditionalRoleBindings (v1alpha1.Spec t))
  ∧ Owners (Spec r) = convertV1Alpha1OwnerToV1Beta1 sched σ t.
Proof.
  intros annotations r.
  pose proof (ConvertTo_fields sched t dst σ) as H. cbv zeta in H.
  destruct H as (_ & _ & _ & _ & _ & _ & _ & _ & _ & _ & Hrb & _ & Hpp & _).
  pose proof (ConvertTo_cases sched t dst σ) as (_ & Howners & _).
  done.
Qed.

(** X7.  The legacy services metadata reaches the destination only when the
    destination has no service options yet: otherwise the additional
    metadata the destination had is kept, on every return path. *)
Theorem upgrade_servicesMetadata_guard sched t dst σ :
  ServiceOptions_ (Spec (ConvertTo sched t dst σ).1.2) ≫= AdditionalMetadata
  = match ServiceOptions_ (Spec dst) with
    | Some so => AdditionalMetadata so
    | None =>
        (λ md, {| AdditionalLabels := v1alpha1.AdditionalLabels md;
                  AdditionalAnnotations := v1alpha1.AdditionalAnnotations md |})
          <$> v1alpha1.ServicesMetadata (v1alpha1.Spec t)
    end.
Proof.
  pose proof (ConvertTo_ServiceOptions sched t dst σ) as H. cbv zeta in H.
  destruct H as (-> & _). unfold serviceOptionsBeforeBooleans.
  by destruct (v1alpha1.ServicesMetadata (v1alpha1.Spec t)),
       (ServiceOptions_ (Spec dst)).
Qed.

(** ** Upgrade: the owner list *)

(** X8.  After the primary owner, the upgraded owners of each kind are the
    fields of that kind's annotation, in the order of the annotation; a kind
    without annotation has no owner after the first. *)
Theorem upgrade_owner_names_by_kind sched t dst σ kind :
  let annotations := metav1.GetAnnotations σ (v1alpha1.ObjectMeta t) in
  ownersOfKind kind (tail (Owners (Spec (ConvertTo sched t dst σ).1.2)))
  = match annotations !! ownerAnnotationOf kind with
    | Some val => Strings.Split val ","%char
    | None => []
    end.
Proof.
  intros annotations.
  pose proof (ConvertTo_cases sched t dst σ) as (_ & -> & _).
  apply upgraded_names_of_kind.
Qed.

(** X9.  The upgraded owner list is never empty: its head has the kind and
    the name of the legacy owner, and it has one more entry for each field
    of each of the three owner-kind annotations. *)
Theorem upgrade_owner_list_shape sched t dst σ :
  let annotations := metav1.GetAnnotations σ (v1alpha1.ObjectMeta t) in
  let owners := Owners (Spec (ConvertTo sched t dst σ).1.2) in
  kindAndName <$> head owners
  = Some (v1alpha1.OwnerSpec_Kind (v1alpha1.Owner (v1alpha1.Spec t)),
          v1alpha1.OwnerSpec_Name (v1alpha1.Owner (v1alpha1.Spec t)))
  ∧ length owners
    = 1 + sum_list ((λ key, match annotations !! key with
                            | Some val => length (Strings.Split val ","%char)
                            | None => 0
                            end) <$> ownerKindAnnotations).
Proof.
  intros annotations owners. subst owners.
  pose proof (ConvertTo_cases sched t dst σ) as (_ & -> & _).
  pose proof (upgraded_names_of_kind sched σ t) as Hkind. cbv zeta in Hkind.
  fold annotations in Hkind.
  destruct (convertV1Alpha1OwnerToV1Beta1_shape sched σ t) as (rest & E & _).
  rewrite E in Hkind |- *. cbn [tail] in Hkind. split; [done|].
  cbn [length]. f_equal. rewrite (length_by_kind rest).
  pose proof (Hkind GroupOwner) as Hg. pose proof (Hkind UserOwner) as Hu.
  pose proof (Hkind ServiceAccountOwner) as Hs.
  apply (f_equal length) in Hg, Hu, Hs. rewrite length_fmap in Hg, Hu, Hs.
  rewrite Hg, Hu, Hs.
  unfold ownerKindAnnotations.
  cbn [fmap list_fmap sum_list sum_list_with ownerAnnotationOf].
  destruct (annotations !! ownerGroupsAnnotation),
    (annotations !! ownerUsersAnnotation),
    (annotations !! ownerServiceAccountAnnotation); unfold id;
    rewrite ?Nat.add_0_r, ?Nat.add_0_l, ?Nat.add_assoc; reflexivity.
Qed.

(** ** Downgrade: owners, metadata and the annotations of the fields *)

Lemma other_annotation_not_encoded k (owners : list OwnerSpec) (a0 : gmap string string) :
  (∀ kind op, proxyAnnotationOf kind op ≠ k) →
  (∀ kind, ownerAnnotationOf kind ≠ k) →
  match holdersAt k owners with
  | (_ :: _) as v => Some (Strings.Join v ",")
  | [] =>
      match ownersAt k (tail owners) with
      | (_ :: _) as v => Some (Strings.Join v ",")
      | [] => a0 !! k
      end
  end = a0 !! k.
Proof. intros Hp Ho. by rewrite holdersAt_other, ownersAt_other. Qed.

(** X10.  Whenever the downgrade returns, it writes the annotation of an
    owner kind exactly when some owner after the first has that kind; the
    value is the comma-join of the names of these owners in list order, the
    first owner never being named; a kind without such an owner keeps the
    value, if any, of the copied metadata. *)
Theorem downgrade_owner_kind_annotations sched t src σ kind :
  derefsNil src = false →
  ∃ σ' t',
    ConvertFrom sched t src σ = Returned (σ', t', None)
    ∧ metav1.GetAnnotations σ' (v1alpha1.ObjectMeta t') !! ownerAnnotationOf kind
      = match ownersOfKind kind (tail (Owners (Spec src))) with
        | [] => metav1.GetAnnotations σ (ObjectMeta src) !! ownerAnnotationOf kind
        | names => Some (Strings.Join names ",")
        end.
Proof.
  intros Hnil.
  destruct (ConvertFrom_returns sched t src σ Hnil) as (a1 & σ' & t' & E & Ha1 & Ha & _).
  exists σ', t'. split; [done|].
  rewrite Ha, fieldAnnotations_other
    by (destruct kind; by apply (bool_decide_unpack _); vm_compute).
  rewrite Ha1, holdersAt_other, ownersAt_ownerAnnotationOf
    by (intros ??; apply proxyAnnotationOf_not_owner).
  by destruct (ownersOfKind kind (tail (Owners (Spec src)))).
Qed.

Lemma downgrade_owner_kind_annotations_witness :
  ∃ σ' t',
    ConvertFrom in_order zeroLegacy richTenant richStore = Returned (σ', t', None)
    ∧ metav1.GetAnnotations σ' (v1alpha1.ObjectMeta t') !! ownerGroupsAnnotation
      = Some "b,a".
Proof.
  apply (downgrade_owner_kind_annotations in_order zeroLegacy richTenant richStore
           GroupOwner).
  reflexivity.
Defined.

(** X11.  Whenever the downgrade returns, the legacy owner is the first
    owner of the list, with its kind and name, and the receiver keeps the
    owner it had when the list is empty; the name of the tenant is the
    source's, and the annotation map of the result is the source's own map,
    or a newly made one when the source had none. *)
Theorem downgrade_primary_owner_and_metadata sched t src σ :
  derefsNil src = false →
  ∃ σ' t',
    ConvertFrom sched t src σ = Returned (σ', t', None)
    ∧ v1alpha1.Owner (v1alpha1.Spec t')
      = match Owners (Spec src) with
        | [] => v1alpha1.Owner (v1alpha1.Spec t)
        | o :: _ => {| v1alpha1.OwnerSpec_Name := OwnerSpec_Name o;
                       v1alpha1.OwnerSpec_Kind := OwnerSpec_Kind o |}
        end
    ∧ metav1.Name (v1alpha1.ObjectMeta t') = metav1.Name (ObjectMeta src)
    ∧ metav1.Annotations (v1alpha1.ObjectMeta t')
      = match metav1.Annotations (ObjectMeta src) with
        | Some l => Some l
        | None => Some (fresh (dom σ))
        end.
Proof.
  intros Hnil.
  destruct (ConvertFrom_returns sched t src σ Hnil) as (a1 & σ' & t' & E & _).
  exists σ', t'. split; [done|].
  pose proof (ConvertFrom_fields sched t src σ σ' t' None E) as H. cbv zeta in H.
  by destruct H as (_ & Hname & _ & Hmap & Howner & _).
Qed.

Lemma downgrade_primary_owner_and_metadata_witness :
  ∃ σ' t',
    ConvertFrom in_order zeroLegacy richTenant richStore = Returned (σ', t', None)
    ∧ v1alpha1.Owner (v1alpha1.Spec t')
      = {| v1alpha1.OwnerSpec_Name := "alice"; v1alpha1.OwnerSpec_Kind := UserOwner |}
    ∧ metav1.Name (v1alpha1.ObjectMeta t') = "oil"
    ∧ metav1.Annotations (v1alpha1.ObjectMeta t') = Some 1%positive.
Proof.
  apply (downgrade_primary_owner_and_metadata in_order zeroLegacy richTenant richStore).
  reflexivity.
Defined.

Local Ltac not_encoded :=
  rewrite other_annotation_not_encoded by (first [ by intros [] [] | by intros [] ]).

(** X12.  Whenever the downgrade returns, the two boolean annotations are
    written exactly when the allowed services are set, with the literals
    true and false of [strconv.FormatBool]; without allowed services they
    keep the value, if any, of the copied metadata. *)
Theorem downgrade_boolean_annotations sched t src σ :
  derefsNil src = false →
  ∃ σ' t',
    ConvertFrom sched t src σ = Returned (σ', t', None)
    ∧ metav1.GetAnnotations σ' (v1alpha1.ObjectMeta t') !! enableNodePortsAnnotation
      = match ServiceOptions_ (Spec src) ≫= AllowedServices_ with
        | Some allowed => Strconv.FormatBool <$> NodePort allowed
        | None => metav1.GetAnnotations σ (ObjectMeta src) !! enableNodePortsAnnotation
        end
    ∧ metav1.GetAnnotations σ' (v1alpha1.ObjectMeta t') !! enableExternalNameAnnotation
      = match ServiceOptions_ (Spec src) ≫= AllowedServices_ with
        | Some allowed => Strconv.FormatBool <$> ExternalName allowed
        | None => metav1.GetAnnotations σ (ObjectMeta src) !! enableExternalNameAnnotation
        end.
Proof.
  intros Hnil.
  destruct (ConvertFrom_returns sched t src σ Hnil) as (a1 & σ' & t' & E & Ha1 & Ha & _).
  exists σ', t'. split; [done|].
  rewrite Ha, fieldAnnotations_nodePorts, fieldAnnotations_externalName, !Ha1.
  do 2 not_encoded. unfold derefsNil in Hnil.
  by destruct (ServiceOptions_ (Spec src) ≫= AllowedServices_) as [[[?|] [?|]]|].
Qed.

Lemma downgrade_boolean_annotations_witness :
  ∃ σ' t',
    ConvertFrom in_order zeroLegacy richTenant richStore = Returned (σ', t', None)
    ∧ metav1.GetAnnotations σ' (v1alpha1.ObjectMeta t') !! enableNodePortsAnnotation
      = Some "false"
    ∧ metav1.GetAnnotations σ' (v1alpha1.ObjectMeta t') !! enableExternalNameAnnotation
      = Some "true".
Proof.
  apply (downgrade_boolean_annotations in_order zeroLegacy richTenant richStore).
  reflexivity.
Defined.

(** X13.  Whenever the downgrade returns, the pull-policy annotation is
    the comma-join of the image pull policies when there is one, the
    allowed priority annotation is the comma-join of the exact priority
    classes when there is one, and the priority regex annotation is the
    regex when it is not the empty string; each of them keeps the value, if
    any, of the copied metadata otherwise. *)
Theorem downgrade_policy_annotations sched t src σ :
  derefsNil src = false →
  ∃ σ' t',
    ConvertFrom sched t src σ = Returned (σ', t', None)
    ∧ metav1.GetAnnotations σ' (v1alpha1.ObjectMeta t')
        !! podAllowedImagePullPolicyAnnotation
      = match ImagePullPolicies (Spec src) with
        | [] => metav1.GetAnnotations σ (ObjectMeta src)
                  !! podAllowedImagePullPolicyAnnotation
        | policies => Some (Strings.Join policies ",")
        end
    ∧ metav1.GetAnnotations σ' (v1alpha1.ObjectMeta t') !! podPriorityAllowedAnnotation
      = match Exact <$> PriorityClasses (Spec src) with
        | Some ((_ :: _) as exact) => Some (Strings.Join exact ",")
        | _ => metav1.GetAnnotations σ (ObjectMeta src) !! podPriorityAllowedAnnotation
        end
    ∧ metav1.GetAnnotations σ' (v1alpha1.ObjectMeta t')
        !! podPriorityAllowedRegexAnnotation
      = match Regex <$> PriorityClasses (Spec src) with
        | Some regex =>
            if bool_decide (regex = EmptyString)
            then metav1.GetAnnotations σ (ObjectMeta src)
                   !! podPriorityAllowedRegexAnnotation
            else Some regex
        | None => metav1.GetAnnotations σ (ObjectMeta src)
                    !! podPriorityAllowedRegexAnnotation
        end.
Proof.
  intros Hnil.
  destruct (ConvertFrom_returns sched t src σ Hnil) as (a1 & σ' & t' & E & Ha1 & Ha & _).
  exists σ', t'. split; [done|].
  rewrite Ha, fieldAnnotations_pullPolicy, fieldAnnotations_priorityAllowed,
    fieldAnnotations_priorityRegex, !Ha1.
  by do 3 not_encoded.
Qed.

Lemma downgrade_policy_annotations_witness :
  ∃ σ' t',
    ConvertFrom in_order zeroLegacy richTenant richStore = Returned (σ', t', None)
    ∧ metav1.GetAnnotations σ' (v1alpha1.ObjectMeta t')
        !! podAllowedImagePullPolicyAnnotation
      = Some "Always,IfNotPresent"
    ∧ metav1.GetAnnotations σ' (v1alpha1.ObjectMeta t') !! podPriorityAllowedAnnotation
      = Some "high,low"
    ∧ metav1.GetAnnotations σ' (v1alpha1.ObjectMeta t')
        !! podPriorityAllowedRegexAnnotation
      = Some "^prio-.*$".
Proof.
  apply (downgrade_policy_annotations in_order zeroLegacy richTenant richStore).
  reflexivity.
Defined.

(** X14.  Whenever the downgrade returns, an annotation whose key is not
    one of the 21 conversion keys has in the result the value it had in the
    source's metadata. *)
Theorem downgrade_keeps_foreign_annotations sched t src σ k :
  derefsNil src = false →
  k ∉ consumedAnnotations →
  ∃ σ' t',
    ConvertFrom sched t src σ = Returned (σ', t', None)
    ∧ metav1.GetAnnotations σ' (v1alpha1.ObjectMeta t') !! k
      = metav1.GetAnnotations σ (ObjectMeta src) !! k.
Proof.
  intros Hnil Hk.
  destruct (ConvertFrom_returns sched t src σ Hnil) as (a1 & σ' & t' & E & Ha1 & Ha & _).
  exists σ', t'. split; [done|].
  rewrite Ha, fieldAnnotations_other, Ha1.
  - apply other_annotation_not_encoded.
    + intros kind op <-. apply Hk.
      destruct kind, op; by apply (bool_decide_unpack _); vm_compute.
    + intros kind <-. apply Hk.
      destruct kind; by apply (bool_decide_unpack _); vm_compute.
  - intros Hin. apply Hk.
    repeat (apply elem_of_cons in Hin as [->|Hin];
            [by apply (bool_decide_unpack _); vm_compute|]).
    by apply elem_of_nil in Hin.
Qed.

Lemma downgrade_keeps_foreign_annotations_witness :
  ∃ σ' t',
    ConvertFrom in_order zeroLegacy richTenant richStore = Returned (σ', t', None)
    ∧ metav1.GetAnnotations σ' (v1alpha1.ObjectMeta t') !! "example.com/team"
      = Some "core".
Proof.
  apply (downgrade_keeps_foreign_annotations in_order zeroLegacy richTenant richStore
           "example.com/team").
  - reflexivity.
  - apply (bool_decide_unpack _). vm_compute. exact I.
Defined.

(** ** Upgrade: errors, and the instances the downgrade cannot take *)

(** X15.  Every error of the upgrade comes from one of the two boolean
    annotations: the annotation is present, its value is none of the
    literals of [strconv.ParseBool], the cause is the syntax error of
    [ParseBool] on that value, and the message names the annotation and the
    tenant.  The external-name annotation is blamed only when the node-ports
    annotation is absent or a boolean literal. *)
Theorem upgrade_error_shape sched t dst σ e :
  let annotations := metav1.GetAnnotations σ (v1alpha1.ObjectMeta t) in
  (ConvertTo sched t dst σ).2 = Some e →
  ∃ key v,
    annotations !! key = Some v
    ∧ (v ∉ ["1"; "t"; "T"; "true"; "TRUE"; "True";
            "0"; "f"; "F"; "false"; "FALSE"; "False"])
    ∧ e = {| message := parseErrorMessage key (metav1.Name (v1alpha1.ObjectMeta t));
             cause := {| Strconv.Func := "ParseBool"; Strconv.Num := v;
                         Strconv.Err := "invalid syntax" |} |}
    ∧ (key = enableNodePortsAnnotation
       ∨ key = enableExternalNameAnnotation
         ∧ parsesIfPresent annotations enableNodePortsAnnotation = true).
Proof.
  intros annotations E.
  assert (∀ v err, Strconv.ParseBool v = inr err →
            (v ∉ ["1"; "t"; "T"; "true"; "TRUE"; "True";
                  "0"; "f"; "F"; "false"; "FALSE"; "False"])
            ∧ err = {| Strconv.Func := "ParseBool"; Strconv.Num := v;
                       Strconv.Err := "invalid syntax" |}) as Hparse.
  { intros v err. unfold Strconv.ParseBool. repeat case_bool_decide; try done.
    intros [= <-]. split; [|done].
    change ["1"; "t"; "T"; "true"; "TRUE"; "True"; "0"; "f"; "F"; "false"; "FALSE"; "False"]
      with (["1"; "t"; "T"; "true"; "TRUE"; "True"]
            ++ ["0"; "f"; "F"; "false"; "FALSE"; "False"]).
    rewrite elem_of_app. tauto. }
  pose proof (ConvertTo_cases sched t dst σ) as H. cbv zeta in H. fold annotations in H.
  destruct H as (_ & _ & [H|[H|H]]).
  - destruct H as (v & err & Hv & Herr & E' & _).
    destruct (Hparse _ _ Herr) as [Hnot ->].
    exists enableNodePortsAnnotation, v. rewrite E in E'. injection E' as ->.
    repeat split; [done|done|by left].
  - destruct H as (Hp & v & err & Hv & Herr & E' & _).
    destruct (Hparse _ _ Herr) as [Hnot ->].
    exists enableExternalNameAnnotation, v. rewrite E in E'. injection E' as ->.
    repeat split; [done|done|by right].
  - destruct H as (_ & _ & E' & _). congruence.
Qed.

Lemma upgrade_error_shape_witness :
  let σ := sampleStore [(enableNodePortsAnnotation, "on");
                        (enableExternalNameAnnotation, "off")] in
  ∃ key v,
    metav1.GetAnnotations σ (v1alpha1.ObjectMeta sampleUpgradeLegacy) !! key = Some v
    ∧ (v ∉ ["1"; "t"; "T"; "true"; "TRUE"; "True";
            "0"; "f"; "F"; "false"; "FALSE"; "False"])
    ∧ errors_Wrap {| Strconv.Func := "ParseBool"; Strconv.Num := "on";
                     Strconv.Err := "invalid syntax" |}
        (parseErrorMessage enableNodePortsAnnotation "oil")
      = {| message := parseErrorMessage key "oil";
           cause := {| Strconv.Func := "ParseBool"; Strconv.Num := v;
                       Strconv.Err := "invalid syntax" |} |}
    ∧ (key = enableNodePortsAnnotation
       ∨ key = enableExternalNameAnnotation
         ∧ parsesIfPresent (metav1.GetAnnotations σ (v1alpha1.ObjectMeta sampleUpgradeLegacy))
             enableNodePortsAnnotation = true).
Proof.
  apply (upgrade_error_shape in_order sampleUpgradeLegacy zeroTenant
           (sampleStore [(enableNodePortsAnnotation, "on");
                         (enableExternalNameAnnotation, "off")])).
  reflexivity.
Defined.

(** X16.  An upgrade that reads a valid node-ports annotation and no
    external-name annotation, into a destination that holds no external-name
    boolean, succeeds and yields an instance on which every downgrade
    panics. *)
Theorem downgrade_of_one_boolean_upgrade_panics sched sched' t dst t' σ v b :
  let annotations := metav1.GetAnnotations σ (v1alpha1.ObjectMeta t) in
  annotations !! enableNodePortsAnnotation = Some v →
  Strconv.ParseBool v = inl b →
  annotations !! enableExternalNameAnnotation = None →
  allowedExternalName dst = None →
  (ConvertTo sched t dst σ).2 = None
  ∧ ConvertFrom sched' t' (ConvertTo sched t dst σ).1.2 (ConvertTo sched t dst σ).1.1
    = Panicked.
Proof.
  intros annotations Hv Hb Hnone Hdst.
  assert ((ConvertTo sched t dst σ).2 = None) as E.
  { pose proof (ConvertTo_cases sched t dst σ) as H. cbv zeta in H. fold annotations in H.
    destruct H as (_ & _ & [H|[H|H]]).
    - destruct H as (v' & err & Hv' & Herr & _). congruence.
    - destruct H as (_ & v' & err & Hv' & _). congruence.
    - by destruct H as (_ & _ & -> & _). }
  split; [done|]. apply ConvertFrom_panics.
  destruct (ConvertTo sched t dst σ) as [[σ1 dst1] err] eqn:Eq. cbn [fst snd] in *.
  subst err.
  pose proof (ConvertTo_AllowedServices sched t dst σ σ1 dst1 Eq) as [Hnp _].
  destruct (Hnp v Hv) as (b' & _ & Hport).
  pose proof (ConvertTo_ServiceOptions sched t dst σ) as H. cbv zeta in H.
  rewrite Eq in H. cbn [fst snd] in H. destruct H as (_ & _ & _ & Hext).
  specialize (Hext eq_refl Hnone).
  assert (allowedExternalName dst1 = None) as Hext'.
  { rewrite Hext. unfold serviceOptionsBeforeBooleans.
    destruct (v1alpha1.ServicesMetadata (v1alpha1.Spec t));
      unfold allowedExternalName in Hdst;
      by destruct (ServiceOptions_ (Spec dst)). }
  unfold allowedNodePort in Hport. unfold allowedExternalName in Hext'.
  unfold derefsNil.
  destruct (ServiceOptions_ (Spec dst1)) as [[md [[[?|] [?|]]|]]|]; done.
Qed.

Lemma downgrade_of_one_boolean_upgrade_panics_witness :
  let σ := sampleStore [(enableNodePortsAnnotation, "1")] in
  (ConvertTo reordered sampleUpgradeLegacy zeroTenant σ).2 = None
  ∧ ConvertFrom in_order zeroLegacy (ConvertTo reordered sampleUpgradeLegacy zeroTenant σ).1.2
      (ConvertTo reordered sampleUpgradeLegacy zeroTenant σ).1.1
    = Panicked.
Proof.
  apply (downgrade_of_one_boolean_upgrade_panics reordered in_order sampleUpgradeLegacy
           zeroTenant zeroLegacy (sampleStore [(enableNodePortsAnnotation, "1")])
           "1" true);
    reflexivity.
Defined.

(** ** Upgrade after downgrade: what comes back *)

Lemma roleBindings_back (l : list AdditionalRoleBindingsSpec) :
  (λ rb, {| ClusterRoleName := v1alpha1.ClusterRoleName rb;
            Subjects := v1alpha1.Subjects rb |})
    <$> ((λ rb, {| v1alpha1.ClusterRoleName := ClusterRoleName rb;
                   v1alpha1.Subjects := Subjects rb |}) <$> l)
  = l.
Proof.
  induction l as [|[] l IH]; [done|]. cbn [fmap list_fmap] in *. by rewrite IH.
Qed.

(** X17.  Downgrading a tenant into a fresh legacy tenant and upgrading the
    result into a fresh tenant gives back the fields that are copied
    directly: namespace quota, node selector, namespaces metadata, the four
    allowed lists, the additional role bindings, the external service IPs
    and the additional metadata of the service options. *)
Theorem round_trip_copied_fields enc dec t src dst σ :
  derefsNil src = false →
  v1alpha1.Spec t = v1alpha1.Spec zeroLegacy →
  Spec dst = Spec zeroTenant →
  ∃ σ1 t1,
    ConvertFrom enc t src σ = Returned (σ1, t1, None)
    ∧ let r := (ConvertTo dec t1 dst σ1).1.2 in
      NamespaceQuota (Spec r) = NamespaceQuota (Spec src)
      ∧ NodeSelector (Spec r) = NodeSelector (Spec src)
      ∧ NamespacesMetadata (Spec r) = NamespacesMetadata (Spec src)
      ∧ StorageClasses (Spec r) = StorageClasses (Spec src)
      ∧ IngressClasses (Spec r) = IngressClasses (Spec src)
      ∧ IngressHostnames (Spec r) = IngressHostnames (Spec src)
      ∧ ContainerRegistries (Spec r) = ContainerRegistries (Spec src)
      ∧ AdditionalRoleBindings (Spec r) = AdditionalRoleBindings (Spec src)
      ∧ ExternalServiceIPs (Spec r) = ExternalServiceIPs (Spec src)
      ∧ ServiceOptions_ (Spec r) ≫= AdditionalMetadata
        = ServiceOptions_ (Spec src) ≫= AdditionalMetadata.
Proof.
  intros Hnil Ht Hdst.
  destruct (ConvertFrom_returns enc t src σ Hnil) as (a1 & σ1 & t1 & E & _).
  exists σ1, t1. split; [done|].
  pose proof (ConvertFrom_fields enc t src σ σ1 t1 None E) as F. cbv zeta in F.
  destruct F as (_ & _ & _ & _ & _ & Fq & Fn & Fnm & Fsm & Fsc & Fic & Fih & Fcr
                 & _ & _ & _ & Frb & Fip & _).
  pose proof (ConvertTo_fields dec t1 dst σ1) as G. cbv zeta in G.
  destruct G as (Gq & Gn & Gnm & Gsc & Gic & Gih & Gcr & _ & _ & _ & Grb & Gip & _).
  pose proof (ConvertTo_ServiceOptions dec t1 dst σ1) as [Gsm _].
  cbv zeta. rewrite Gq, Gn, Gnm, Gsc, Gic, Gih, Gcr, Grb, Gip, Gsm.
  unfold serviceOptionsBeforeBooleans.
  rewrite Fq, Fn, Fnm, Fsm, Fsc, Fic, Fih, Fcr, Frb, Fip, Ht, Hdst.
  cbn [zeroLegacy sampleLegacy zeroTenant sampleTenant Spec v1alpha1.Spec
       v1alpha1.NamespacesMetadata v1alpha1.ServicesMetadata v1alpha1.StorageClasses
       v1alpha1.IngressClasses v1alpha1.IngressHostnames v1alpha1.ContainerRegistries
       v1alpha1.AdditionalRoleBindings v1alpha1.ExternalServiceIPs
       NamespacesMetadata ServiceOptions_ StorageClasses IngressClasses IngressHostnames
       ContainerRegistries AdditionalRoleBindings ExternalServiceIPs app].
  rewrite roleBindings_back.
  repeat split.
  - by destruct (NamespacesMetadata (Spec src)) as [[]|].
  - by destruct (StorageClasses (Spec src)) as [[]|].
  - by destruct (IngressClasses (Spec src)) as [[]|].
  - by destruct (IngressHostnames (Spec src)) as [[]|].
  - by destruct (ContainerRegistries (Spec src)) as [[]|].
  - by destruct (ExternalServiceIPs (Spec src)) as [[]|].
  - by destruct (ServiceOptions_ (Spec src) ≫= AdditionalMetadata) as [[]|].
Qed.

Lemma round_trip_copied_fields_witness :
  ∃ σ1 t1,
    ConvertFrom in_order zeroLegacy richTenant richStore = Returned (σ1, t1, None)
    ∧ let r := (ConvertTo reordered t1 zeroTenant σ1).1.2 in
      NamespaceQuota (Spec r) = Some 3%Z
      ∧ NodeSelector (Spec r) = opaque "pool=oil"
      ∧ NamespacesMetadata (Spec r) = NamespacesMetadata (Spec richTenant)
      ∧ StorageClasses (Spec r) = StorageClasses (Spec richTenant)
      ∧ IngressClasses (Spec r) = IngressClasses (Spec richTenant)
      ∧ IngressHostnames (Spec r) = IngressHostnames (Spec richTenant)
      ∧ ContainerRegistries (Spec r) = None
      ∧ AdditionalRoleBindings (Spec r) = AdditionalRoleBindings (Spec richTenant)
      ∧ ExternalServiceIPs (Spec r) = ExternalServiceIPs (Spec richTenant)
      ∧ ServiceOptions_ (Spec r) ≫= AdditionalMetadata
        = ServiceOptions_ (Spec richTenant) ≫= AdditionalMetadata.
Proof.
  apply (round_trip_copied_fields in_order reordered zeroLegacy richTenant zeroTenant
           richStore);
    reflexivity.
Defined.

Lemma resourceQuotaScopeOf_string (annotations : gmap string string) scope :
  annotations !! resourceQuotaScopeAnnotation = Some (ResourceQuotaScope_string scope) →
  resourceQuotaScopeOf annotations = scope.
Proof. intros E. unfold resourceQuotaScopeOf. rewrite E. by destruct scope. Qed.

(** X18.  Downgrading into a fresh legacy tenant and upgrading the result
    into a fresh tenant gives back the network policies, the limit ranges
    and the resource quotas with their scope, except that a wrapper whose
    item list is empty comes back as no wrapper at all. *)
Theorem round_trip_item_lists enc dec t src dst σ :
  derefsNil src = false →
  v1alpha1.Spec t = v1alpha1.Spec zeroLegacy →
  Spec dst = Spec zeroTenant →
  ∃ σ1 t1,
    ConvertFrom enc t src σ = Returned (σ1, t1, None)
    ∧ let r := (ConvertTo dec t1 dst σ1).1.2 in
      NetworkPolicies (Spec r)
      = match NetworkPolicies (Spec src) with
        | Some {| NetworkPolicySpec_Items := [] |} => None
        | other => other
        end
      ∧ LimitRanges (Spec r)
        = match LimitRanges (Spec src) with
          | Some {| LimitRangesSpec_Items := [] |} => None
          | other => other
          end
      ∧ ResourceQuota (Spec r)
        = match ResourceQuota (Spec src) with
          | Some {| Scope := _; ResourceQuotaSpec_Items := [] |} => None
          | other => other
          end.
Proof.
  intros Hnil Ht Hdst.
  destruct (ConvertFrom_returns enc t src σ Hnil) as (a1 & σ1 & t1 & E & _ & Ha & _).
  exists σ1, t1. split; [done|].
  pose proof (ConvertFrom_fields enc t src σ σ1 t1 None E) as F. cbv zeta in F.
  destruct F as (_ & _ & _ & _ & _ & _ & _ & _ & _ & _ & _ & _ & _
                 & Fnp & Flr & Frq & _).
  pose proof (ConvertTo_fields dec t1 dst σ1) as G. cbv zeta in G.
  destruct G as (_ & _ & _ & _ & _ & _ & _ & Gnp & Glr & Grq & _).
  cbv zeta. rewrite Gnp, Glr, Grq, Fnp, Flr, Frq, Ht, Hdst, Ha.
  cbn [zeroLegacy sampleLegacy zeroTenant sampleTenant Spec v1alpha1.Spec
       v1alpha1.NetworkPolicies v1alpha1.LimitRanges v1alpha1.ResourceQuota
       NetworkPolicies LimitRanges ResourceQuota].
  repeat split.
  - by destruct (NetworkPolicies (Spec src)) as [[[|??]]|].
  - by destruct (LimitRanges (Spec src)) as [[[|??]]|].
  - pose proof (fieldAnnotations_scope src a1) as Hscope.
    destruct (ResourceQuota (Spec src)) as [[scope [|??]]|]; try done.
    cbn [ResourceQuotaSpec_Items Scope] in *.
    by rewrite (resourceQuotaScopeOf_string _ scope Hscope).
Qed.

Lemma round_trip_item_lists_witness :
  ∃ σ1 t1,
    ConvertFrom in_order zeroLegacy richTenant richStore = Returned (σ1, t1, None)
    ∧ let r := (ConvertTo reordered t1 zeroTenant σ1).1.2 in
      NetworkPolicies (Spec r) = NetworkPolicies (Spec richTenant)
      ∧ LimitRanges (Spec r) = None
      ∧ ResourceQuota (Spec r) = ResourceQuota (Spec richTenant).
Proof.
  apply (round_trip_item_lists in_order reordered zeroLegacy richTenant zeroTenant
           richStore);
    reflexivity.
Defined.

(** X19.  Downgrading a tenant whose metadata holds neither boolean
    annotation and upgrading the result into a fresh tenant succeeds, gives
    back the two booleans of the allowed services (or none when there were
    no allowed services), and gives back the status. *)
Theorem round_trip_booleans_and_status enc dec t src dst σ :
  derefsNil src = false →
  Spec dst = Spec zeroTenant →
  metav1.GetAnnotations σ (ObjectMeta src) !! enableNodePortsAnnotation = None →
  metav1.GetAnnotations σ (ObjectMeta src) !! enableExternalNameAnnotation = None →
  ∃ σ1 t1,
    ConvertFrom enc t src σ = Returned (σ1, t1, None)
    ∧ (ConvertTo dec t1 dst σ1).2 = None
    ∧ allowedNodePort (ConvertTo dec t1 dst σ1).1.2 = allowedNodePort src
    ∧ allowedExternalName (ConvertTo dec t1 dst σ1).1.2 = allowedExternalName src
    ∧ Status (ConvertTo dec t1 dst σ1).1.2 = Status src.
Proof.
  intros Hnil Hdst Hnp Hen.
  destruct (ConvertFrom_returns enc t src σ Hnil) as (a1 & σ1 & t1 & E & Ha1 & Ha & _).
  exists σ1, t1. split; [done|].
  pose proof (ConvertFrom_fields enc t src σ σ1 t1 None E) as F. cbv zeta in F.
  destruct F as (_ & _ & _ & _ & _ & _ & _ & _ & _ & _ & _ & _ & _
                 & _ & _ & _ & _ & _ & Fst).
  assert (metav1.GetAnnotations σ1 (v1alpha1.ObjectMeta t1) !! enableNodePortsAnnotation
          = Strconv.FormatBool <$> allowedNodePort src) as Hnp1.
  { rewrite Ha, fieldAnnotations_nodePorts, Ha1. not_encoded. rewrite Hnp.
    unfold allowedNodePort, derefsNil in *.
    by destruct (ServiceOptions_ (Spec src)) as [[? [[[?|] [?|]]|]]|]. }
  assert (metav1.GetAnnotations σ1 (v1alpha1.ObjectMeta t1) !! enableExternalNameAnnotation
          = Strconv.FormatBool <$> allowedExternalName src) as Hen1.
  { rewrite Ha, fieldAnnotations_externalName, Ha1. not_encoded. rewrite Hen.
    unfold allowedExternalName, derefsNil in *.
    by destruct (ServiceOptions_ (Spec src)) as [[? [[[?|] [?|]]|]]|]. }
  assert ((ConvertTo dec t1 dst σ1).2 = None) as Eok.
  { pose proof (ConvertTo_cases dec t1 dst σ1) as H. cbv zeta in H.
    destruct H as (_ & _ & [H|[H|H]]).
    - destruct H as (v & err & Hv & Herr & _). rewrite Hnp1 in Hv.
      destruct (allowedNodePort src) as [[]|]; by simplify_eq/=.
    - destruct H as (_ & v & err & Hv & Herr & _). rewrite Hen1 in Hv.
      destruct (allowedExternalName src) as [[]|]; by simplify_eq/=.
    - by destruct H as (_ & _ & -> & _). }
  split; [done|].
  pose proof (ConvertTo_Status dec t1 dst σ1) as Hst. rewrite Eok in Hst.
  pose proof (ConvertTo_ServiceOptions dec t1 dst σ1) as H. cbv zeta in H.
  destruct H as (_ & _ & Hnone_np & Hnone_en).
  destruct (ConvertTo dec t1 dst σ1) as [[σ2 r] err] eqn:Eq. cbn [fst snd] in *.
  subst err.
  pose proof (ConvertTo_AllowedServices dec t1 dst σ1 σ2 r Eq) as [Hsome_np Hsome_en].
  repeat split.
  - destruct (allowedNodePort src) as [b|]; cbn [fmap option_fmap option_map] in Hnp1.
    + destruct (Hsome_np _ Hnp1) as (b' & Hb' & ->).
      destruct b; vm_compute in Hb'; by simplify_eq.
    + rewrite (Hnone_np eq_refl Hnp1). unfold serviceOptionsBeforeBooleans. rewrite Hdst.
      by destruct (v1alpha1.ServicesMetadata (v1alpha1.Spec t1)).
  - destruct (allowedExternalName src) as [b|]; cbn [fmap option_fmap option_map] in Hen1.
    + destruct (Hsome_en _ Hen1) as (b' & Hb' & ->).
      destruct b; vm_compute in Hb'; by simplify_eq.
    + rewrite (Hnone_en eq_refl Hen1). unfold serviceOptionsBeforeBooleans. rewrite Hdst.
      by destruct (v1alpha1.ServicesMetadata (v1alpha1.Spec t1)).
  - rewrite Hst, Fst. by destruct (Status src).
Qed.

Lemma round_trip_booleans_and_status_witness :
  ∃ σ1 t1,
    ConvertFrom in_order zeroLegacy richTenant richStore = Returned (σ1, t1, None)
    ∧ (ConvertTo reordered t1 zeroTenant σ1).2 = None
    ∧ allowedNodePort (ConvertTo reordered t1 zeroTenant σ1).1.2 = Some false
    ∧ allowedExternalName (ConvertTo reordered t1 zeroTenant σ1).1.2 = Some true
    ∧ Status (ConvertTo reordered t1 zeroTenant σ1).1.2 = Status richTenant.
Proof.
  apply (round_trip_booleans_and_status in_order reordered zeroLegacy richTenant zeroTenant
           richStore);
    reflexivity.
Defined.

(** X20.  When no pull policy and no exact priority class holds a comma and
    the source's metadata has none of the three policy annotations,
    downgrading and upgrading into a fresh tenant gives back the image pull
    policies and the priority classes, except that priority classes with no
    exact class and an empty regex come back as none at all. *)
Theorem round_trip_policies enc dec t src dst σ :
  derefsNil src = false →
  Spec dst = Spec zeroTenant →
  Forall (λ k, metav1.GetAnnotations σ (ObjectMeta src) !! k = None)
    [podAllowedImagePullPolicyAnnotation; podPriorityAllowedAnnotation;
     podPriorityAllowedRegexAnnotation] →
  Forall (λ s, Strings.Contains s ","%char = false) (ImagePullPolicies (Spec src)) →
  Forall (λ s, Strings.Contains s ","%char = false)
    (default [] (Exact <$> PriorityClasses (Spec src))) →
  ∃ σ1 t1,
    ConvertFrom enc t src σ = Returned (σ1, t1, None)
    ∧ ImagePullPolicies (Spec (ConvertTo dec t1 dst σ1).1.2) = ImagePullPolicies (Spec src)
    ∧ PriorityClasses (Spec (ConvertTo dec t1 dst σ1).1.2)
      = match PriorityClasses (Spec src) with
        | Some {| Exact := []; Regex := EmptyString |} => None
        | other => other
        end.
Proof.
  intros Hnil Hdst Hclean Hpull Hexact.
  apply Forall_cons in Hclean as [Hc1 Hclean].
  apply Forall_cons in Hclean as [Hc2 Hclean].
  apply Forall_cons in Hclean as [Hc3 _].
  destruct (ConvertFrom_returns enc t src σ Hnil) as (a1 & σ1 & t1 & E & Ha1 & Ha & _).
  exists σ1, t1. split; [done|].
  pose proof (ConvertTo_fields dec t1 dst σ1) as G. cbv zeta in G.
  destruct G as (_ & _ & _ & _ & _ & _ & _ & _ & _ & _ & _ & _ & Gpp & Gpc).
  rewrite Gpp, Gpc, Hdst, Ha.
  rewrite fieldAnnotations_pullPolicy, fieldAnnotations_priorityAllowed,
    fieldAnnotations_priorityRegex, !Ha1.
  do 3 not_encoded. rewrite Hc1, Hc2, Hc3.
  cbn [zeroTenant sampleTenant Spec ImagePullPolicies PriorityClasses app].
  split.
  - destruct (ImagePullPolicies (Spec src)) as [|p ps] eqn:Ep; [done|].
    by apply Split_Join.
  - destruct (PriorityClasses (Spec src)) as [[exact regex]|]; [|done].
    cbn [fmap option_fmap option_map default Exact Regex] in *.
    destruct exact as [|e es].
    + case_bool_decide as Hr; [by subst regex|]. by destruct regex.
    + rewrite Split_Join by done. case_bool_decide as Hr; by subst.
Qed.

Lemma round_trip_policies_witness :
  ∃ σ1 t1,
    ConvertFrom in_order zeroLegacy richTenant richStore = Returned (σ1, t1, None)
    ∧ ImagePullPolicies (Spec (ConvertTo reordered t1 zeroTenant σ1).1.2)
      = ["Always"; "IfNotPresent"]
    ∧ PriorityClasses (Spec (ConvertTo reordered t1 zeroTenant σ1).1.2)
      = Some {| Exact := ["high"; "low"]; Regex := "^prio-.*$" |}.
Proof.
  apply (round_trip_policies in_order reordered zeroLegacy richTenant zeroTenant richStore);
    first [ reflexivity | by repeat constructor ].
Defined.

(** X21.  Downgrading and then upgrading keeps the primary owner: the head
    of the upgraded owner list has the kind and the name of the first owner
    of the source (of the owner the legacy receiver had, when the source has
    no owner). *)
Theorem round_trip_primary_owner enc dec t src dst σ :
  derefsNil src = false →
  ∃ σ1 t1,
    ConvertFrom enc t src σ = Returned (σ1, t1, None)
    ∧ kindAndName <$> head (Owners (Spec (ConvertTo dec t1 dst σ1).1.2))
      = Some match Owners (Spec src) with
             | [] => (v1alpha1.OwnerSpec_Kind (v1alpha1.Owner (v1alpha1.Spec t)),
                      v1alpha1.OwnerSpec_Name (v1alpha1.Owner (v1alpha1.Spec t)))
             | o :: _ => kindAndName o
             end.
Proof.
  intros Hnil.
  destruct (ConvertFrom_returns enc t src σ Hnil) as (a1 & σ1 & t1 & E & _ & _ & Howner).
  exists σ1, t1. split; [done|].
  pose proof (ConvertTo_cases dec t1 dst σ1) as (_ & -> & _).
  destruct (convertV1Alpha1OwnerToV1Beta1_shape dec σ1 t1) as (rest & -> & _).
  cbn [head fmap option_fmap option_map]. unfold kindAndName at 1.
  cbn [primaryOwner OwnerSpec_Kind OwnerSpec_Name]. rewrite Howner.
  by destruct (Owners (Spec src)).
Qed.

Lemma round_trip_primary_owner_witness :
  ∃ σ1 t1,
    ConvertFrom in_order zeroLegacy richTenant richStore = Returned (σ1, t1, None)
    ∧ kindAndName <$> head (Owners (Spec (ConvertTo reordered t1 zeroTenant σ1).1.2))
      = Some (UserOwner, "alice").
Proof.
  apply (round_trip_primary_owner in_order reordered zeroLegacy richTenant zeroTenant
           richStore).
  reflexivity.
Defined.

(** X22.  When no owner name after the first holds a comma and the source's
    metadata has none of the three owner-kind annotations, downgrading and
    upgrading gives back, for each kind, the names of the owners of that
    kind after the first, in their order. *)
Theorem round_trip_owner_names enc dec t src dst σ kind :
  derefsNil src = false →
  Forall (λ k, metav1.GetAnnotations σ (ObjectMeta src) !! k = None)
    ownerKindAnnotations →
  Forall (λ o, Strings.Contains (OwnerSpec_Name o) ","%char = false)
    (tail (Owners (Spec src))) →
  ∃ σ1 t1,
    ConvertFrom enc t src σ = Returned (σ1, t1, None)
    ∧ ownersOfKind kind (tail (Owners (Spec (ConvertTo dec t1 dst σ1).1.2)))
      = ownersOfKind kind (tail (Owners (Spec src))).
Proof.
  intros Hnil Hclean Hcomma.
  destruct (ConvertFrom_returns enc t src σ Hnil) as (a1 & σ1 & t1 & E & Ha1 & Ha & _).
  exists σ1, t1. split; [done|].
  pose proof (ConvertTo_cases dec t1 dst σ1) as (_ & -> & _).
  unfold ownersOfKind at 1. rewrite upgraded_names_of_kind, Ha.
  rewrite fieldAnnotations_other
    by (destruct kind; by apply (bool_decide_unpack _); vm_compute).
  rewrite Ha1, holdersAt_other, ownersAt_ownerAnnotationOf
    by (intros ??; apply proxyAnnotationOf_not_owner).
  assert (metav1.GetAnnotations σ (ObjectMeta src) !! ownerAnnotationOf kind = None) as ->.
  { rewrite Forall_forall in Hclean. apply Hclean. unfold ownerKindAnnotations.
    destruct kind; by apply (bool_decide_unpack _); vm_compute. }
  assert (Forall (λ s, Strings.Contains s ","%char = false)
            (ownersOfKind kind (tail (Owners (Spec src))))) as Hnames.
  { unfold ownersOfKind. apply Forall_fmap, Forall_forall.
    intros o [_ Ho]%list_elem_of_filter.
    by apply (proj1 (Forall_forall _ _) Hcomma). }
  destruct (ownersOfKind kind (tail (Owners (Spec src)))) as [|n ns]; [done|].
  by apply Split_Join.
Qed.

Lemma round_trip_owner_names_witness :
  ∃ σ1 t1,
    ConvertFrom in_order zeroLegacy richTenant richStore = Returned (σ1, t1, None)
    ∧ ownersOfKind GroupOwner
        (tail (Owners (Spec (ConvertTo reordered t1 zeroTenant σ1).1.2)))
      = ["b"; "a"].
Proof.
  apply (round_trip_owner_names in_order reordered zeroLegacy richTenant zeroTenant
           richStore GroupOwner);
    first [ reflexivity | by repeat constructor ].
Defined.

(** ** Upgrade: an invariant of the proxy settings *)

Lemma foldl_invariant {A B} (P : A → Prop) (f : A → B → A) (l : list B) (a : A) :
  (∀ a b, P a → P (f a b)) → P a → P (foldl f a l).
Proof. intros Hf. revert a. induction l as [|b l IH]; intros a Ha; [done|]. by apply IH, Hf. Qed.

Lemma recordOperation_nonempty kind a operations owner :
  (∀ n m k ops, operations !! n = Some m → m !! k = Some ops → ops ≠ []) →
  ∀ n m k ops, recordOperation kind a operations owner !! n = Some m →
               m !! k = Some ops → ops ≠ [].
Proof.
  intros H n m k ops. unfold recordOperation. cbv zeta.
  destruct (decide (n = owner)) as [->|Hn].
  - rewrite lookup_insert_eq. intros [= <-].
    destruct (decide (k = kind)) as [->|Hk].
    + rewrite lookup_insert_eq. intros [= <-]. by destruct (default [] _).
    + rewrite lookup_insert_ne by done.
      destruct (operations !! owner) as [m0|] eqn:E.
      * rewrite E. cbn [default]. by apply (H owner).
      * rewrite lookup_insert_eq. cbn [default]. unfold id. by rewrite lookup_empty.
  - rewrite lookup_insert_ne by done.
    destruct (operations !! owner) as [m0|] eqn:E; [apply H|].
    rewrite lookup_insert_ne by done. apply H.
Qed.

Lemma decodeOperations_nonempty sched annotations n m k ops :
  decodeOperations sched annotations !! n = Some m → m !! k = Some ops → ops ≠ [].
Proof.
  revert n m k ops. unfold decodeOperations.
  apply (foldl_invariant
           (λ operations : gmap string (gmap ProxyServiceKind (list ProxyOperation)),
              ∀ n m k ops, operations !! n = Some m → m !! k = Some ops → ops ≠ [])).
  - intros operations [kind keys] H. apply foldl_invariant; [|done].
    clear operations H. intros operations key H. unfold decodeAnnotation.
    destruct (annotations !! key); [|done].
    apply foldl_invariant; [|done]. intros ??. apply recordOperation_nonempty.
  - intros n m k ops. by rewrite lookup_empty.
Qed.

(** X23.  In every entry of the upgraded owner list the settings have
    pairwise distinct service kinds, no setting is without operation, and
    the operations of a setting are those the permission annotations of its
    service kind grant the entry's name. *)
Theorem upgrade_settings_invariant sched t dst σ :
  let annotations := metav1.GetAnnotations σ (v1alpha1.ObjectMeta t) in
  Forall (λ e,
            NoDup (ProxySettings_Kind <$> ProxyOperations e)
            ∧ Forall (λ s, Operations s ≠ []
                           ∧ Operations s
                             = decoded annotations (OwnerSpec_Name e) (ProxySettings_Kind s))
                (ProxyOperations e))
    (Owners (Spec (ConvertTo sched t dst σ).1.2)).
Proof.
  intros annotations.
  pose proof (ConvertTo_cases sched t dst σ) as (_ & -> & _).
  apply Forall_forall. intros e He.
  destruct (upgraded_owner_settings sched σ t e He) as (call & ->).
  split; [apply getProxySettingsForOwner_NoDup|].
  apply Forall_forall. intros s Hs.
  apply getProxySettingsForOwner_elem_of in Hs as (m & Hm & Hs).
  split; [by eapply decodeOperations_nonempty|].
  subst annotations. rewrite <- decodeOperations_granted with (sched := sched).
  unfold granted. rewrite Hm. cbn. by rewrite Hs.
Qed.

(** ** Downgrade after upgrade: what a legacy tenant gets back *)

Lemma Join_Split s : Strings.Join (Strings.Split s ","%char) "," = s.
Proof.
  induction s as [|c s IH]; [done|]. cbn [Strings.Split].
  pose proof (Split_nonempty s ","%char) as Hne.
  destruct (Strings.Split s ","%char) as [|w ws]; [done|].
  destruct (Ascii.eqb c ","%char) eqn:Ec.
  - apply Ascii.eqb_eq in Ec as ->. by rewrite <- IH.
  - rewrite <- IH. by destruct ws.
Qed.

Lemma downgrade_of_upgrade dec enc t dst t' σ :
  let r := ConvertTo dec t dst σ in
  let before := metav1.GetAnnotations σ (v1alpha1.ObjectMeta t) in
  r.2 = None →
  derefsNil r.1.2 = false →
  ∃ a1 σ2 t2,
    ConvertFrom enc t' r.1.2 r.1.1 = Returned (σ2, t2, None)
    ∧ metav1.GetAnnotations σ2 (v1alpha1.ObjectMeta t2) = fieldAnnotations r.1.2 a1
    ∧ (∀ kind, a1 !! ownerAnnotationOf kind = before !! ownerAnnotationOf kind)
    ∧ (∀ k, (∀ kind op, proxyAnnotationOf kind op ≠ k) →
            (∀ kind, ownerAnnotationOf kind ≠ k) →
            a1 !! k = if bool_decide (k ∈ consumedAnnotations) then None else before !! k)
    ∧ v1alpha1.Owner (v1alpha1.Spec t2) = v1alpha1.Owner (v1alpha1.Spec t).
Proof.
  intros r before Hok Hnil. subst r.
  destruct (ConvertFrom_returns enc t' _ (ConvertTo dec t dst σ).1.1 Hnil)
    as (a1 & σ2 & t2 & E & Ha1 & Ha & Howner).
  exists a1, σ2, t2. split; [done|]. split; [done|].
  pose proof (ConvertTo_cases dec t dst σ) as H. cbv zeta in H.
  destruct H as (Hmeta & Howners & [H|[H|H]]).
  { destruct H as (? & ? & _ & _ & ? & _). congruence. }
  { destruct H as (_ & ? & ? & _ & _ & ? & _). congruence. }
  destruct H as (_ & _ & _ & Hσ).
  assert (∀ k, metav1.GetAnnotations (ConvertTo dec t dst σ).1.1
                 (ObjectMeta (ConvertTo dec t dst σ).1.2) !! k
               = if bool_decide (k ∈ consumedAnnotations) then None else before !! k)
    as Hdeleted.
  { intros k. by rewrite Hmeta, Hσ, GetAnnotations_delete_all, lookup_delete_all. }
  rewrite Howners in Ha1, Howner.
  destruct (convertV1Alpha1OwnerToV1Beta1_shape dec σ t) as (rest & Eowners & _).
  repeat split.
  - intros kind. rewrite Ha1, holdersAt_other, ownersAt_ownerAnnotationOf
      by (intros ??; apply proxyAnnotationOf_not_owner).
    unfold ownersOfKind. rewrite upgraded_names_of_kind. fold before.
    destruct (before !! ownerAnnotationOf kind) as [val|] eqn:Eval.
    + pose proof (Split_nonempty val ","%char) as Hne.
      pose proof (Join_Split val) as Hjoin.
      destruct (Strings.Split val ","%char); [done|]. by rewrite Hjoin.
    + rewrite Hdeleted, Eval. by case_bool_decide.
  - intros k Hp Ho. by rewrite Ha1, other_annotation_not_encoded, Hdeleted.
  - rewrite Howner, Eowners. cbn [primaryOwner OwnerSpec_Name OwnerSpec_Kind].
    by destruct (v1alpha1.Owner (v1alpha1.Spec t)).
Qed.

(** X24.  Whenever the upgrade of a legacy tenant succeeds and the
    downgrade of its result returns, the legacy tenant gets back its owner
    and, for each owner kind, the annotation of that kind exactly as it was:
    the upgrade deletes it from the shared map and the downgrade writes the
    same comma list again. *)
Theorem legacy_round_trip_owners dec enc t dst t' σ kind :
  (ConvertTo dec t dst σ).2 = None →
  derefsNil (ConvertTo dec t dst σ).1.2 = false →
  ∃ σ2 t2,
    ConvertFrom enc t' (ConvertTo dec t dst σ).1.2 (ConvertTo dec t dst σ).1.1
    = Returned (σ2, t2, None)
    ∧ v1alpha1.Owner (v1alpha1.Spec t2) = v1alpha1.Owner (v1alpha1.Spec t)
    ∧ metav1.GetAnnotations σ2 (v1alpha1.ObjectMeta t2) !! ownerAnnotationOf kind
      = metav1.GetAnnotations σ (v1alpha1.ObjectMeta t) !! ownerAnnotationOf kind.
Proof.
  intros Hok Hnil.
  destruct (downgrade_of_upgrade dec enc t dst t' σ Hok Hnil)
    as (a1 & σ2 & t2 & E & Ha & Hkinds & _ & Howner).
  exists σ2, t2. repeat split; [done|done|].
  rewrite Ha, fieldAnnotations_other
    by (destruct kind; by apply (bool_decide_unpack _); vm_compute).
  apply Hkinds.
Qed.

Lemma legacy_round_trip_owners_witness :
  ∃ σ2 t2,
    ConvertFrom in_order zeroLegacy
      (ConvertTo reordered richLegacy zeroTenant richLegacyStore).1.2
      (ConvertTo reordered richLegacy zeroTenant richLegacyStore).1.1
    = Returned (σ2, t2, None)
    ∧ v1alpha1.Owner (v1alpha1.Spec t2)
      = {| v1alpha1.OwnerSpec_Name := "alice"; v1alpha1.OwnerSpec_Kind := UserOwner |}
    ∧ metav1.GetAnnotations σ2 (v1alpha1.ObjectMeta t2) !! ownerGroupsAnnotation
      = Some "b,a".
Proof.
  apply (legacy_round_trip_owners reordered in_order richLegacy zeroTenant zeroLegacy
           richLegacyStore GroupOwner);
    reflexivity.
Defined.

(** X25.  Whenever the upgrade of a legacy tenant succeeds and the
    downgrade of its result returns, a boolean annotation the legacy tenant
    had comes back normalised: whatever literal it held, the result holds
    true or false, the [strconv.FormatBool] of its parsed value. *)
Theorem legacy_round_trip_normalises_booleans dec enc t dst t' σ key v :
  key ∈ [enableNodePortsAnnotation; enableExternalNameAnnotation] →
  metav1.GetAnnotations σ (v1alpha1.ObjectMeta t) !! key = Some v →
  (ConvertTo dec t dst σ).2 = None →
  derefsNil (ConvertTo dec t dst σ).1.2 = false →
  ∃ σ2 t2 b,
    ConvertFrom enc t' (ConvertTo dec t dst σ).1.2 (ConvertTo dec t dst σ).1.1
    = Returned (σ2, t2, None)
    ∧ Strconv.ParseBool v = inl b
    ∧ metav1.GetAnnotations σ2 (v1alpha1.ObjectMeta t2) !! key
      = Some (Strconv.FormatBool b).
Proof.
  intros Hkey Hv Hok Hnil.
  destruct (downgrade_of_upgrade dec enc t dst t' σ Hok Hnil)
    as (a1 & σ2 & t2 & E & Ha & _).
  destruct (ConvertTo dec t dst σ) as [[σ1 r] err] eqn:Eq. cbn [fst snd] in *.
  subst err.
  pose proof (ConvertTo_AllowedServices dec t dst σ σ1 r Eq) as [Hnp Hen].
  exists σ2, t2. unfold derefsNil in Hnil.
  apply elem_of_cons in Hkey as [->|Hkey]; [|apply list_elem_of_singleton in Hkey as ->].
  - destruct (Hnp v Hv) as (b & Hb & Hport). exists b. repeat split; [done|done|].
    rewrite Ha, fieldAnnotations_nodePorts. unfold allowedNodePort in Hport.
    destruct (ServiceOptions_ (Spec r)) as [[? [[[?|] [?|]]|]]|]; by simplify_eq/=.
  - destruct (Hen v Hv) as (b & Hb & Hname). exists b. repeat split; [done|done|].
    rewrite Ha, fieldAnnotations_externalName. unfold allowedExternalName in Hname.
    destruct (ServiceOptions_ (Spec r)) as [[? [[[?|] [?|]]|]]|]; by simplify_eq/=.
Qed.

Lemma legacy_round_trip_normalises_booleans_witness :
  ∃ σ2 t2 b,
    ConvertFrom in_order zeroLegacy
      (ConvertTo reordered richLegacy zeroTenant richLegacyStore).1.2
      (ConvertTo reordered richLegacy zeroTenant richLegacyStore).1.1
    = Returned (σ2, t2, None)
    ∧ Strconv.ParseBool "F" = inl b
    ∧ metav1.GetAnnotations σ2 (v1alpha1.ObjectMeta t2) !! enableExternalNameAnnotation
      = Some (Strconv.FormatBool b).
Proof.
  apply (legacy_round_trip_normalises_booleans reordered in_order richLegacy zeroTenant
           zeroLegacy richLegacyStore enableExternalNameAnnotation "F");
    first [ reflexivity | by apply (bool_decide_unpack _); vm_compute ].
Defined.

(** X26.  Whenever the upgrade of a legacy tenant succeeds and the
    downgrade of its result returns, the scope annotation comes back
    normalised when the tenant has resource quotas: Namespace if it was
    Namespace, and Tenant otherwise, also when it was absent or another
    string.  Without resource quotas the annotation is not restored: the
    result holds the scope of the quotas the destination had, if any. *)
Theorem legacy_round_trip_scope dec enc t dst t' σ :
  (ConvertTo dec t dst σ).2 = None →
  derefsNil (ConvertTo dec t dst σ).1.2 = false →
  ∃ σ2 t2,
    ConvertFrom enc t' (ConvertTo dec t dst σ).1.2 (ConvertTo dec t dst σ).1.1
    = Returned (σ2, t2, None)
    ∧ metav1.GetAnnotations σ2 (v1alpha1.ObjectMeta t2) !! resourceQuotaScopeAnnotation
      = match v1alpha1.ResourceQuota (v1alpha1.Spec t) with
        | [] => (λ rq, ResourceQuotaScope_string (Scope rq)) <$> ResourceQuota (Spec dst)
        | _ =>
            Some (if bool_decide (metav1.GetAnnotations σ (v1alpha1.ObjectMeta t)
                                    !! resourceQuotaScopeAnnotation = Some "Namespace")
                  then "Namespace" else "Tenant")
        end.
Proof.
  intros Hok Hnil.
  destruct (downgrade_of_upgrade dec enc t dst t' σ Hok Hnil)
    as (a1 & σ2 & t2 & E & Ha & _ & Hother & _).
  exists σ2, t2. split; [done|].
  rewrite Ha, fieldAnnotations_scope.
  pose proof (ConvertTo_fields dec t dst σ) as G. cbv zeta in G.
  destruct G as (_ & _ & _ & _ & _ & _ & _ & _ & _ & -> & _).
  rewrite Hother by (first [ by intros [] [] | by intros [] ]).
  rewrite bool_decide_eq_true_2 by (by apply (bool_decide_unpack _); vm_compute).
  destruct (v1alpha1.ResourceQuota (v1alpha1.Spec t)).
  - by destruct (ResourceQuota (Spec dst)).
  - cbn [Scope]. unfold resourceQuotaScopeOf.
    destruct (metav1.GetAnnotations σ (v1alpha1.ObjectMeta t)
                !! resourceQuotaScopeAnnotation) as [v|]; [|done].
    cbn [ResourceQuotaScope_string]. repeat case_bool_decide; by simplify_eq.
Qed.

Lemma legacy_round_trip_scope_witness :
  ∃ σ2 t2,
    ConvertFrom in_order zeroLegacy
      (ConvertTo reordered richLegacy zeroTenant richLegacyStore).1.2
      (ConvertTo reordered richLegacy zeroTenant richLegacyStore).1.1
    = Returned (σ2, t2, None)
    ∧ metav1.GetAnnotations σ2 (v1alpha1.ObjectMeta t2) !! resourceQuotaScopeAnnotation
      = Some "Tenant".
Proof.
  apply (legacy_round_trip_scope reordered in_order richLegacy zeroTenant zeroLegacy
           richLegacyStore);
    reflexivity.
Defined.

(** X27.  Whenever the upgrade of a legacy tenant succeeds and the
    downgrade of its result returns, every annotation that is not one of the
    21 conversion keys has at the end the value it had at the start. *)
Theorem legacy_round_trip_foreign_annotations dec enc t dst t' σ k :
  k ∉ consumedAnnotations →
  (ConvertTo dec t dst σ).2 = None →
  derefsNil (ConvertTo dec t dst σ).1.2 = false →
  ∃ σ2 t2,
    ConvertFrom enc t' (ConvertTo dec t dst σ).1.2 (ConvertTo dec t dst σ).1.1
    = Returned (σ2, t2, None)
    ∧ metav1.GetAnnotations σ2 (v1alpha1.ObjectMeta t2) !! k
      = metav1.GetAnnotations σ (v1alpha1.ObjectMeta t) !! k.
Proof.
  intros Hk Hok Hnil.
  destruct (downgrade_of_upgrade dec enc t dst t' σ Hok Hnil)
    as (a1 & σ2 & t2 & E & Ha & _ & Hother & _).
  exists σ2, t2. split; [done|].
  rewrite Ha, fieldAnnotations_other, Hother.
  - by rewrite bool_decide_eq_false_2.
  - intros kind op <-. apply Hk.
    destruct kind, op; by apply (bool_decide_unpack _); vm_compute.
  - intros kind <-. apply Hk.
    destruct kind; by apply (bool_decide_unpack _); vm_compute.
  - intros Hin. apply Hk.
    repeat (apply elem_of_cons in Hin as [->|Hin];
            [by apply (bool_decide_unpack _); vm_compute|]).
    by apply elem_of_nil in Hin.
Qed.

Lemma legacy_round_trip_foreign_annotations_witness :
  ∃ σ2 t2,
    ConvertFrom in_order zeroLegacy
      (ConvertTo reordered richLegacy zeroTenant richLegacyStore).1.2
      (ConvertTo reordered richLegacy zeroTenant richLegacyStore).1.1
    = Returned (σ2, t2, None)
    ∧ metav1.GetAnnotations σ2 (v1alpha1.ObjectMeta t2) !! "example.com/team"
      = Some "core".
Proof.
  apply (legacy_round_trip_foreign_annotations reordered in_order richLegacy zeroTenant
           zeroLegacy richLegacyStore "example.com/team");
    first [ reflexivity | apply (bool_decide_unpack _); vm_compute; exact I ].
Defined.

(** ** Downgrade: when it returns *)

(** X28.  The downgrade returns exactly when the allowed services of the
    source are unset or hold both booleans, whatever the receiver and the
    store are; and it never returns an error. *)
Theorem downgrade_returns_exactly_when sched t src σ :
  (returns (ConvertFrom sched t src σ) = true
   ↔ ∀ allowed, ServiceOptions_ (Spec src) ≫= AllowedServices_ = Some allowed →
                is_Some (NodePort allowed) ∧ is_Some (ExternalName allowed))
  ∧ ∀ σ' t' err, ConvertFrom sched t src σ = Returned (σ', t', err) → err = None.
Proof.
  split.
  - destruct (derefsNil src) eqn:Hnil.
    + rewrite (ConvertFrom_panics sched t src σ Hnil). split; [done|].
      intros H. exfalso. unfold derefsNil in Hnil.
      destruct (ServiceOptions_ (Spec src) ≫= AllowedServices_) as [allowed|]; [|done].
      destruct (H allowed eq_refl) as [[? Hn] [? He]].
      rewrite Hn, He in Hnil. done.
    + destruct (ConvertFrom_returns sched t src σ Hnil) as (? & ? & ? & -> & _).
      split; [|done]. intros _ allowed Hallowed. unfold derefsNil in Hnil.
      rewrite Hallowed in Hnil.
      by destruct (NodePort allowed), (ExternalName allowed).
  - intros σ' t' err E.
    by destruct (ConvertFrom_fields sched t src σ σ' t' err E) as (-> & _).
Qed.
